(** * PromoPilot (ford_promo): record aggregation and response envelopes

    A shallow embedding of the summary/aggregation core of the repository:

    - [src/src/utils/common-utils.js]: [createResponse], [handleError],
      [formatVehicleLine], [incrementCounter], [calculateSummary],
      [getISODate], [parseNumberSafe];
    - [src/src/utils/schema-validator.js]: [createStandardResponse],
      the field validators, [validateInput], [validateOutput];
    - [src/tools/incentive-fetcher.js]: [getIncentiveStatus],
      [calculateIncentiveSummary], [fetch_incentive_data];
    - the inventory ingestor: [getAgingCategory],
      [calculateInventorySummary], the handler of one CSV row;
    - the report formatter: [generate_promotional_report].

    Modelling conventions.

    - A JavaScript Number is an extended rational ([num]): [NaN], the two
      infinities, or a finite rational.  Division, [Math.round] and the
      comparisons follow ECMAScript on these values (0/0 is [NaN], every
      comparison with [NaN] is false).  Binary64 rounding and the sign of
      zero are not represented; no property below depends on them.
    - A plain object used as a dictionary is a [gmap] over its own
      properties; two objects are compared as key/value maps.  Members
      inherited from [Object.prototype] are not represented: the lookup
      and the insertion of a [gmap] are those of the object for every key
      that is not the name of such a member ([plain_key]).  On the code a
      read under one of these names finds the inherited member, and an
      assignment to [__proto__] creates no property.  A statement that
      depends on it says so in a hypothesis.
    - A record handed to a summary builder is an object, and the
      [itemTransform] of an aggregation is a total function that throws
      nothing.
    - [throw]/[try]/[catch] is the [result] monad.  The modules are ES
      modules, hence strict code: creating a property on a primitive
      throws a [TypeError].
    - The clock ([new Date()]) is passed in explicitly. *)

From Stdlib Require Import QArith Qabs Qround Qreduction ZArith Lia String Ascii.
From stdpp Require Import gmap strings list fin_maps pretty.

Local Open Scope string_scope.
#[local] Set Warnings "-register-all".

(* ===================================================================== *)
(** ** JavaScript numbers *)
(* ===================================================================== *)

Inductive num : Type :=
  | NaN
  | PosInf
  | NegInf
  | Fin (q : Q).

Definition num_of_Z (z : Z) : num := Fin (inject_Z z).
Definition num_of_nat (n : nat) : num := num_of_Z (Z.of_nat n).

Definition num_zero : num := num_of_Z 0.
Definition num_one : num := num_of_Z 1.

(** [a + b] on Numbers. *)
Definition num_add (a b : num) : num :=
  match a, b with
  | NaN, _ | _, NaN => NaN
  | PosInf, NegInf | NegInf, PosInf => NaN
  | PosInf, _ | _, PosInf => PosInf
  | NegInf, _ | _, NegInf => NegInf
  | Fin x, Fin y => Fin (Qred (x + y))
  end.

Definition num_neg (a : num) : num :=
  match a with
  | NaN => NaN
  | PosInf => NegInf
  | NegInf => PosInf
  | Fin x => Fin (Qred (- x))
  end.

(** [a - b] on Numbers. *)
Definition num_sub (a b : num) : num := num_add a (num_neg b).

Definition Qsign_pos (x : Q) : bool := (0 <? Qnum x)%Z.
Definition Qis_zero (x : Q) : bool := (Qnum x =? 0)%Z.

(** [a / b] on Numbers: a zero divisor gives [NaN] for a zero dividend and
    an infinity otherwise. *)
Definition num_div (a b : num) : num :=
  match a, b with
  | NaN, _ | _, NaN => NaN
  | (PosInf | NegInf), (PosInf | NegInf) => NaN
  | PosInf, Fin y => if Qsign_pos y || Qis_zero y then PosInf else NegInf
  | NegInf, Fin y => if Qsign_pos y || Qis_zero y then NegInf else PosInf
  | Fin _, (PosInf | NegInf) => num_zero
  | Fin x, Fin y =>
      if Qis_zero y then
        if Qis_zero x then NaN
        else if Qsign_pos x then PosInf else NegInf
      else Fin (Qred (x / y))
  end.

(** [Math.round]: the nearest integer, ties towards positive infinity. *)
Definition Math_round (a : num) : num :=
  match a with
  | Fin x => num_of_Z (Qfloor (x + (1 # 2)))
  | other => other
  end.

Definition Math_floor (a : num) : num :=
  match a with
  | Fin x => num_of_Z (Qfloor x)
  | other => other
  end.

Definition Math_ceil (a : num) : num :=
  match a with
  | Fin x => num_of_Z (Qceiling x)
  | other => other
  end.

(** [a < b]; false as soon as one side is [NaN]. *)
Definition num_lt (a b : num) : bool :=
  match a, b with
  | NaN, _ | _, NaN => false
  | _, NegInf => false
  | PosInf, _ => false
  | NegInf, _ => true
  | Fin _, PosInf => true
  | Fin x, Fin y => negb (Qle_bool y x)
  end.

(** [a <= b]; false as soon as one side is [NaN]. *)
Definition num_le (a b : num) : bool :=
  match a, b with
  | NaN, _ | _, NaN => false
  | NegInf, _ => true
  | _, PosInf => true
  | _, NegInf => false
  | PosInf, _ => false
  | Fin x, Fin y => Qle_bool x y
  end.

(** [a > b] and [a >= b]. *)
Definition num_gt (a b : num) : bool := num_lt b a.
Definition num_ge (a b : num) : bool := num_le b a.

(** [Math.max(a, b)]. *)
Definition Math_max (a b : num) : num :=
  match a, b with
  | NaN, _ | _, NaN => NaN
  | _, _ => if num_lt a b then b else a
  end.

(** ToBoolean on a Number: zero and [NaN] are falsy. *)
Definition num_truthy (a : num) : bool :=
  match a with
  | NaN => false
  | Fin x => negb (Qis_zero x)
  | _ => true
  end.

(** [a || b] when both operands are Numbers. *)
Definition num_or (a b : num) : num := if num_truthy a then a else b.

(* ===================================================================== *)
(** ** JavaScript values, conversions, exceptions *)
(* ===================================================================== *)

(** The values that flow through the pipeline: what [JSON.parse] and the
    CSV parser produce, plus [undefined] for a missing property. *)
Inductive jsval : Type :=
  | VUndefined
  | VNull
  | VBool (b : bool)
  | VNum (x : num)
  | VStr (s : string)
  | VArr (elems : list jsval)
  | VObj (props : list (string * jsval)).

(** Library functions of the host whose exact output no property depends
    on: number formatting, string parsing, date parsing, [String.trim]. *)
Class Builtins : Type := {
  number_to_string : num → string;
  string_to_number : string → num;
  parseFloat_string : string → num;
  Date_parse : string → num;
  String_trim : string → string
}.

Section Conversions.
Context `{Builtins}.

(** ToString; it is also ToPropertyKey for the values above. *)
Fixpoint ToString (v : jsval) : string :=
  match v with
  | VUndefined => "undefined"
  | VNull => "null"
  | VBool true => "true"
  | VBool false => "false"
  | VNum x => number_to_string x
  | VStr s => s
  | VArr elems =>
      (fix join (l : list jsval) : string :=
         match l with
         | [] => ""
         | x :: rest =>
             let sx := match x with
                       | VUndefined | VNull => ""
                       | _ => ToString x
                       end in
             match rest with
             | [] => sx
             | _ => sx ++ "," ++ join rest
             end
         end) elems
  | VObj _ => "[object Object]"
  end.

(** ToNumber, i.e. [Number(v)]. *)
Definition ToNumber (v : jsval) : num :=
  match v with
  | VUndefined => NaN
  | VNull => num_zero
  | VBool true => num_one
  | VBool false => num_zero
  | VNum x => x
  | VStr s => string_to_number s
  | VArr _ | VObj _ => string_to_number (ToString v)
  end.

(** [parseFloat(v)] converts its argument to a string first. *)
Definition parseFloat (v : jsval) : num := parseFloat_string (ToString v).

(** The time value of [new Date(v)]: milliseconds since the epoch, or
    [NaN] for an invalid date. *)
Definition TimeClip (t : num) : num :=
  match t with
  | Fin q =>
      if Qle_bool (Qabs q) (inject_Z 8640000000000000)
      then num_of_Z (Z.quot (Qnum q) (Z.pos (Qden q)))
      else NaN
  | _ => NaN
  end.

Definition new_Date (v : jsval) : num :=
  match v with
  | VUndefined => NaN
  | VStr s => Date_parse s
  | VArr _ | VObj _ => Date_parse (ToString v)
  | _ => TimeClip (ToNumber v)
  end.
End Conversions.

(** ToBoolean. *)
Definition truthy (v : jsval) : bool :=
  match v with
  | VUndefined | VNull => false
  | VBool b => b
  | VNum x => num_truthy x
  | VStr s => negb (String.eqb s "")
  | VArr _ | VObj _ => true
  end.

(** [a || b]. *)
Definition js_or (a b : jsval) : jsval := if truthy a then a else b.

(** [v !== undefined && v !== null]. *)
Definition not_nullish (v : jsval) : bool :=
  match v with
  | VUndefined | VNull => false
  | _ => true
  end.

(** [Array.isArray(v)]. *)
Definition Array_isArray (v : jsval) : bool :=
  match v with VArr _ => true | _ => false end.

(** Own properties of a parsed object, by name. *)
Fixpoint assoc (name : string) (props : list (string * jsval)) : jsval :=
  match props with
  | [] => VUndefined
  | (k, v) :: rest => if String.eqb k name then v else assoc name rest
  end.

(** Thrown values.  [app] is present exactly for instances of [AppError]
    ([src/src/utils/error-handler.js]) and carries [type], [severity]
    and [details]. *)
Record AppErrorInfo : Type := {
  type : string;
  severity : string;
  details : jsval
}.

Record JsError : Type := {
  message : string;
  app : option AppErrorInfo
}.

Module ErrorTypes.
Definition VALIDATION := "VALIDATION_ERROR".
Definition CONFIGURATION := "CONFIGURATION_ERROR".
Definition API := "API_ERROR".
Definition FILE_SYSTEM := "FILE_SYSTEM_ERROR".
Definition NETWORK := "NETWORK_ERROR".
Definition PROCESSING := "PROCESSING_ERROR".
Definition UNKNOWN := "UNKNOWN_ERROR".
End ErrorTypes.

Module ErrorSeverity.
Definition LOW := "low".
Definition MEDIUM := "medium".
Definition HIGH := "high".
Definition CRITICAL := "critical".
End ErrorSeverity.

(** [new Error(msg)] and [new TypeError(msg)]: not instances of [AppError]. *)
Definition Error (msg : string) : JsError := {| message := msg; app := None |}.
Definition TypeError (msg : string) : JsError := {| message := msg; app := None |}.

(** [new AppError(message, type, severity, details)] with the defaults of
    the constructor. *)
Definition AppError (msg : string) (ty : option string) (sev : option string)
    (det : option jsval) : JsError :=
  {| message := msg;
     app := Some {| type := default ErrorTypes.UNKNOWN ty;
                    severity := default ErrorSeverity.MEDIUM sev;
                    details := default (VObj []) det |} |}.

(** A computation that returns or throws. *)
Inductive result (A : Type) : Type :=
  | Ok (a : A)
  | Throw (e : JsError).
Arguments Ok {A} a.
Arguments Throw {A} e.

#[global] Instance result_ret : MRet result := λ A a, Ok a.
#[global] Instance result_bind : MBind result := λ A B f m,
  match m with
  | Ok a => f a
  | Throw e => Throw e
  end.

Definition returns {A : Type} (m : result A) : bool :=
  match m with Ok _ => true | Throw _ => false end.

(** [v.name] for a property name that no built-in prototype defines:
    reading from [null] or [undefined] throws, a primitive or an array
    has no such property. *)
Definition get_prop (v : jsval) (name : string) : result jsval :=
  match v with
  | VUndefined =>
      Throw (TypeError ("Cannot read properties of undefined (reading '" ++ name ++ "')"))
  | VNull =>
      Throw (TypeError ("Cannot read properties of null (reading '" ++ name ++ "')"))
  | VObj props => Ok (assoc name props)
  | _ => Ok VUndefined
  end.

(** [xs.map(f)] for a callback that may throw. *)
Fixpoint map_result {A B : Type} (f : A → result B) (xs : list A) : result (list B) :=
  match xs with
  | [] => Ok []
  | x :: rest =>
      y ← f x;
      ys ← map_result f rest;
      mret (y :: ys)
  end.

(* ===================================================================== *)
(** ** [src/src/utils/common-utils.js] *)
(* ===================================================================== *)

(** A field of a response object: the flag, a string, the details of an
    [AppError], or a payload value supplied by the caller. *)
Inductive rfield (P : Type) : Type :=
  | RBool (b : bool)
  | RStr (s : string)
  | RDetails (d : jsval)
  | RData (p : P).
Arguments RBool {P} b.
Arguments RStr {P} s.
Arguments RDetails {P} d.
Arguments RData {P} p.

(** [error.message || fallback]. *)
Definition message_or (e : JsError) (fallback : string) : string :=
  if String.eqb (message e) "" then fallback else message e.

(** [createResponse(success, data = {}, error = null)]; [now_iso] is
    [new Date().toISOString()].  The spread [...data] comes last in the
    literal, so the keys of [data] win. *)
Definition createResponse {P : Type} (now_iso : string) (success : bool)
    (data : gmap string (rfield P)) (error : option JsError) : gmap string (rfield P) :=
  let response :=
    data ∪ <["timestamp" := RStr now_iso]> (<["success" := RBool success]> ∅) in
  match success, error with
  | false, Some e =>
      let response := <["error" := RStr (message_or e "Unknown error occurred")]> response in
      match app e with
      | Some a =>
          <["errorDetails" := RDetails (details a)]>
            (<["errorType" := RStr (type a)]> response)
      | None => response
      end
  | _, _ => response
  end.

(** [handleError(error, operation, logger)]; the log line is not kept. *)
Definition handleError {P : Type} (now_iso : string) (error : JsError)
    : gmap string (rfield P) :=
  createResponse now_iso false ∅ (Some error).

(** The names of the members that every plain object inherits from
    [Object.prototype]. *)
Definition Object_prototype_names : list string :=
  ["__proto__"; "constructor"; "hasOwnProperty"; "isPrototypeOf";
   "propertyIsEnumerable"; "toLocaleString"; "toString"; "valueOf";
   "__defineGetter__"; "__defineSetter__";
   "__lookupGetter__"; "__lookupSetter__"].

(** A key under which a plain object holds what was stored there and
    nothing else. *)
Definition plain_key (k : string) : Prop := k ∉ Object_prototype_names.

#[global] Instance plain_key_dec (k : string) : Decision (plain_key k).
Proof. unfold plain_key. apply _. Defined.

(** [incrementCounter(obj, key, amount = 1)]: the updated object and the
    returned new count.  [obj] is a count object, given by its own
    properties; the definition is that of the code for a [plain_key].
    (Under another name of [Object_prototype_names] the code reads the
    inherited member and stores a string, or nothing for [__proto__].) *)
Definition incrementCounter (obj : gmap string num) (key : string) (amount : num)
    : gmap string num * num :=
  let current := match obj !! key with
                 | Some x => num_or x num_zero
                 | None => num_zero
                 end in
  let updated := num_add current amount in
  (<[key := updated]> obj, updated).

(** [obj[key]++] on a count object; a missing count is [undefined] and
    becomes [NaN].  (For the key [__proto__] the code stores nothing.) *)
Definition post_increment (obj : gmap string num) (key : string) : gmap string num :=
  <[key := num_add (default NaN (obj !! key)) num_one]> obj.

(** [s.slice(n)]. *)
Fixpoint String_drop (n : nat) (s : string) : string :=
  match n, s with
  | O, _ => s
  | S n', String _ s' => String_drop n' s'
  | S _, EmptyString => EmptyString
  end.

(** [s.replace(pat, rep)] for a string pattern: only the first
    occurrence is replaced, wherever it is. *)
Fixpoint String_replace (pat rep s : string) : string :=
  if String.prefix pat s then rep ++ String_drop (String.length pat) s
  else match s with
       | EmptyString => EmptyString
       | String c s' => String c (String_replace pat rep s')
       end.

(** An entry of the object built by [calculateSummary]: a number, a
    count object, or (after [+=] on a non-number) a string. *)
Inductive sval : Type :=
  | SNum (x : num)
  | SStr (s : string)
  | SMap (m : gmap string num).

(** One element [{field, key}] of [config.sumFields]. *)
Record SumField : Type := {
  field : string;
  key : string
}.

(** The configuration after its destructuring with defaults.  An item is
    an object, given by its properties; [itemTransform] is a function
    from items to items that neither throws nor has an effect.  An item
    that is [null] or a primitive, and a transform that throws, are
    outside of this type: what is proved of [calculateSummary] is proved
    for object items and total transforms. *)
Record Config : Type := {
  totalKey : string;
  groupByFields : list string;
  sumFields : list SumField;
  itemTransform : gmap string jsval → gmap string jsval
}.

(** [item[field]]. *)
Definition get (item : gmap string jsval) (f : string) : jsval :=
  default VUndefined (item !! f).

(** [`by_${field}`]. *)
Definition by_key (f : string) : string := "by_" ++ f.

(** [xs.forEach(x => ...)] threading the mutated state; stops at a throw. *)
Fixpoint forEach {A S : Type} (body : S → A → result S) (xs : list A) (s : S)
    : result S :=
  match xs with
  | [] => Ok s
  | x :: rest => s' ← body s x; forEach body rest s'
  end.

Section CommonUtils.
Context `{Builtins}.

(** [formatVehicleLine(year, make, model)]. *)
Definition formatVehicleLine (year make model : jsval) : string :=
  String_trim (ToString year ++ " " ++ ToString make ++ " " ++ ToString model).

(** [summary[`by_${field}`] = {}] for each group field. *)
Definition init_groups (fields : list string) (summary : gmap string sval)
    : gmap string sval :=
  foldl (λ s f, <[by_key f := SMap ∅]> s) summary fields.

(** [summary[key] = 0] for each sum field.  (For the key [__proto__]
    the assignment of the code creates no property, unless [__proto__]
    is the total-count key; the statements about this key exclude it.) *)
Definition init_sums (sums : list SumField) (summary : gmap string sval)
    : gmap string sval :=
  foldl (λ s sf, <[key sf := SNum num_zero]> s) summary sums.

(** One group field of one item:
    [if (value !== undefined && value !== null)
       incrementCounter(summary[`by_${field}`], value)]. *)
Definition count_group (t : gmap string jsval) (summary : gmap string sval)
    (f : string) : result (gmap string sval) :=
  let value := get t f in
  if not_nullish value then
    match summary !! by_key f with
    | Some (SMap m) =>
        Ok (<[by_key f := SMap (incrementCounter m (ToString value) num_one).1]> summary)
    | Some (SNum x) =>
        Throw (TypeError ("Cannot create property '" ++ ToString value
                          ++ "' on number '" ++ number_to_string x ++ "'"))
    | Some (SStr s) =>
        Throw (TypeError ("Cannot create property '" ++ ToString value
                          ++ "' on string '" ++ s ++ "'"))
    | None =>
        Throw (TypeError ("Cannot read properties of undefined (reading '"
                          ++ ToString value ++ "')"))
    end
  else Ok summary.

(** [summary[key] + value] for a Number [value]. *)
Definition js_plus (current : option sval) (value : num) : sval :=
  match current with
  | None => SNum NaN
  | Some (SNum x) => SNum (num_add x value)
  | Some (SStr s) => SStr (s ++ number_to_string value)
  | Some (SMap _) => SStr ("[object Object]" ++ number_to_string value)
  end.

(** One sum field of one item:
    [const value = Number(item[field]) || 0; summary[key] += value]. *)
Definition add_sum (t : gmap string jsval) (summary : gmap string sval)
    (sf : SumField) : gmap string sval :=
  let value := num_or (ToNumber (get t (field sf))) num_zero in
  <[key sf := js_plus (summary !! key sf) value]> summary.

(** The body of [items.forEach]. *)
Definition processItem (config : Config) (summary : gmap string sval)
    (item : gmap string jsval) : result (gmap string sval) :=
  let transformedItem := itemTransform config item in
  summary ← forEach (count_group transformedItem) (groupByFields config) summary;
  Ok (foldl (add_sum transformedItem) summary (sumFields config)).

(** ToNumber of [summary[key]]. *)
Definition sval_to_number (current : option sval) : num :=
  match current with
  | Some (SNum x) => x
  | Some (SStr s) => string_to_number s
  | Some (SMap _) | None => NaN
  end.

(** One sum field of the averaging pass:
    [const avgKey = key.replace('total_', 'average_');
     if (avgKey !== key) summary[avgKey] = Math.round(summary[key] / items.length)]. *)
Definition average_step (n : nat) (summary : gmap string sval) (sf : SumField)
    : gmap string sval :=
  let avgKey := String_replace "total_" "average_" (key sf) in
  if String.eqb avgKey (key sf) then summary
  else <[avgKey := SNum (Math_round (num_div (sval_to_number (summary !! key sf))
                                             (num_of_nat n)))]> summary.

(** [calculateSummary(items, config)]. *)
Definition calculateSummary (items : list (gmap string jsval)) (config : Config)
    : result (gmap string sval) :=
  let n := length items in
  let summary := {[ totalKey config := SNum (num_of_nat n) ]} in
  let summary := init_groups (groupByFields config) summary in
  let summary := init_sums (sumFields config) summary in
  summary ← forEach (processItem config) items summary;
  Ok (if (0 <? n)%nat
      then foldl (average_step n) summary (sumFields config)
      else summary).
End CommonUtils.

(* ===================================================================== *)
(** ** [src/src/utils/schema-validator.js] *)
(* ===================================================================== *)

(** [createStandardResponse(success, data = {}, error = null)]. *)
Definition createStandardResponse {P : Type} (now_iso : string) (success : bool)
    (data : gmap string (rfield P)) (error : option JsError) : gmap string (rfield P) :=
  let response : gmap string (rfield P) :=
    <["timestamp" := RStr now_iso]> (<["success" := RBool success]> ∅) in
  if success then data ∪ response
  else
    let msg := match error with
               | Some e => message_or e "Unknown error"
               | None => "Unknown error"
               end in
    let response := <["error" := RStr msg]> response in
    match error with
    | Some {| app := Some a |} =>
        <["errorDetails" := RDetails (details a)]>
          (<["errorType" := RStr (type a)]> response)
    | _ => response
    end.

(** [checkFileExists(filePath, fileType)] of common-utils, given the
    answer of [fs.pathExists]. *)
Definition checkFileExists (path_exists : bool) (filePath fileType : string)
    : result unit :=
  if path_exists then Ok tt
  else Throw (AppError (fileType ++ " not found: " ++ filePath)
                       (Some ErrorTypes.FILE_SYSTEM) None None).

(* ===================================================================== *)
(** ** [src/tools/incentive-fetcher.js] *)
(* ===================================================================== *)

Module IncentiveFetcher.

(** A processed incentive.  Of the object built in the [map] callback
    only the properties that are read again are kept; the others ([id],
    [program_name], [description], ...) are copies of the input. *)
Record Incentive : Type := {
  make : jsval;
  incentive_type : jsval;
  value : num;
  start_date : num;
  end_date : num;
  status : string;
  days_remaining : num;
  vehicle_line : string
}.

Record HighValue : Type := {
  hv_vehicle_line : string;
  hv_value : num;
  hv_type : jsval
}.

Record ExpiringSoon : Type := {
  es_vehicle_line : string;
  es_days_remaining : num;
  es_value : num
}.

Record LineStats : Type := {
  count : num;
  line_total_value : num;
  max_value : num;
  types : list jsval
}.

Record IncentiveSummary : Type := {
  total_incentives : num;
  by_make : gmap string num;
  by_type : gmap string num;
  by_status : gmap string num;
  total_value : num;
  average_value : num;
  vehicle_lines : gmap string LineStats;
  high_value_incentives : list HighValue;
  expiring_soon : list ExpiringSoon
}.

(** [getIncentiveStatus(startDate, endDate, currentDate)]; a [Date] is
    compared through its time value. *)
Definition getIncentiveStatus (startDate endDate currentDate : num) : string :=
  if num_lt currentDate startDate then "Upcoming"
  else if num_gt currentDate endDate then "Expired"
  else "Active".

(** SameValueZero, the equality of [Set]; two distinct objects are never
    the same value. *)
Definition same_value_zero (a b : jsval) : bool :=
  match a, b with
  | VUndefined, VUndefined | VNull, VNull => true
  | VBool x, VBool y => Bool.eqb x y
  | VNum NaN, VNum NaN => true
  | VNum x, VNum y => num_le x y && num_le y x
  | VStr s, VStr t => String.eqb s t
  | _, _ => false
  end.

(** [set.add(v)], the set kept in insertion order. *)
Definition Set_add (v : jsval) (set : list jsval) : list jsval :=
  if existsb (same_value_zero v) set then set else (set ++ [v])%list.

Section Fetcher.
Context `{Builtins}.

(** The body of [incentives.forEach] in [calculateIncentiveSummary].
    The entry of a vehicle line is looked up among the own properties of
    [summary.vehicle_lines]: this is the code for a line that is a
    [plain_key].  (For a line named as a member of [Object.prototype] the
    code finds the inherited member, creates no entry and throws.) *)
Definition summary_step (summary : IncentiveSummary) (incentive : Incentive)
    : IncentiveSummary :=
  let high :=
    if num_gt (value incentive) (num_of_Z 2000)
    then (high_value_incentives summary ++
          [{| hv_vehicle_line := vehicle_line incentive;
              hv_value := value incentive;
              hv_type := incentive_type incentive |}])%list
    else high_value_incentives summary in
  let expiring :=
    if String.eqb (status incentive) "Active"
       && num_le (days_remaining incentive) (num_of_Z 30)
    then (expiring_soon summary ++
          [{| es_vehicle_line := vehicle_line incentive;
              es_days_remaining := days_remaining incentive;
              es_value := value incentive |}])%list
    else expiring_soon summary in
  let line := vehicle_line incentive in
  let entry := default {| count := num_zero; line_total_value := num_zero;
                          max_value := num_zero; types := [] |}
                       (vehicle_lines summary !! line) in
  let entry :=
    {| count := num_add (count entry) num_one;
       line_total_value := num_add (line_total_value entry) (value incentive);
       max_value := Math_max (max_value entry) (value incentive);
       types := Set_add (incentive_type incentive) (types entry) |} in
  {| total_incentives := total_incentives summary;
     by_make := (incrementCounter (by_make summary)
                   (ToString (make incentive)) num_one).1;
     by_type := (incrementCounter (by_type summary)
                   (ToString (incentive_type incentive)) num_one).1;
     by_status := post_increment (by_status summary) (status incentive);
     total_value := num_add (total_value summary) (value incentive);
     average_value := average_value summary;
     vehicle_lines := <[line := entry]> (vehicle_lines summary);
     high_value_incentives := high;
     expiring_soon := expiring |}.

(** [calculateIncentiveSummary(incentives)]. *)
Definition calculateIncentiveSummary (incentives : list Incentive)
    : IncentiveSummary :=
  let summary :=
    {| total_incentives := num_of_nat (length incentives);
       by_make := ∅;
       by_type := ∅;
       by_status := {[ "Active" := num_zero; "Upcoming" := num_zero;
                       "Expired" := num_zero ]};
       total_value := num_zero;
       average_value := num_zero;
       vehicle_lines := ∅;
       high_value_incentives := [];
       expiring_soon := [] |} in
  let summary := foldl summary_step summary incentives in
  {| total_incentives := total_incentives summary;
     by_make := by_make summary;
     by_type := by_type summary;
     by_status := by_status summary;
     total_value := total_value summary;
     average_value :=
       Math_round (num_div (total_value summary)
                           (num_of_nat (length incentives)));
     vehicle_lines := vehicle_lines summary;
     high_value_incentives := high_value_incentives summary;
     expiring_soon := expiring_soon summary |}.

(** The callback of [incentives.map]: one raw incentive to one
    processed incentive. *)
Definition processIncentive (currentDate : num) (incentive : jsval)
    : result Incentive :=
  _ ← get_prop incentive "id";
  make_ ← get_prop incentive "make";
  model_ ← get_prop incentive "model";
  year_ ← get_prop incentive "year";
  type_ ← get_prop incentive "type";
  incentive_type_ ← get_prop incentive "incentive_type";
  value_ ← get_prop incentive "value";
  amount_ ← get_prop incentive "amount";
  start_ ← get_prop incentive "start_date";
  end_ ← get_prop incentive "end_date";
  let start_date_ := new_Date start_ in
  let end_date_ := new_Date end_ in
  Ok {| make := make_;
        incentive_type := js_or type_ incentive_type_;
        value := parseFloat (js_or (js_or value_ amount_) (VNum num_zero));
        start_date := start_date_;
        end_date := end_date_;
        status := getIncentiveStatus start_date_ end_date_ currentDate;
        days_remaining :=
          Math_ceil (num_div (num_sub end_date_ currentDate)
                             (num_of_Z (1000 * 60 * 60 * 24)));
        vehicle_line := formatVehicleLine year_ make_ model_ |}.

(** What the operation reads from its environment: the file system
    and three readings of the clock. *)
Record Env : Type := {
  pathExists : string → bool;
  readJson : string → result jsval;
  currentDate : num;
  fetch_date : string;
  timestamp : string
}.

(** The payload values of the success response. *)
Inductive Payload : Type :=
  | PIncentives (l : list Incentive)
  | PSummary (s : IncentiveSummary)
  | PNumber (n : num)
  | PString (s : string).

(** The container check of [fetch_incentive_data]. *)
Definition select_incentives (rawData : jsval) : result (list jsval) :=
  match rawData with
  | VArr elems => Ok elems
  | _ =>
      inner ← get_prop rawData "incentives";
      match inner with
      | VArr elems => Ok elems
      | _ => Throw (Error "Invalid incentive data format. Expected array or object with incentives property.")
      end
  end.

(** The [try] block of [fetch_incentive_data]. *)
Definition fetch_body (env : Env) (source_path : string)
    (filter_active_only include_expired : bool)
    : result (gmap string (rfield Payload)) :=
  _ ← checkFileExists (pathExists env source_path) source_path "Incentive file";
  rawData ← readJson env source_path;
  incentives ← select_incentives rawData;
  processedIncentives ← map_result (processIncentive (currentDate env)) incentives;
  let filteredIncentives := processedIncentives in
  let filteredIncentives :=
    if filter_active_only
    then List.filter (λ inc, String.eqb (status inc) "Active") filteredIncentives
    else filteredIncentives in
  let filteredIncentives :=
    if negb include_expired
    then List.filter (λ inc, negb (String.eqb (status inc) "Expired")) filteredIncentives
    else filteredIncentives in
  let summary := calculateIncentiveSummary filteredIncentives in
  Ok (createResponse (timestamp env) true
        (<["fetch_date" := RData (PString (fetch_date env))]>
         (<["total_incentives" := RData (PNumber (num_of_nat (length filteredIncentives)))]>
          (<["summary" := RData (PSummary summary)]>
           (<["data" := RData (PIncentives filteredIncentives)]> ∅))))
        None).

(** [fetch_incentive_data({source_path, filter_active_only, include_expired})]:
    whatever the [try] block throws is turned into a response by
    [handleError]. *)
Definition fetch_incentive_data (env : Env) (source_path : string)
    (filter_active_only include_expired : bool)
    : gmap string (rfield Payload) :=
  match fetch_body env source_path filter_active_only include_expired with
  | Ok response => response
  | Throw error => handleError (timestamp env) error
  end.
End Fetcher.

End IncentiveFetcher.

(* ===================================================================== *)
(** ** The inventory ingestor *)
(* ===================================================================== *)

Module InventoryIngestor.

(** A vehicle as built from one CSV row, restricted to the properties
    that the summary reads.  [None] is [undefined]: a missing column, or
    a metric that was not requested ([calculate_metrics = false]). *)
Record Vehicle : Type := {
  make : option string;
  msrp : num;
  days_on_lot : option num;
  aging_category : option string;
  vehicle_line : option string
}.

Record LineStats : Type := {
  count : num;
  total_days : num;
  avg_days : num;
  total_value : num
}.

Record InventorySummary : Type := {
  total_vehicles : num;
  by_make : gmap string num;
  by_aging : gmap string num;
  average_days_on_lot : num;
  total_msrp_value : num;
  vehicle_lines : gmap string LineStats
}.

(** [getAgingCategory(daysOnLot)]. *)
Definition getAgingCategory (daysOnLot : num) : string :=
  if num_le daysOnLot (num_of_Z 30) then "Fresh"
  else if num_le daysOnLot (num_of_Z 60) then "Aging"
  else if num_le daysOnLot (num_of_Z 90) then "Stale"
  else "Critical".

(** [Math.floor((currentDate - vehicle.date_received) / (1000 * 60 * 60 * 24))]. *)
Definition daysOnLot (currentDate date_received : num) : num :=
  Math_floor (num_div (num_sub currentDate date_received)
                      (num_of_Z (1000 * 60 * 60 * 24))).

(** The property key of a string that may be [undefined]. *)
Definition prop_key (s : option string) : string := default "undefined" s.

(** The body of [inventory.forEach] on the loop state of
    [calculateInventorySummary]: the summary object and the local
    [totalDays].  The count by make is written in place in the source,
    [(summary.by_make[k] || 0) + 1], which is [incrementCounter]. *)
Definition summary_step (st : InventorySummary * num) (vehicle : Vehicle)
    : InventorySummary * num :=
  let '(summary, totalDays) := st in
  let days := default NaN (days_on_lot vehicle) in
  let line := prop_key (vehicle_line vehicle) in
  let entry := default {| count := num_zero; total_days := num_zero;
                          avg_days := num_zero; total_value := num_zero |}
                       (vehicle_lines summary !! line) in
  let entry :=
    {| count := num_add (count entry) num_one;
       total_days := num_add (total_days entry) days;
       avg_days := avg_days entry;
       total_value := num_add (total_value entry) (msrp vehicle) |} in
  ({| total_vehicles := total_vehicles summary;
      by_make := (incrementCounter (by_make summary)
                    (prop_key (make vehicle)) num_one).1;
      by_aging := post_increment (by_aging summary)
                    (prop_key (aging_category vehicle));
      average_days_on_lot := average_days_on_lot summary;
      total_msrp_value := num_add (total_msrp_value summary) (msrp vehicle);
      vehicle_lines := <[line := entry]> (vehicle_lines summary) |},
   num_add totalDays days).

(** [lineData.avg_days = Math.round(lineData.total_days / lineData.count)]. *)
Definition line_average (lineData : LineStats) : LineStats :=
  {| count := count lineData;
     total_days := total_days lineData;
     avg_days := Math_round (num_div (total_days lineData) (count lineData));
     total_value := total_value lineData |}.

(** [calculateInventorySummary(inventory)]. *)
Definition calculateInventorySummary (inventory : list Vehicle) : InventorySummary :=
  let summary :=
    {| total_vehicles := num_of_nat (length inventory);
       by_make := ∅;
       by_aging := {[ "Fresh" := num_zero; "Aging" := num_zero;
                      "Stale" := num_zero; "Critical" := num_zero ]};
       average_days_on_lot := num_zero;
       total_msrp_value := num_zero;
       vehicle_lines := ∅ |} in
  let '(summary, totalDays) := foldl summary_step (summary, num_zero) inventory in
  {| total_vehicles := total_vehicles summary;
     by_make := by_make summary;
     by_aging := by_aging summary;
     average_days_on_lot :=
       Math_round (num_div totalDays (num_of_nat (length inventory)));
     total_msrp_value := total_msrp_value summary;
     vehicle_lines := line_average <$> vehicle_lines summary |}.

End InventoryIngestor.

(* ===================================================================== *)
(** ** A host for the examples *)
(* ===================================================================== *)

(** Integers print in decimal; nothing below relies on the other
    functions of this instance. *)
Definition example_number_to_string (x : num) : string :=
  match x with
  | NaN => "NaN"
  | PosInf => "Infinity"
  | NegInf => "-Infinity"
  | Fin q => pretty (Qfloor q)
  end.

Definition example_host : Builtins := {|
  number_to_string := example_number_to_string;
  string_to_number := λ _, NaN;
  parseFloat_string := λ _, NaN;
  Date_parse := λ _, NaN;
  String_trim := λ s, s
|}.

(** A record literal. *)
Definition record_of (props : list (string * jsval)) : gmap string jsval :=
  list_to_map props.

(* ===================================================================== *)
(** ** Vocabulary of the properties *)
(* ===================================================================== *)

(** Two time values denote the same instant. *)
Definition num_eq (a b : num) : bool := num_le a b && num_le b a.

(** The order in which an incentive goes through its statuses. *)
Definition status_rank (st : string) : nat :=
  if String.eqb st "Upcoming" then 0
  else if String.eqb st "Active" then 1
  else 2.

(** An environment in which the incentive file exists and parses to
    [rawData]. *)
Definition file_env (rawData : jsval) (now : num) (iso : string)
    : IncentiveFetcher.Env :=
  {| IncentiveFetcher.pathExists := λ _, true;
     IncentiveFetcher.readJson := λ _, Ok rawData;
     IncentiveFetcher.currentDate := now;
     IncentiveFetcher.fetch_date := iso;
     IncentiveFetcher.timestamp := iso |}.

(** The two accepted shapes of the incentive payload: an array, or an
    object whose [incentives] property is an array. *)
Definition accepted_container (rawData : jsval) : bool :=
  match rawData with
  | VArr _ => true
  | VObj props => Array_isArray (assoc "incentives" props)
  | _ => false
  end.

(** The keys that [createResponse] itself writes. *)
Definition envelope_keys : list string :=
  ["success"; "timestamp"; "error"; "errorType"; "errorDetails"].

(** The success branch of a response: flagged as such and free of error
    fields. *)
Definition success_branch {P : Type} (r : gmap string (rfield P)) : Prop :=
  r !! "success" = Some (RBool true) ∧
  r !! "error" = None ∧ r !! "errorType" = None ∧ r !! "errorDetails" = None.

(** The failure branch: flagged as such, with a message and with nothing
    besides the envelope keys. *)
Definition failure_branch {P : Type} (r : gmap string (rfield P)) : Prop :=
  r !! "success" = Some (RBool false) ∧
  (∃ msg, r !! "error" = Some (RStr msg) ∧ msg ≠ "") ∧
  (∀ k, is_Some (r !! k) → k ∈ envelope_keys).

(** The invariant of the response envelope. *)
Definition envelope_invariant {P : Type} (r : gmap string (rfield P)) : Prop :=
  (∃ ts, r !! "timestamp" = Some (RStr ts)) ∧
  (success_branch r ∨ failure_branch r) ∧
  ¬ (success_branch r ∧ failure_branch r).

(** A payload that does not use a key of the envelope. *)
Definition payload_only {P : Type} (data : gmap string (rfield P)) : Prop :=
  ∀ k, k ∈ envelope_keys → data !! k = None.


(** The tag that a failure response carries for [error]: the [type] of an
    [AppError], nothing for any other thrown value. *)
Definition error_tag {P : Type} (error : JsError) : option (rfield P) :=
  (λ a, RStr (type a)) <$> app error.

(** *** Vocabulary for [calculateSummary] *)

(** The keys written for the sum fields, for the group fields, and by the
    averaging pass. *)
Definition sum_keys (config : Config) : list string :=
  map key (sumFields config).

Definition group_keys (config : Config) : list string :=
  map by_key (groupByFields config).

Definition companion (k : string) : string :=
  String_replace "total_" "average_" k.

Definition has_companion (k : string) : bool :=
  negb (String.eqb (companion k) k).

Definition companion_keys (config : Config) : list string :=
  map companion (List.filter has_companion (sum_keys config)).


(** An entry of the summary seen as a count object. *)
Definition is_count_map (entry : option sval) : bool :=
  match entry with Some (SMap _) => true | _ => false end.

Definition is_number (entry : option sval) : bool :=
  match entry with Some (SNum _) => true | _ => false end.

(** The sum of the values of a count object. *)
Definition count_total (m : gmap string num) : num :=
  map_fold (λ _ x acc, num_add acc x) num_zero m.

Section SummaryVocabulary.
Context `{Builtins}.

(** [incrementCounter(entry, k)] on an entry that is a count object;
    any other entry is left as it is. *)
Definition bump (k : string) (entry : sval) : sval :=
  match entry with
  | SMap m => SMap (incrementCounter m k num_one).1
  | other => other
  end.

(** The state after [count_group] when it returns. *)
Definition count_group_pure (t : gmap string jsval) (summary : gmap string sval)
    (f : string) : gmap string sval :=
  if not_nullish (get t f)
  then alter (bump (ToString (get t f))) (by_key f) summary
  else summary.

(** The state after [processItem] when it returns. *)
Definition processItem_pure (config : Config) (summary : gmap string sval)
    (item : gmap string jsval) : gmap string sval :=
  let t := itemTransform config item in
  foldl (add_sum t) (foldl (count_group_pure t) summary (groupByFields config))
        (sumFields config).



(** The counts that one item adds under the key [k]: one per group
    field that is stored under [k] and whose value is neither
    [undefined] nor [null]. *)
Definition counted_keys (config : Config) (k : string)
    (item : gmap string jsval) : list string :=
  let t := itemTransform config item in
  flat_map (λ f, if decide (by_key f = k)
                 then if not_nullish (get t f) then [ToString (get t f)] else []
                 else [])
           (groupByFields config).

(** An item that makes [processItem] throw: it has a value to count
    under a key that holds the number of a sum field. *)
Definition throwing_item (config : Config) (item : gmap string jsval) : bool :=
  existsb (λ f, not_nullish (get (itemTransform config item) f)
                && bool_decide (by_key f ∈ sum_keys config))
          (groupByFields config).

(** The state from which the loop of [calculateSummary] starts. *)
Definition initial_summary (n : nat) (config : Config) : gmap string sval :=
  init_sums (sumFields config)
    (init_groups (groupByFields config)
       {[ totalKey config := SNum (num_of_nat n) ]}).
End SummaryVocabulary.

Section SummaryEntries.
Context `{Builtins}.

(** How one group field, one sum field and one whole item change the
    entry stored under the key [k]. *)
Definition group_entry (t : gmap string jsval) (k : string)
    (entry : option sval) (f : string) : option sval :=
  if decide (by_key f = k)
  then if not_nullish (get t f) then bump (ToString (get t f)) <$> entry else entry
  else entry.

Definition sum_entry (t : gmap string jsval) (k : string)
    (entry : option sval) (sf : SumField) : option sval :=
  if decide (key sf = k)
  then Some (js_plus entry (num_or (ToNumber (get t (field sf))) num_zero))
  else entry.

Definition item_entry (config : Config) (k : string)
    (entry : option sval) (item : gmap string jsval) : option sval :=
  let t := itemTransform config item in
  foldl (sum_entry t k) (foldl (group_entry t k) entry (groupByFields config))
        (sumFields config).

(** The counts [ks] added to an entry, in order. *)
Definition bumps (ks : list string) (entry : option sval) : option sval :=
  foldl (λ o k, bump k <$> o) entry ks.

(** How the averaging pass changes the entry under [k]. *)
Definition writes_companion (k : string) (sf : SumField) : bool :=
  has_companion (key sf) && bool_decide (companion (key sf) = k).

(** The states of the loop: a sum key holds a number, every other group
    key holds a count object. *)
Definition loop_state (config : Config) (s : gmap string sval) : Prop :=
  (∀ k, k ∈ sum_keys config → is_number (s !! k) = true) ∧
  (∀ k, k ∈ group_keys config → k ∉ sum_keys config →
        is_count_map (s !! k) = true).
End SummaryEntries.

Section SummaryResult.
Context `{Builtins}.

(** The object at the end of the loop, and after the averaging pass,
    when nothing throws. *)
Definition loop_result (items : list (gmap string jsval)) (config : Config)
    : gmap string sval :=
  foldl (processItem_pure config) (initial_summary (length items) config) items.

Definition averaged (n : nat) (config : Config) (s : gmap string sval)
    : gmap string sval :=
  if (0 <? n)%nat then foldl (average_step n) s (sumFields config) else s.

(** The count object stored under a key, if any. *)
Definition count_map_at (r : result (gmap string sval)) (k : string)
    : option (gmap string num) :=
  match r with
  | Ok s => match s !! k with Some (SMap m) => Some m | _ => None end
  | Throw _ => None
  end.
End SummaryResult.

(** *** Example data: the records and the configuration of
    [tests/utils/common-utils.test.js] *)

Definition testData : list (gmap string jsval) :=
  [ record_of [("make", VStr "Honda"); ("type", VStr "sedan");
               ("price", VNum (num_of_Z 25000)); ("quantity", VNum (num_of_Z 10))];
    record_of [("make", VStr "Honda"); ("type", VStr "suv");
               ("price", VNum (num_of_Z 35000)); ("quantity", VNum (num_of_Z 5))];
    record_of [("make", VStr "Toyota"); ("type", VStr "sedan");
               ("price", VNum (num_of_Z 28000)); ("quantity", VNum (num_of_Z 8))];
    record_of [("make", VStr "Toyota"); ("type", VStr "suv");
               ("price", VNum (num_of_Z 40000)); ("quantity", VNum (num_of_Z 3))] ].

Definition testConfig : Config :=
  {| totalKey := "total_vehicles";
     groupByFields := ["make"; "type"];
     sumFields := [ {| field := "price"; key := "total_price" |};
                    {| field := "quantity"; key := "total_quantity" |} ];
     itemTransform := λ item, item |}.

(** The entry of a result under a key. *)
Definition entry_at (r : result (gmap string sval)) (k : string) : option sval :=
  match r with
  | Ok s => s !! k
  | Throw _ => None
  end.

(** *** Configurations whose output keys collide *)

(** The total-count key is also the key of a group map. *)
Definition total_is_group_key : Config :=
  {| totalKey := "by_category";
     groupByFields := ["category"];
     sumFields := [];
     itemTransform := λ item, item |}.



(** A sum key that is also the key of a group map. *)
Definition group_key_is_sum_key : Config :=
  {| totalKey := "total_vehicles";
     groupByFields := ["make"];
     sumFields := [ {| field := "price"; key := "by_make" |};
                    {| field := "price"; key := "total_price" |} ];
     itemTransform := λ item, item |}.

(** *** A record without the grouped field *)



(** *** Example data: the scenarios of the specification *)

(** A vehicle received [days] days ago, with its metrics computed. *)
Definition civic (price days : Z) : InventoryIngestor.Vehicle :=
  {| InventoryIngestor.make := Some "Honda";
     InventoryIngestor.msrp := num_of_Z price;
     InventoryIngestor.days_on_lot := Some (num_of_Z days);
     InventoryIngestor.aging_category :=
       Some (InventoryIngestor.getAgingCategory (num_of_Z days));
     InventoryIngestor.vehicle_line := Some "2024 Honda Civic" |}.

(** An active incentive of the given value that ends in [days] days. *)
Definition rebate (amount days : Z) : IncentiveFetcher.Incentive :=
  {| IncentiveFetcher.make := VStr "Honda";
     IncentiveFetcher.incentive_type := VStr "rebate";
     IncentiveFetcher.value := num_of_Z amount;
     IncentiveFetcher.start_date := num_of_Z 0;
     IncentiveFetcher.end_date := num_of_Z (days * 86400000);
     IncentiveFetcher.status := "Active";
     IncentiveFetcher.days_remaining := num_of_Z days;
     IncentiveFetcher.vehicle_line := "2024 Honda Civic" |}.

(** A count object whose values are positive integers. *)
Definition natural_counts (m : gmap string num) : Prop :=
  ∀ k x, m !! k = Some x → ∃ c, x = num_of_nat (S c).

(* ===================================================================== *)
(** ** More of [src/src/utils/common-utils.js] *)
(* ===================================================================== *)

(** [isNaN(x)] for a Number [x]. *)
Definition isNaN (x : num) : bool :=
  match x with NaN => true | _ => false end.

(** [s.split(sep)[0]] for a separator of one character: what comes
    before its first occurrence, or all of [s] when there is none. *)
Fixpoint String_before (sep : ascii) (s : string) : string :=
  match s with
  | EmptyString => EmptyString
  | String c s' =>
      if Ascii.eqb c sep then EmptyString else String c (String_before sep s')
  end.

(** [getISODate(dateOnly = false)]; [isoString] is
    [new Date().toISOString()]. *)
Definition getISODate (isoString : string) (dateOnly : bool) : string :=
  if dateOnly then String_before "T"%char isoString else isoString.

Section ParseNumber.
Context `{Builtins}.

(** [parseNumberSafe(value, fallback = 0)]. *)
Definition parseNumberSafe (value : jsval) (fallback : num) : num :=
  let parsed := ToNumber value in
  if isNaN parsed then fallback else parsed.
End ParseNumber.

(* ===================================================================== *)
(** ** The inventory ingestor: one CSV row *)
(* ===================================================================== *)

(** A string property that may be [undefined], as [InventoryIngestor.Vehicle]
    keeps it. *)
Definition string_or_undefined `{Builtins} (v : jsval) : option string :=
  match v with
  | VUndefined => None
  | _ => Some (ToString v)
  end.

Section InventoryRows.
Context `{Builtins}.

(** [parseInt] of the host. *)
Variable parseInt : jsval → num.

(** The ['data'] handler of [ingest_inventory_data]: the vehicle pushed
    for one row of the CSV file, with the properties that the summary
    reads.  [calculate_metrics] is the validated parameter; the metrics
    are computed when it is truthy. *)
Definition on_data (calculate_metrics : jsval) (currentDate : num)
    (row : gmap string jsval) : InventoryIngestor.Vehicle :=
  let make := js_or (get row "Make") (get row "make") in
  let model := js_or (get row "Model") (get row "model") in
  let year := parseInt (js_or (get row "Year") (get row "year")) in
  let msrp := parseFloat (js_or (js_or (get row "MSRP") (get row "msrp"))
                                (VNum num_zero)) in
  let date_received :=
    new_Date (js_or (get row "DateReceived") (get row "date_received")) in
  if truthy calculate_metrics then
    let daysOnLot := InventoryIngestor.daysOnLot currentDate date_received in
    {| InventoryIngestor.make := string_or_undefined make;
       InventoryIngestor.msrp := msrp;
       InventoryIngestor.days_on_lot := Some daysOnLot;
       InventoryIngestor.aging_category :=
         Some (InventoryIngestor.getAgingCategory daysOnLot);
       InventoryIngestor.vehicle_line :=
         Some (number_to_string year ++ " " ++ ToString make
                 ++ " " ++ ToString model) |}
  else
    {| InventoryIngestor.make := string_or_undefined make;
       InventoryIngestor.msrp := msrp;
       InventoryIngestor.days_on_lot := None;
       InventoryIngestor.aging_category := None;
       InventoryIngestor.vehicle_line := None |}.
End InventoryRows.

(** A string contains a character. *)
Fixpoint contains_char (c : ascii) (s : string) : bool :=
  match s with
  | EmptyString => false
  | String c' s' => Ascii.eqb c' c || contains_char c s'
  end.

(* ===================================================================== *)
(** ** The report formatter *)
(* ===================================================================== *)

Module ReportFormatter.

(** The own enumerable properties that an object spread [{...v}] copies:
    those of an object, the indexed elements of an array, the indexed
    characters of a string, and nothing for any other value. *)
Definition spread (v : jsval) : gmap string jsval :=
  match v with
  | VObj props => list_to_map props
  | VArr elems => list_to_map (imap (λ i x, (pretty i, x)) elems)
  | VStr s =>
      list_to_map (imap (λ i c, (pretty i, VStr (String c EmptyString)))
                        (list_ascii_of_string s))
  | _ => ∅
  end.

(** [v?.name], for a property name that no built-in prototype defines. *)
Definition optional_prop (v : jsval) (name : string) : jsval :=
  match v with
  | VObj props => assoc name props
  | _ => VUndefined
  end.

Record ReportMetadata : Type := {
  generated_at : string;
  report_type : string;
  version : string;
  agent : string
}.

Record ExecutiveSummary : Type := {
  overview : string;
  top_priority : jsval;
  urgency_level : string
}.

Record SupportingData : Type := {
  inventory_summary : jsval;
  incentive_summary : jsval
}.

Record ReportData : Type := {
  report_metadata : ReportMetadata;
  executive_summary : ExecutiveSummary;
  recommendations : list (gmap string jsval);
  supporting_data : SupportingData;
  next_steps : list string
}.

(** The payload values of the success response. *)
Inductive Payload : Type :=
  | PReport (d : ReportData)
  | PString (s : string)
  | PNumber (n : num)
  | PValue (v : jsval).

(** What the operation reads from its environment: three readings of the
    clock (for [generated_at], for the file name and for the response),
    [JSON.stringify(reportData, null, 2)], [path.join] and the two calls
    of the file system. *)
Record Env : Type := {
  generated_at_iso : string;
  file_date_iso : string;
  timestamp : string;
  stringify : ReportData → string;
  path_join : string → string → string;
  ensureDir : string → result unit;
  writeFile : string → string → result unit
}.

(** The callback of [recommendations.map]:
    [{...rec, rank: index + 1, priority: index === 0 ? 'HIGH' : 'MEDIUM'}]. *)
Definition rank_recommendation (index : nat) (rec : jsval) : gmap string jsval :=
  <["priority" := VStr (if (index =? 0)%nat then "HIGH" else "MEDIUM")]>
    (<["rank" := VNum (num_of_nat (index + 1))]> (spread rec)).

(** The uses of [recommendations] in the report literal:
    [recommendations.length] throws on [null] and [undefined], and
    [recommendations.map] is a function for an array only. *)
Definition recommendations_list (recommendations : jsval) : result (list jsval) :=
  match recommendations with
  | VArr recs => Ok recs
  | VUndefined =>
      Throw (TypeError "Cannot read properties of undefined (reading 'length')")
  | VNull =>
      Throw (TypeError "Cannot read properties of null (reading 'length')")
  | _ => Throw (TypeError "recommendations.map is not a function")
  end.

Section Report.
Context `{Builtins}.

(** The [reportData] literal. *)
Definition report_data (env : Env) (recs : list jsval)
    (inventory_summary incentive_summary : jsval) : ReportData :=
  {| report_metadata :=
       {| generated_at := getISODate (generated_at_iso env) false;
          report_type := "promotional_recommendations";
          version := "1.0";
          agent := "PromoPilot AI" |};
     executive_summary :=
       {| overview :=
            "PromoPilot AI has identified "
              ++ number_to_string (num_of_nat (length recs))
              ++ " priority vehicle lines for promotional focus.";
          top_priority :=
            js_or (optional_prop (default VUndefined (head recs)) "vehicle_line")
                  (VStr "N/A");
          urgency_level := if (3 <=? length recs)%nat then "HIGH" else "MEDIUM" |};
     recommendations := imap rank_recommendation recs;
     supporting_data :=
       {| inventory_summary := inventory_summary;
          incentive_summary := incentive_summary |};
     next_steps :=
       [ "Implement promotional campaigns for recommended vehicle lines";
         "Monitor sales performance and adjust strategies";
         "Schedule follow-up analysis in 2 weeks" ] |}.

(** The [try] block of [generate_promotional_report]. *)
Definition report_body (env : Env)
    (recommendations inventory_summary incentive_summary output_format : jsval)
    : result (gmap string (rfield Payload)) :=
  recs ← recommendations_list recommendations;
  let reportData := report_data env recs inventory_summary incentive_summary in
  let formattedReport := stringify env reportData in
  let filename :=
    "promotional_report_" ++ getISODate (file_date_iso env) true ++ ".json" in
  let outputDir := "./output" in
  _ ← ensureDir env outputDir;
  let filePath := path_join env outputDir filename in
  _ ← writeFile env filePath formattedReport;
  Ok (createResponse (timestamp env) true
        (<["recommendations_count" := RData (PNumber (num_of_nat (length recs)))]>
         (<["format" := RData (PValue output_format)]>
          (<["file_path" := RData (PString filePath)]>
           (<["formatted_report" := RData (PString formattedReport)]>
            (<["report_data" := RData (PReport reportData)]> ∅)))))
        None).

(** [generate_promotional_report({recommendations, inventory_summary = null,
    incentive_summary = null, output_format = 'json'})], the parameters
    after their destructuring. *)
Definition generate_promotional_report (env : Env)
    (recommendations inventory_summary incentive_summary output_format : jsval)
    : gmap string (rfield Payload) :=
  match report_body env recommendations inventory_summary incentive_summary
                    output_format with
  | Ok response => response
  | Throw error => handleError (timestamp env) error
  end.
End Report.

End ReportFormatter.

(* ===================================================================== *)
(** ** More of [src/src/utils/schema-validator.js] *)
(* ===================================================================== *)

Module SchemaValidator.

(** [typeof v]. *)
Definition typeof (v : jsval) : string :=
  match v with
  | VUndefined => "undefined"
  | VNull => "object"
  | VBool _ => "boolean"
  | VNum _ => "number"
  | VStr _ => "string"
  | VArr _ | VObj _ => "object"
  end.

(** [name in obj] for an object given by its own properties. *)
Definition has_property (name : string) (props : list (string * jsval)) : bool :=
  existsb (λ p, String.eqb p.1 name) props.

(** The rules of one field of a schema; a key that the literal does not
    have is [None] ([required] is written out in every rule). *)
Record Rules : Type := {
  required : bool;
  type : option string;
  validator : option (jsval → result jsval);
  default_value : option jsval
}.

Definition Schema : Type := list (string * Rules).

Section Validators.
Context `{Builtins}.

(** [FieldValidators.filePath]. *)
Definition filePath (value : jsval) : result jsval :=
  match value with
  | VStr s =>
      if (String.length (String_trim s) =? 0)%nat
      then Throw (AppError "File path must be a non-empty string"
                           (Some ErrorTypes.VALIDATION) None None)
      else Ok (VStr (String_trim s))
  | _ => Throw (AppError "File path must be a non-empty string"
                         (Some ErrorTypes.VALIDATION) None None)
  end.

(** [FieldValidators.positiveNumber(value, fieldName = 'value')]. *)
Definition positiveNumber (value : jsval) (fieldName : string) : result jsval :=
  let num := ToNumber value in
  if isNaN num || num_lt num num_zero
  then Throw (AppError (fieldName ++ " must be a positive number")
                       (Some ErrorTypes.VALIDATION) None None)
  else Ok (VNum num).

(** [allowedValues.join(', ')] for an array of strings. *)
Fixpoint join_strings (sep : string) (l : list string) : string :=
  match l with
  | [] => ""
  | [s] => s
  | s :: rest => s ++ sep ++ join_strings sep rest
  end.

(** [FieldValidators.enumValue(value, allowedValues, fieldName = 'value')]
    for an array of allowed strings; [includes] compares with
    SameValueZero. *)
Definition enumValue (value : jsval) (allowedValues : list string)
    (fieldName : string) : result jsval :=
  if existsb (λ a, IncentiveFetcher.same_value_zero (VStr a) value) allowedValues
  then Ok value
  else Throw (AppError (fieldName ++ " must be one of: "
                          ++ join_strings ", " allowedValues)
                       (Some ErrorTypes.VALIDATION) None None).

(** [InputSchemas], by name. *)
Definition InputSchemas (schemaName : string) : option Schema :=
  if String.eqb schemaName "inventoryIngestor" then
    Some [ ("file_path",
            {| required := true; type := None;
               validator := Some filePath; default_value := None |});
           ("calculate_metrics",
            {| required := false; type := Some "boolean";
               validator := None; default_value := Some (VBool true) |}) ]
  else if String.eqb schemaName "incentiveFetcher" then
    Some [ ("file_path",
            {| required := true; type := None;
               validator := Some filePath; default_value := None |});
           ("filter_active",
            {| required := false; type := Some "boolean";
               validator := None; default_value := Some (VBool true) |});
           ("min_value",
            {| required := false; type := None;
               validator := Some (λ v, positiveNumber v "min_value");
               default_value := Some (VNum num_zero) |}) ]
  else if String.eqb schemaName "reportGenerator" then
    Some [ ("inventory_data",
            {| required := true; type := Some "object";
               validator := None; default_value := None |});
           ("incentive_data",
            {| required := true; type := Some "object";
               validator := None; default_value := None |});
           ("output_format",
            {| required := false; type := None;
               validator := Some (λ v, enumValue v ["json"; "html"; "pdf"]
                                                 "output_format");
               default_value := Some (VStr "json") |});
           ("output_path",
            {| required := false; type := None;
               validator := Some filePath;
               default_value := Some (VStr "./output") |}) ]
  else None.

(** The body of the loop of [validateInput] over the entries of the
    schema, on the state [(validated, errors)]; each [continue] leaves the
    state as the branch made it. *)
Definition validateInput_field (input : list (string * jsval))
    (st : gmap string jsval * list string) (entry : string * Rules)
    : gmap string jsval * list string :=
  let '(validated, errors) := st in
  let '(field, rules) := entry in
  if required rules && negb (has_property field input)
  then (validated, (errors ++ [("Missing required field: " ++ field)%string])%list)
  else
    let value := assoc field input in
    let value := if negb (has_property field input)
                 then default value (default_value rules) else value in
    if negb (has_property field input) && negb (required rules)
    then (validated, errors)
    else
      let type_error :=
        match type rules with
        | Some ty =>
            if negb (String.eqb (typeof value) ty)
            then Some ("Field " ++ field ++ " must be of type " ++ ty)
            else None
        | None => None
        end in
      match type_error with
      | Some msg => (validated, (errors ++ [msg])%list)
      | None =>
          match validator rules with
          | Some check =>
              match check value with
              | Ok value' => (<[field := value']> validated, errors)
              | Throw error =>
                  (validated,
                   (errors ++ [("Field " ++ field ++ ": " ++ message error)%string])%list)
              end
          | None => (<[field := value]> validated, errors)
          end
      end.

(** [validateInput(schemaName, input)] for an [input] object given by
    its own properties. *)
Definition validateInput (schemaName : string) (input : list (string * jsval))
    : result (gmap string jsval) :=
  match InputSchemas schemaName with
  | None =>
      Throw (AppError ("Unknown input schema: " ++ schemaName)
                      (Some ErrorTypes.VALIDATION) None None)
  | Some schema =>
      let '(validated, errors) :=
        foldl (validateInput_field input) (∅, []) schema in
      if (0 <? length errors)%nat
      then Throw (AppError "Input validation failed"
                           (Some ErrorTypes.VALIDATION)
                           (Some ErrorSeverity.MEDIUM)
                           (Some (VObj [("errors", VArr (VStr <$> errors));
                                        ("input", VObj input)])))
      else Ok validated
  end.
(** [OutputSchemas], by name. *)
Definition OutputSchemas (schemaName : string) : option Schema :=
  let field (required : bool) (type : string) : Rules :=
    {| required := required; type := Some type;
       validator := None; default_value := None |} in
  if String.eqb schemaName "inventoryIngestor" then
    Some [ ("success", field true "boolean");
           ("data", field false "array");
           ("summary", field false "object");
           ("total_vehicles", field false "number");
           ("ingestion_date", field false "string");
           ("error", field false "string") ]
  else if String.eqb schemaName "incentiveFetcher" then
    Some [ ("success", field true "boolean");
           ("incentives", field false "array");
           ("summary", field false "object");
           ("error", field false "string") ]
  else if String.eqb schemaName "reportGenerator" then
    Some [ ("success", field true "boolean");
           ("recommendations", field false "array");
           ("report_path", field false "string");
           ("timestamp", field false "string");
           ("error", field false "string") ]
  else None.

(** The body of the loop of [validateOutput], on the list of errors. *)
Definition validateOutput_field (output : list (string * jsval))
    (errors : list string) (entry : string * Rules) : list string :=
  let '(field, rules) := entry in
  if required rules && negb (has_property field output)
  then (errors ++ [("Missing required field: " ++ field)%string])%list
  else if negb (has_property field output) && negb (required rules)
  then errors
  else
    match type rules with
    | Some ty =>
        if has_property field output then
          let actualType := if Array_isArray (assoc field output) then "array"
                            else typeof (assoc field output) in
          if negb (String.eqb actualType ty)
          then (errors ++ [("Field " ++ field ++ " must be of type " ++ ty
                              ++ ", got " ++ actualType)%string])%list
          else errors
        else errors
    | None => errors
    end.

(** [validateOutput(schemaName, output)] for an [output] object given
    by its own properties. *)
Definition validateOutput (schemaName : string) (output : list (string * jsval))
    : result (list (string * jsval)) :=
  match OutputSchemas schemaName with
  | None =>
      Throw (AppError ("Unknown output schema: " ++ schemaName)
                      (Some ErrorTypes.VALIDATION) None None)
  | Some schema =>
      let errors := foldl (validateOutput_field output) [] schema in
      if (0 <? length errors)%nat
      then Throw (AppError "Output validation failed"
                           (Some ErrorTypes.VALIDATION)
                           (Some ErrorSeverity.HIGH)
                           (Some (VObj [("errors", VArr (VStr <$> errors));
                                        ("output", VObj output)])))
      else Ok output
  end.
End Validators.

End SchemaValidator.

(** A response whose payload values are JavaScript values, as the
    object that it is: its own properties, in some order. *)
Definition rfield_value (f : rfield jsval) : jsval :=
  match f with
  | RBool b => VBool b
  | RStr s => VStr s
  | RDetails d => d
  | RData v => v
  end.

Definition response_object (r : gmap string (rfield jsval))
    : list (string * jsval) :=
  map_to_list (rfield_value <$> r).

(** A payload with the four fields that the output schema of the
    inventory ingestor names: an array, an object, a number and a
    string. *)
Definition inventory_payload (inventory : list jsval)
    (summary : list (string * jsval)) (total_vehicles : num)
    (ingestion_date : string) : gmap string (rfield jsval) :=
  <["ingestion_date" := RData (VStr ingestion_date)]>
   (<["total_vehicles" := RData (VNum total_vehicles)]>
    (<["summary" := RData (VObj summary)]>
     (<["data" := RData (VArr inventory)]> ∅))).

(** A field of a schema that an output object satisfies: present with
    the declared type (an array has the type ["array"]), or absent and not
    required. *)
Definition conforms (output : list (string * jsval))
    (entry : string * SchemaValidator.Rules) : bool :=
  if SchemaValidator.has_property entry.1 output then
    match SchemaValidator.type entry.2 with
    | Some ty =>
        String.eqb (if Array_isArray (assoc entry.1 output) then "array"
                    else SchemaValidator.typeof (assoc entry.1 output)) ty
    | None => true
    end
  else negb (SchemaValidator.required entry.2).

(* ===================================================================== *)
(** ** Further vocabulary of the properties *)
(* ===================================================================== *)

(** *** Vocabulary for the incentive fetch *)

(** The payload of a response of [fetch_incentive_data]: its [data],
    [summary] and [total_incentives]. *)
Definition fetched_data (r : gmap string (rfield IncentiveFetcher.Payload))
    : option (list IncentiveFetcher.Incentive) :=
  match r !! "data" with
  | Some (RData (IncentiveFetcher.PIncentives l)) => Some l
  | _ => None
  end.

Definition fetched_summary (r : gmap string (rfield IncentiveFetcher.Payload))
    : option IncentiveFetcher.IncentiveSummary :=
  match r !! "summary" with
  | Some (RData (IncentiveFetcher.PSummary s)) => Some s
  | _ => None
  end.

Definition fetched_total (r : gmap string (rfield IncentiveFetcher.Payload))
    : option num :=
  match r !! "total_incentives" with
  | Some (RData (IncentiveFetcher.PNumber n)) => Some n
  | _ => None
  end.

(** The incentives that the two status filters let through. *)
Definition passes_filters (filter_active_only include_expired : bool)
    (inc : IncentiveFetcher.Incentive) : bool :=
  (negb filter_active_only || String.eqb (IncentiveFetcher.status inc) "Active")
  && (include_expired || negb (String.eqb (IncentiveFetcher.status inc) "Expired")).

(** The elements of an accepted container. *)
Definition container_elements (rawData : jsval) : list jsval :=
  match rawData with
  | VArr elems => elems
  | VObj props => match assoc "incentives" props with
                  | VArr elems => elems
                  | _ => []
                  end
  | _ => []
  end.

(** The entries that [calculateIncentiveSummary] pushes for an incentive. *)
Definition high_value_entry (inc : IncentiveFetcher.Incentive)
    : IncentiveFetcher.HighValue :=
  {| IncentiveFetcher.hv_vehicle_line := IncentiveFetcher.vehicle_line inc;
     IncentiveFetcher.hv_value := IncentiveFetcher.value inc;
     IncentiveFetcher.hv_type := IncentiveFetcher.incentive_type inc |}.

Definition expiring_entry (inc : IncentiveFetcher.Incentive)
    : IncentiveFetcher.ExpiringSoon :=
  {| IncentiveFetcher.es_vehicle_line := IncentiveFetcher.vehicle_line inc;
     IncentiveFetcher.es_days_remaining := IncentiveFetcher.days_remaining inc;
     IncentiveFetcher.es_value := IncentiveFetcher.value inc |}.

Definition is_high_value (inc : IncentiveFetcher.Incentive) : bool :=
  num_gt (IncentiveFetcher.value inc) (num_of_Z 2000).

Definition is_expiring_soon (inc : IncentiveFetcher.Incentive) : bool :=
  String.eqb (IncentiveFetcher.status inc) "Active"
  && num_le (IncentiveFetcher.days_remaining inc) (num_of_Z 30).

(** The three statuses that [getIncentiveStatus] gives. *)
Definition known_status (st : string) : Prop :=
  st = "Active" ∨ st = "Upcoming" ∨ st = "Expired".

(** The number of elements of a list that satisfy a test. *)
Definition count_of {A : Type} (p : A → bool) (l : list A) : nat :=
  length (List.filter p l).

Definition has_status (st : string) (inc : IncentiveFetcher.Incentive) : bool :=
  String.eqb (IncentiveFetcher.status inc) st.

Definition on_line (line : string) (inc : IncentiveFetcher.Incentive) : bool :=
  String.eqb (IncentiveFetcher.vehicle_line inc) line.

(** *** Vocabulary for the inventory summary *)

(** The four categories that [getAgingCategory] gives. *)
Definition known_category (c : option string) : Prop :=
  c = Some "Fresh" ∨ c = Some "Aging" ∨ c = Some "Stale" ∨ c = Some "Critical".

Definition in_category (c : string) (v : InventoryIngestor.Vehicle) : bool :=
  String.eqb (InventoryIngestor.prop_key (InventoryIngestor.aging_category v)) c.

Definition in_line (line : string) (v : InventoryIngestor.Vehicle) : bool :=
  String.eqb (InventoryIngestor.prop_key (InventoryIngestor.vehicle_line v)) line.

(** The order in which a vehicle goes through the aging categories. *)
Definition aging_rank (c : string) : nat :=
  if String.eqb c "Fresh" then 0
  else if String.eqb c "Aging" then 1
  else if String.eqb c "Stale" then 2
  else 3.

(** A count that is either absent (nothing counted yet) or the positive
    integer [c]. *)
Definition counted (m : gmap string num) (k : string) (c : nat) : Prop :=
  m !! k = if (c =? 0)%nat then None else Some (num_of_nat c).

(** A list without two elements that are the same value for a [Set]. *)
Fixpoint no_repeats (l : list jsval) : bool :=
  match l with
  | [] => true
  | x :: rest =>
      negb (existsb (IncentiveFetcher.same_value_zero x) rest) && no_repeats rest
  end.

(** The property keys under which an incentive is counted. *)
Definition make_key `{Builtins} (inc : IncentiveFetcher.Incentive) : string :=
  ToString (IncentiveFetcher.make inc).

Definition type_key `{Builtins} (inc : IncentiveFetcher.Incentive) : string :=
  ToString (IncentiveFetcher.incentive_type inc).

(** A value is in a set when it was added itself or when the set held
    the same value already. *)
Definition Set_has (v : jsval) (set : list jsval) : Prop :=
  v ∈ set ∨ existsb (IncentiveFetcher.same_value_zero v) set = true.

(** What is known of the entry of a line after [c] incentives of that
    line, with types [seen]. *)
Definition incentive_line_state (entry : option IncentiveFetcher.LineStats)
    (c : nat) (seen : list jsval) : Prop :=
  match entry with
  | None => c = 0%nat ∧ seen = []
  | Some ls =>
      (0 < c)%nat ∧ IncentiveFetcher.count ls = num_of_nat c ∧
      no_repeats (IncentiveFetcher.types ls) = true ∧
      ∀ v, v ∈ seen → Set_has v (IncentiveFetcher.types ls)
  end.


(** The property key under which a vehicle is counted by make. *)
Definition vehicle_make_key (v : InventoryIngestor.Vehicle) : string :=
  InventoryIngestor.prop_key (InventoryIngestor.make v).

Definition vehicle_aging_key (v : InventoryIngestor.Vehicle) : string :=
  InventoryIngestor.prop_key (InventoryIngestor.aging_category v).

Definition vehicle_line_key (v : InventoryIngestor.Vehicle) : string :=
  InventoryIngestor.prop_key (InventoryIngestor.vehicle_line v).

(** The four keys with which [by_aging] starts. *)
Definition known_aging_key (c : string) : Prop :=
  c = "Fresh" ∨ c = "Aging" ∨ c = "Stale" ∨ c = "Critical".

(** The state from which [calculateInventorySummary] starts its loop. *)
Definition initial_inventory_summary (n : nat) : InventoryIngestor.InventorySummary :=
  {| InventoryIngestor.total_vehicles := num_of_nat n;
     InventoryIngestor.by_make := ∅;
     InventoryIngestor.by_aging := {[ "Fresh" := num_zero; "Aging" := num_zero;
                                      "Stale" := num_zero; "Critical" := num_zero ]};
     InventoryIngestor.average_days_on_lot := num_zero;
     InventoryIngestor.total_msrp_value := num_zero;
     InventoryIngestor.vehicle_lines := ∅ |}.

(** The days on the lot that the summary adds up for a vehicle. *)
Definition vehicle_days (v : InventoryIngestor.Vehicle) : num :=
  default NaN (InventoryIngestor.days_on_lot v).

(** What is known of the entry of a vehicle line in the loop of
    [calculateInventorySummary] after [c] vehicles of that line, with
    [days] days and [value] MSRP in total. *)
Definition inventory_line_state (entry : option InventoryIngestor.LineStats)
    (c : nat) (days value : num) : Prop :=
  match entry with
  | None => c = 0%nat
  | Some ls =>
      (0 < c)%nat ∧ InventoryIngestor.count ls = num_of_nat c ∧
      InventoryIngestor.total_days ls = days ∧
      InventoryIngestor.total_value ls = value ∧
      InventoryIngestor.avg_days ls = num_zero
  end.

(** *** More vocabulary for [calculateSummary] *)

(** The same configuration without its transform. *)
Definition without_transform (config : Config) : Config :=
  {| totalKey := totalKey config;
     groupByFields := groupByFields config;
     sumFields := sumFields config;
     itemTransform := λ item, item |}.

(** The keys of the returned object: the averaging pass runs only for a
    non-empty sequence. *)
Definition output_keys (n : nat) (config : Config) : list string :=
  totalKey config :: group_keys config ++ sum_keys config
    ++ (if (0 <? n)%nat then companion_keys config else []).


(* ===================================================================== *)
(** ** Numbers: comparison lemmas *)
(* ===================================================================== *)

Lemma num_le_of_Z (a b : Z) : num_le (num_of_Z a) (num_of_Z b) = true ↔ (a ≤ b)%Z.
Proof.
  unfold num_le, num_of_Z. by rewrite Qle_bool_iff, <- Zle_Qle.
Qed.

Lemma num_lt_of_Z (a b : Z) : num_lt (num_of_Z a) (num_of_Z b) = true ↔ (a < b)%Z.
Proof.
  unfold num_lt, num_of_Z. rewrite negb_true_iff, <- not_true_iff_false.
  rewrite Qle_bool_iff, <- Zle_Qle. lia.
Qed.

Lemma num_lt_Fin (x y : Q) : num_lt (Fin x) (Fin y) = true ↔ (x < y)%Q.
Proof.
  simpl. rewrite negb_true_iff, <- not_true_iff_false, Qle_bool_iff.
  split; [apply Qnot_le_lt | apply Qlt_not_le].
Qed.

Lemma num_le_Fin (x y : Q) : num_le (Fin x) (Fin y) = true ↔ (x <= y)%Q.
Proof. simpl. apply Qle_bool_iff. Qed.

(** [a <= b] and [b < c] give [a < c]. *)
Lemma num_le_lt_trans (a b c : num) :
  num_le a b = true → num_lt b c = true → num_lt a c = true.
Proof.
  destruct a as [| | |x], b as [| | |y], c as [| | |z]; try done.
  rewrite num_le_Fin, !num_lt_Fin. apply Qle_lt_trans.
Qed.

(** [a < b] and [b <= c] give [a < c]. *)
Lemma num_lt_le_trans (a b c : num) :
  num_lt a b = true → num_le b c = true → num_lt a c = true.
Proof.
  destruct a as [| | |x], b as [| | |y], c as [| | |z]; try done.
  rewrite num_le_Fin, !num_lt_Fin. apply Qlt_le_trans.
Qed.

Lemma num_lt_trans (a b c : num) :
  num_lt a b = true → num_lt b c = true → num_lt a c = true.
Proof.
  destruct a as [| | |x], b as [| | |y], c as [| | |z]; try done.
  rewrite !num_lt_Fin. apply Qlt_trans.
Qed.

Lemma num_lt_irrefl (a : num) : num_lt a a = false.
Proof.
  destruct a as [| | |x]; try done.
  apply not_true_iff_false. rewrite num_lt_Fin. apply Qlt_irrefl.
Qed.

(** [a <= b] excludes [b < a]. *)
Lemma num_le_not_gt (a b : num) : num_le a b = true → num_lt b a = false.
Proof.
  intros Hle. apply not_true_iff_false. intros Hlt.
  pose proof (num_le_lt_trans _ _ _ Hle Hlt) as Habs.
  by rewrite num_lt_irrefl in Habs.
Qed.

(* ===================================================================== *)
(** ** Aging category and incentive status *)
(* ===================================================================== *)

Import IncentiveFetcher InventoryIngestor.

(** C4. For every integer number of days on lot [d], the aging category
    is "Fresh" iff [d <= 30], "Aging" iff [31 <= d <= 60], "Stale" iff
    [61 <= d <= 90] and "Critical" iff [d > 90]. *)
Theorem aging_category_buckets (d : Z) :
  (getAgingCategory (num_of_Z d) = "Fresh" ↔ (d ≤ 30)%Z) ∧
  (getAgingCategory (num_of_Z d) = "Aging" ↔ (31 ≤ d ≤ 60)%Z) ∧
  (getAgingCategory (num_of_Z d) = "Stale" ↔ (61 ≤ d ≤ 90)%Z) ∧
  (getAgingCategory (num_of_Z d) = "Critical" ↔ (d > 90)%Z).
Proof.
  unfold getAgingCategory.
  destruct (num_le (num_of_Z d) (num_of_Z 30)) eqn:H30;
    destruct (num_le (num_of_Z d) (num_of_Z 60)) eqn:H60;
    destruct (num_le (num_of_Z d) (num_of_Z 90)) eqn:H90;
    repeat match goal with
           | Hb : num_le _ _ = true |- _ => apply num_le_of_Z in Hb
           | Hb : num_le _ _ = false |- _ =>
               apply not_true_iff_false in Hb; rewrite num_le_of_Z in Hb
           end;
    repeat split; intros; try discriminate; try lia.
Qed.

(** The boundary values named by the specification. *)
Example aging_category_boundaries :
  map (λ d, getAgingCategory (num_of_Z d)) [30; 31; 60; 61; 90; 91]%Z
  = ["Fresh"; "Aging"; "Aging"; "Stale"; "Stale"; "Critical"].
Proof. reflexivity. Qed.

(** A date received in the future gives a negative number of days, which
    is "Fresh"; an invalid date gives [NaN], which is "Critical". *)
Example aging_category_negative_and_NaN :
  getAgingCategory (daysOnLot (num_of_Z 0) (num_of_Z 86400000)) = "Fresh" ∧
  getAgingCategory (daysOnLot (num_of_Z 0) NaN) = "Critical".
Proof. split; reflexivity. Qed.

(** The status is decided by the two tests in sequence, for every triple
    of time values. *)
Lemma incentive_status_sequential (startDate endDate currentDate : num) :
  let st := getIncentiveStatus startDate endDate currentDate in
  (st = "Upcoming" ↔ num_lt currentDate startDate = true) ∧
  (st = "Expired" ↔ num_lt currentDate startDate = false ∧
                    num_gt currentDate endDate = true) ∧
  (st = "Active" ↔ num_lt currentDate startDate = false ∧
                   num_gt currentDate endDate = false).
Proof.
  intros st. subst st. unfold getIncentiveStatus.
  destruct (num_lt currentDate startDate), (num_gt currentDate endDate);
    repeat split; try discriminate; try tauto; intros [? ?]; discriminate.
Qed.

(** C5, as the code has it. For every (start, end, now) whose end does not
    precede its start, the status is "Upcoming" iff [now < start],
    "Expired" iff [now > end], "Active" otherwise, and it is "Active" when
    now is the start or the end instant. *)
Theorem incentive_status_policy (startDate endDate currentDate : num) :
  num_lt endDate startDate = false →
  let st := getIncentiveStatus startDate endDate currentDate in
  (st = "Upcoming" ↔ num_lt currentDate startDate = true) ∧
  (st = "Expired" ↔ num_gt currentDate endDate = true) ∧
  (st = "Active" ↔ num_lt currentDate startDate = false ∧
                   num_gt currentDate endDate = false) ∧
  (num_eq currentDate startDate = true → st = "Active") ∧
  (num_eq currentDate endDate = true → st = "Active").
Proof.
  intros Hrange st.
  assert (Hexcl : num_lt currentDate startDate = true →
                  num_gt currentDate endDate = true → False).
  { unfold num_gt. intros H1 H2.
    pose proof (num_lt_trans _ _ _ H2 H1) as H3. congruence. }
  destruct (incentive_status_sequential startDate endDate currentDate)
    as (Hup & Hexp & Hact). fold st in Hup, Hexp, Hact.
  split; [exact Hup|]. split; [|split; [exact Hact|]].
  - rewrite Hexp. split; [tauto|]. intros Hgt. split; [|done].
    destruct (num_lt currentDate startDate) eqn:Hlt; [|done].
    exfalso. by apply Hexcl.
  - split; intros Heq; apply andb_prop in Heq as [Hle Hge]; apply Hact.
    + split; [by apply num_le_not_gt|].
      apply not_true_iff_false. unfold num_gt. intros Hgt.
      pose proof (num_lt_le_trans _ _ _ Hgt Hle). congruence.
    + split; [|by apply num_le_not_gt].
      apply not_true_iff_false. intros Hlt.
      pose proof (num_le_lt_trans _ _ _ Hge Hlt). congruence.
Qed.

Lemma incentive_status_policy_witness :
  getIncentiveStatus (num_of_Z 10) (num_of_Z 20) (num_of_Z 20) = "Active".
Proof.
  apply (incentive_status_policy (num_of_Z 10) (num_of_Z 20) (num_of_Z 20));
    reflexivity.
Defined.

(** C5, as stated, fails when the end precedes the start: at
    start = 10, end = 5, now = 7 the status is "Upcoming" although
    [now > end]. *)
Lemma incentive_status_inverted_range :
  getIncentiveStatus (num_of_Z 10) (num_of_Z 5) (num_of_Z 7) = "Upcoming" ∧
  num_gt (num_of_Z 7) (num_of_Z 5) = true ∧
  ¬ (getIncentiveStatus (num_of_Z 10) (num_of_Z 5) (num_of_Z 7) = "Expired"
     ↔ num_gt (num_of_Z 7) (num_of_Z 5) = true).
Proof.
  split; [reflexivity|]. split; [reflexivity|].
  intros [_ Hback]. specialize (Hback eq_refl). discriminate Hback.
Qed.

(** C8. For fixed start and end, the status never moves backward as now
    increases: Upcoming, then Active, then Expired. *)
Theorem incentive_status_monotonic (startDate endDate now1 now2 : num) :
  num_le now1 now2 = true →
  (status_rank (getIncentiveStatus startDate endDate now1)
   ≤ status_rank (getIncentiveStatus startDate endDate now2))%nat.
Proof.
  intros Hle. unfold getIncentiveStatus, num_gt.
  destruct (num_lt now1 startDate) eqn:H1.
  { change (status_rank "Upcoming") with 0%nat. lia. }
  destruct (num_lt now2 startDate) eqn:H2.
  { pose proof (num_le_lt_trans _ _ _ Hle H2). congruence. }
  destruct (num_lt endDate now1) eqn:H3.
  - by rewrite (num_lt_le_trans _ _ _ H3 Hle).
  - change (status_rank "Active") with 1%nat.
    destruct (num_lt endDate now2).
    + change (status_rank "Expired") with 2%nat. lia.
    + change (status_rank "Active") with 1%nat. lia.
Qed.

Lemma incentive_status_monotonic_witness :
  (status_rank (getIncentiveStatus (num_of_Z 10) (num_of_Z 20) (num_of_Z 5))
   ≤ status_rank (getIncentiveStatus (num_of_Z 10) (num_of_Z 20) (num_of_Z 15)))%nat.
Proof.
  apply (incentive_status_monotonic (num_of_Z 10) (num_of_Z 20)
           (num_of_Z 5) (num_of_Z 15)).
  reflexivity.
Defined.

(** With a start that does not follow the end, every status is reached:
    before the start, from the start to the end, after the end. *)
Lemma incentive_status_phases (s e t : Z) :
  (s ≤ e)%Z →
  getIncentiveStatus (num_of_Z s) (num_of_Z e) (num_of_Z t)
  = if (t <? s)%Z then "Upcoming" else if (e <? t)%Z then "Expired" else "Active".
Proof.
  intros Hse. unfold getIncentiveStatus, num_gt.
  destruct (Z.ltb_spec t s) as [Hts|Hts].
  - by rewrite (proj2 (num_lt_of_Z t s) Hts).
  - destruct (num_lt (num_of_Z t) (num_of_Z s)) eqn:H1.
    { apply num_lt_of_Z in H1. lia. }
    destruct (Z.ltb_spec e t) as [Het|Het].
    + by rewrite (proj2 (num_lt_of_Z e t) Het).
    + destruct (num_lt (num_of_Z e) (num_of_Z t)) eqn:H2; [|done].
      apply num_lt_of_Z in H2. lia.
Qed.

(* ===================================================================== *)
(** ** Response envelopes *)
(* ===================================================================== *)

Lemma message_or_nonempty (e : JsError) (fallback : string) :
  fallback ≠ "" → message_or e fallback ≠ "".
Proof.
  intros Hfb. unfold message_or.
  by destruct (String.eqb_spec (message e) "").
Qed.

Lemma success_failure_exclusive {P : Type} (r : gmap string (rfield P)) :
  ¬ (success_branch r ∧ failure_branch r).
Proof. intros [(Hs & _) (Hf & _)]. congruence. Qed.

(** Closes [k ∈ envelope_keys] once [k] is known. *)
Ltac envelope_key :=
  unfold envelope_keys; subst; set_solver.

(** [createResponse(false, {}, error)]: the failure branch, tagged exactly
    when [error] is an [AppError]. *)
Lemma createResponse_failure {P : Type} (ts : string) (e : JsError) :
  let r := createResponse (P:=P) ts false ∅ (Some e) in
  envelope_invariant r ∧ failure_branch r ∧ r !! "errorType" = error_tag e.
Proof.
  intros r.
  assert (Hf : failure_branch r ∧ r !! "timestamp" = Some (RStr ts)
               ∧ r !! "errorType" = error_tag e).
  { subst r. unfold createResponse, error_tag, failure_branch.
    rewrite (left_id_L ∅ (∪)).
    destruct (app e) as [a|]; simpl.
    - repeat split; try done.
      + eexists. split; [reflexivity|]. by apply message_or_nonempty.
      + intros k. rewrite !lookup_insert_is_Some', lookup_empty.
        intros [?|[?|[?|[?|[?|[? ?]]]]]]; try done; envelope_key.
    - repeat split; try done.
      + eexists. split; [reflexivity|]. by apply message_or_nonempty.
      + intros k. rewrite !lookup_insert_is_Some', lookup_empty.
        intros [?|[?|[?|[? ?]]]]; try done; envelope_key. }
  destruct Hf as (Hf & Hts & Htag).
  split; [|done]. split; [eauto|]. split; [by right|].
  apply success_failure_exclusive.
Qed.

(** [createResponse(true, data)] for a payload that keeps clear of the
    envelope keys: the success branch, with the payload in place. *)
Lemma createResponse_success {P : Type} (ts : string) (data : gmap string (rfield P)) :
  payload_only data →
  let r := createResponse ts true data None in
  envelope_invariant r ∧ success_branch r ∧
  ∀ k v, data !! k = Some v → r !! k = Some v.
Proof.
  intros Hdata r. subst r. unfold createResponse.
  assert (Hk : ∀ k, k ∈ envelope_keys →
               (data ∪ <["timestamp":=RStr ts]> (<["success":=RBool true]> ∅)) !! k
               = (<["timestamp":=RStr ts]> (<["success":=RBool true]> ∅ :
                    gmap string (rfield P))) !! k).
  { intros k Hin. by rewrite lookup_union_r by by apply Hdata. }
  assert (Hs : success_branch
                 (data ∪ <["timestamp":=RStr ts]> (<["success":=RBool true]> ∅))).
  { unfold success_branch. rewrite !Hk by envelope_key. done. }
  split; [|split; [done|]].
  - split; [|split; [by left|apply success_failure_exclusive]].
    exists ts. by rewrite Hk by envelope_key.
  - intros k v Hkv. by apply lookup_union_Some_l.
Qed.

Lemma createStandardResponse_failure {P : Type} (ts : string)
    (data : gmap string (rfield P)) (e : JsError) :
  let r := createStandardResponse ts false data (Some e) in
  envelope_invariant r ∧ failure_branch r ∧ r !! "errorType" = error_tag e.
Proof.
  intros r.
  assert (Hf : failure_branch r ∧ r !! "timestamp" = Some (RStr ts)
               ∧ r !! "errorType" = error_tag e).
  { subst r. unfold createStandardResponse, error_tag, failure_branch.
    destruct e as [msg [a|]]; simpl.
    - repeat split; try done.
      + eexists. split; [reflexivity|]. by apply message_or_nonempty.
      + intros k. rewrite !lookup_insert_is_Some', lookup_empty.
        intros [?|[?|[?|[?|[?|[? ?]]]]]]; try done; envelope_key.
    - repeat split; try done.
      + eexists. split; [reflexivity|]. by apply message_or_nonempty.
      + intros k. rewrite !lookup_insert_is_Some', lookup_empty.
        intros [?|[?|[?|[? ?]]]]; try done; envelope_key. }
  destruct Hf as (Hf & Hts & Htag).
  split; [|done]. split; [eauto|]. split; [by right|].
  apply success_failure_exclusive.
Qed.

Lemma createStandardResponse_success {P : Type} (ts : string)
    (data : gmap string (rfield P)) :
  payload_only data →
  let r := createStandardResponse ts true data None in
  envelope_invariant r ∧ success_branch r ∧
  ∀ k v, data !! k = Some v → r !! k = Some v.
Proof.
  intros Hdata r. subst r. unfold createStandardResponse.
  assert (Hk : ∀ k, k ∈ envelope_keys →
               (data ∪ <["timestamp":=RStr ts]> (<["success":=RBool true]> ∅)) !! k
               = (<["timestamp":=RStr ts]> (<["success":=RBool true]> ∅ :
                    gmap string (rfield P))) !! k).
  { intros k Hin. by rewrite lookup_union_r by by apply Hdata. }
  assert (Hs : success_branch
                 (data ∪ <["timestamp":=RStr ts]> (<["success":=RBool true]> ∅))).
  { unfold success_branch. rewrite !Hk by envelope_key. done. }
  split; [|split; [done|]].
  - split; [|split; [by left|apply success_failure_exclusive]].
    exists ts. by rewrite Hk by envelope_key.
  - intros k v Hkv. by apply lookup_union_Some_l.
Qed.

(** Proves [payload_only] for a literal payload. *)
Ltac literal_payload :=
  intros k Hk; unfold envelope_keys in Hk;
  repeat (apply elem_of_cons in Hk as [->|Hk]; [reflexivity|]);
  by apply elem_of_nil in Hk.

Section FetchEnvelope.
Context `{Builtins}.

(** The [try] block of [fetch_incentive_data] returns only through its
    final [createResponse(true, {...})]. *)
Lemma fetch_body_returns env path fa ie r :
  fetch_body env path fa ie = Ok r →
  ∃ l, r = createResponse (IncentiveFetcher.timestamp env) true
             (<["fetch_date" := RData (PString (fetch_date env))]>
              (<["total_incentives" := RData (PNumber (num_of_nat (length l)))]>
               (<["summary" := RData (PSummary (calculateIncentiveSummary l))]>
                (<["data" := RData (PIncentives l)]> ∅))))
             None.
Proof.
  unfold fetch_body.
  destruct (checkFileExists _ _ _) as [[]|?]; [|discriminate]. cbn.
  destruct (readJson env path) as [raw|?]; [|discriminate]. cbn.
  destruct (select_incentives raw) as [incs|?]; [|discriminate]. cbn.
  destruct (map_result _ incs) as [processed|?]; [|discriminate]. cbn.
  intros [= <-]. eauto.
Qed.

Lemma fetch_incentive_data_envelope env path fa ie :
  let r := fetch_incentive_data env path fa ie in
  envelope_invariant r ∧
  (success_branch r → is_Some (r !! "data") ∧ is_Some (r !! "summary")) ∧
  (∀ e, fetch_body env path fa ie = Throw e →
        failure_branch r ∧ r !! "errorType" = error_tag e).
Proof.
  intros r. subst r. unfold fetch_incentive_data.
  destruct (fetch_body env path fa ie) as [r|e] eqn:Hbody.
  - apply fetch_body_returns in Hbody as [l ->].
    match goal with
    | |- context [createResponse ?ts true ?d None] =>
        destruct (createResponse_success ts d) as (Hinv & Hs & Hpay);
          [literal_payload|]
    end.
    split; [done|]. split; [|discriminate].
    intros _. split; eexists; apply Hpay; reflexivity.
  - destruct (createResponse_failure (P:=Payload)
                (IncentiveFetcher.timestamp env) e) as (Hinv & Hf & Htag).
    split; [done|]. split.
    + intros Hs. destruct (success_failure_exclusive _ (conj Hs Hf)).
    + intros e' [= <-]. done.
Qed.
End FetchEnvelope.

Section ReportEnvelope.
Context `{Builtins}.

End ReportEnvelope.


(** A missing file is reported with the tag of its [AppError]. *)
Example missing_file_is_tagged (host : Builtins) now iso path fa ie :
  let env := {| pathExists := λ _, false; readJson := λ _, Ok VNull;
                currentDate := now; fetch_date := iso;
                IncentiveFetcher.timestamp := iso |} in
  fetch_incentive_data env path fa ie !! "errorType"
  = Some (RStr ErrorTypes.FILE_SYSTEM).
Proof. reflexivity. Qed.

(** C2 on the code: the payload [{"foo": []}] makes the whole fetch fail,
    but the failure response carries the message of a plain [Error] and no
    [errorType]. *)
Theorem malformed_payload_has_no_errorType (host : Builtins) now iso path fa ie :
  let r := fetch_incentive_data
             (file_env (VObj [("foo", VArr [])]) now iso) path fa ie in
  r !! "success" = Some (RBool false) ∧
  r !! "error" = Some (RStr "Invalid incentive data format. Expected array or object with incentives property.") ∧
  r !! "errorType" = None ∧
  r !! "data" = None ∧ r !! "summary" = None.
Proof. repeat split; reflexivity. Qed.

(** The same holds for every payload that is not an accepted container:
    the fetch fails as a whole and the response has no [errorType]. *)
Lemma malformed_container_fails (host : Builtins) env path fa ie rawData :
  pathExists env path = true →
  readJson env path = Ok rawData →
  accepted_container rawData = false →
  let r := fetch_incentive_data env path fa ie in
  failure_branch r ∧ r !! "errorType" = None.
Proof.
  intros Hex Hread Hbad r.
  assert (Hbody : ∃ msg, fetch_body env path fa ie = Throw (Error msg)).
  { unfold fetch_body. rewrite Hex, Hread. cbn.
    destruct rawData as [| | | | |elems|props]; try discriminate; cbn; eauto.
    simpl in Hbad. destruct (assoc "incentives" props); try discriminate; eauto. }
  destruct Hbody as [msg Hbody].
  destruct (fetch_incentive_data_envelope env path fa ie) as (_ & _ & Hfail).
  destruct (Hfail _ Hbody) as [Hf Htag]. done.
Qed.

(* ===================================================================== *)
(** ** The domain summaries on an empty record set *)
(* ===================================================================== *)

(** C1 on the code: on an empty record set both summary builders return
    without throwing, with empty group maps and zero totals, but each
    average is [Math.round(0 / 0)], which is [NaN] and not 0. *)
Theorem empty_summaries_average_is_NaN (host : Builtins) :
  let inv := calculateInventorySummary [] in
  let inc := calculateIncentiveSummary [] in
  average_days_on_lot inv = NaN ∧
  average_value inc = NaN ∧
  total_vehicles inv = num_zero ∧ total_msrp_value inv = num_zero ∧
  InventoryIngestor.by_make inv = ∅ ∧ InventoryIngestor.vehicle_lines inv = ∅ ∧
  total_incentives inc = num_zero ∧ IncentiveFetcher.total_value inc = num_zero ∧
  IncentiveFetcher.by_make inc = ∅ ∧ by_type inc = ∅ ∧
  IncentiveFetcher.vehicle_lines inc = ∅ ∧
  high_value_incentives inc = [] ∧ expiring_soon inc = [].
Proof. repeat split; reflexivity. Qed.

(** On a non-empty inventory the averages are defined: two Civics, 10
    and 95 days on the lot. *)
Example inventory_summary_scenario :
  let summary := calculateInventorySummary [civic 25000 10; civic 27000 95] in
  InventoryIngestor.by_make summary = {[ "Honda" := num_of_Z 2 ]} ∧
  by_aging summary !! "Fresh" = Some (num_of_Z 1) ∧
  by_aging summary !! "Aging" = Some (num_of_Z 0) ∧
  by_aging summary !! "Stale" = Some (num_of_Z 0) ∧
  by_aging summary !! "Critical" = Some (num_of_Z 1) ∧
  total_msrp_value summary = num_of_Z 52000 ∧
  average_days_on_lot summary = num_of_Z 53.
Proof. repeat split; vm_compute; reflexivity. Qed.

(** The thresholds of the incentive summary: a value above 2000 is a
    high value, 2000 is not; 30 days remaining is expiring soon, 31 is
    not. *)
Example incentive_summary_thresholds :
  let summary := calculateIncentiveSummary (H:=example_host)
                   [rebate 2500 30; rebate 2000 31] in
  map hv_value (high_value_incentives summary) = [num_of_Z 2500] ∧
  map es_days_remaining (expiring_soon summary) = [num_of_Z 30] ∧
  IncentiveFetcher.total_value summary = num_of_Z 4500 ∧
  average_value summary = num_of_Z 2250 ∧
  IncentiveFetcher.by_status summary !! "Active" = Some (num_of_Z 2).
Proof. repeat split; vm_compute; reflexivity. Qed.

(* ===================================================================== *)
(** ** The generic aggregator *)
(* ===================================================================== *)

(** *** Folds that act entry by entry *)

Section Pointwise.
Context {A V : Type}.
Variable step : gmap string V → A → gmap string V.
Variable entry : string → option V → A → option V.
Hypothesis step_lookup : ∀ s x k, step s x !! k = entry k (s !! k) x.

Lemma foldl_pointwise (l : list A) (s : gmap string V) (k : string) :
  foldl step s l !! k = foldl (entry k) (s !! k) l.
Proof.
  revert s. induction l as [|x l IH]; intros s; simpl; [done|].
  by rewrite IH, step_lookup.
Qed.
End Pointwise.

Lemma foldl_id_on {A B : Type} (f : B → A → B) (l : list A) (b : B) :
  (∀ x, x ∈ l → f b x = b) → foldl f b l = b.
Proof.
  induction l as [|x l IH]; intros Hid; simpl; [done|].
  rewrite Hid by apply list_elem_of_here.
  apply IH. intros y Hy. apply Hid. by apply list_elem_of_further.
Qed.

(** *** The initial object *)

Lemma init_groups_lookup (fields : list string) (s : gmap string sval) (k : string) :
  init_groups fields s !! k
  = if decide (k ∈ map by_key fields) then Some (SMap ∅) else s !! k.
Proof.
  unfold init_groups. revert s.
  induction fields as [|f fs IH]; intros s; cbn [foldl map].
  - by rewrite decide_False by apply not_elem_of_nil.
  - rewrite IH. destruct (decide (k ∈ map by_key fs)) as [Hin|Hnin].
    + by rewrite decide_True by by apply list_elem_of_further.
    + destruct (decide (k = by_key f)) as [->|Hne].
      * rewrite decide_True by apply list_elem_of_here. by rewrite lookup_insert_eq.
      * rewrite decide_False by (by apply not_elem_of_cons).
        by rewrite lookup_insert_ne.
Qed.

Lemma init_sums_lookup (sums : list SumField) (s : gmap string sval) (k : string) :
  init_sums sums s !! k
  = if decide (k ∈ map key sums) then Some (SNum num_zero) else s !! k.
Proof.
  unfold init_sums. revert s.
  induction sums as [|sf sfs IH]; intros s; cbn [foldl map].
  - by rewrite decide_False by apply not_elem_of_nil.
  - rewrite IH. destruct (decide (k ∈ map key sfs)) as [Hin|Hnin].
    + by rewrite decide_True by by apply list_elem_of_further.
    + destruct (decide (k = key sf)) as [->|Hne].
      * rewrite decide_True by apply list_elem_of_here. by rewrite lookup_insert_eq.
      * rewrite decide_False by (by apply not_elem_of_cons).
        by rewrite lookup_insert_ne.
Qed.

Section Aggregator.
Context `{Builtins}.

Lemma initial_summary_lookup (n : nat) (config : Config) (k : string) :
  initial_summary n config !! k
  = if decide (k ∈ sum_keys config) then Some (SNum num_zero)
    else if decide (k ∈ group_keys config) then Some (SMap ∅)
    else if decide (k = totalKey config) then Some (SNum (num_of_nat n))
    else None.
Proof.
  unfold initial_summary, sum_keys, group_keys.
  rewrite init_sums_lookup, init_groups_lookup.
  repeat case_decide; try done.
  - subst. by rewrite lookup_singleton_eq.
  - by rewrite lookup_singleton_ne.
Qed.

Lemma initial_summary_loop_state (n : nat) (config : Config) :
  loop_state config (initial_summary n config).
Proof.
  split; intros k; rewrite initial_summary_lookup.
  - intros Hk. by rewrite decide_True.
  - intros Hg Hs. by rewrite decide_False, decide_True.
Qed.

(** *** One item *)

Lemma count_group_returns t s f :
  not_nullish (get t f) = false ∨ is_count_map (s !! by_key f) = true →
  count_group t s f = Ok (count_group_pure t s f).
Proof.
  unfold count_group, count_group_pure. intros [Hn|Hm].
  - by rewrite Hn.
  - destruct (not_nullish (get t f)); [|done].
    destruct (s !! by_key f) as [[| |m]|] eqn:Hs; try discriminate.
    by rewrite (alter_alt_Some _ _ _ _ Hs).
Qed.

Lemma count_group_throws t s f :
  not_nullish (get t f) = true → is_count_map (s !! by_key f) = false →
  ∃ e, count_group t s f = Throw e.
Proof.
  unfold count_group. intros -> Hm.
  destruct (s !! by_key f) as [[| |m]|]; try discriminate; eauto.
Qed.

Lemma count_group_pure_lookup t s f k :
  count_group_pure t s f !! k = group_entry t k (s !! k) f.
Proof.
  unfold count_group_pure, group_entry.
  destruct (not_nullish (get t f)).
  - rewrite lookup_alter. case_decide; [by subst|done].
  - by case_decide.
Qed.

Lemma add_sum_lookup t s sf k :
  add_sum t s sf !! k = sum_entry t k (s !! k) sf.
Proof.
  unfold add_sum, sum_entry. rewrite lookup_insert.
  case_decide; [by subst|done].
Qed.

Lemma processItem_pure_lookup config s item k :
  processItem_pure config s item !! k = item_entry config k (s !! k) item.
Proof.
  unfold processItem_pure, item_entry.
  rewrite (foldl_pointwise _ _ (add_sum_lookup _)).
  by rewrite (foldl_pointwise _ _ (count_group_pure_lookup _)).
Qed.

Lemma loop_lookup config s items k :
  foldl (processItem_pure config) s items !! k
  = foldl (item_entry config k) (s !! k) items.
Proof. apply (foldl_pointwise _ _ (processItem_pure_lookup config)). Qed.

(** The kind of an entry is not changed by counting. *)
Lemma group_entry_kind t k o f :
  is_count_map (group_entry t k o f) = is_count_map o ∧
  is_number (group_entry t k o f) = is_number o.
Proof.
  unfold group_entry. case_decide; [|done].
  destruct (not_nullish (get t f)); [|done].
  by destruct o as [[| |]|].
Qed.

Lemma foldl_group_entry_kind t k fs o :
  is_count_map (foldl (group_entry t k) o fs) = is_count_map o ∧
  is_number (foldl (group_entry t k) o fs) = is_number o.
Proof.
  revert o. induction fs as [|f fs IH]; intros o; simpl; [done|].
  destruct (IH (group_entry t k o f)) as [-> ->]. apply group_entry_kind.
Qed.

(** A number stays a number under [+=]. *)
Lemma foldl_sum_entry_number t k sfs o :
  is_number o = true → is_number (foldl (sum_entry t k) o sfs) = true.
Proof.
  revert o. induction sfs as [|sf sfs IH]; intros o Ho; simpl; [done|].
  apply IH. unfold sum_entry. case_decide; [|done].
  by destruct o as [[| |]|].
Qed.

(** A key that is not a sum key is not touched by [+=]. *)
Lemma foldl_sum_entry_other t k sfs o :
  k ∉ map key sfs → foldl (sum_entry t k) o sfs = o.
Proof.
  intros Hk. apply foldl_id_on. intros sf Hsf. unfold sum_entry.
  rewrite decide_False; [done|]. intros <-. apply Hk.
  by apply list_elem_of_fmap_2.
Qed.

Lemma item_entry_number config k o item :
  is_number o = true → is_number (item_entry config k o item) = true.
Proof.
  intros Ho. unfold item_entry. apply foldl_sum_entry_number.
  by rewrite (proj2 (foldl_group_entry_kind _ _ _ _)).
Qed.

Lemma bumps_app ks1 ks2 o : bumps (ks1 ++ ks2) o = bumps ks2 (bumps ks1 o).
Proof. unfold bumps. apply foldl_app. Qed.

Lemma foldl_group_entry_bumps t k fs o :
  foldl (group_entry t k) o fs
  = bumps (flat_map (λ f, if decide (by_key f = k)
                          then if not_nullish (get t f)
                               then [ToString (get t f)] else []
                          else []) fs) o.
Proof.
  revert o. induction fs as [|f fs IH]; intros o; simpl; [done|].
  rewrite bumps_app, IH. f_equal. unfold group_entry.
  case_decide; [|done]. by destruct (not_nullish (get t f)).
Qed.

(** Under a key that is not a sum key, an item only adds its counts. *)
Lemma item_entry_counts config k o item :
  k ∉ sum_keys config →
  item_entry config k o item = bumps (counted_keys config k item) o.
Proof.
  intros Hk. unfold item_entry, counted_keys.
  rewrite foldl_sum_entry_other by done. apply foldl_group_entry_bumps.
Qed.

Lemma bumps_kind ks o :
  is_count_map (bumps ks o) = is_count_map o.
Proof.
  revert o. induction ks as [|k ks IH]; intros o; simpl; [done|].
  unfold bumps in *. simpl. rewrite IH. by destruct o as [[| |]|].
Qed.

Lemma loop_entry_counts config k o items :
  k ∉ sum_keys config →
  foldl (item_entry config k) o items
  = bumps (flat_map (counted_keys config k) items) o.
Proof.
  intros Hk. revert o. induction items as [|item items IH]; intros o; simpl.
  - done.
  - by rewrite bumps_app, IH, item_entry_counts.
Qed.

Lemma loop_entry_number config k o items :
  is_number o = true → is_number (foldl (item_entry config k) o items) = true.
Proof.
  revert o. induction items as [|item items IH]; intros o Ho; simpl; [done|].
  apply IH. by apply item_entry_number.
Qed.

Lemma processItem_pure_loop_state config s item :
  loop_state config s → loop_state config (processItem_pure config s item).
Proof.
  intros [Hnum Hmap]. split; intros k; rewrite processItem_pure_lookup.
  - intros Hk. apply item_entry_number. by apply Hnum.
  - intros Hg Hs. rewrite item_entry_counts, bumps_kind by done. by apply Hmap.
Qed.

(** *** Returning and throwing *)

Lemma forEach_count_group_returns t fs s :
  (∀ f, f ∈ fs → not_nullish (get t f) = true →
        is_count_map (s !! by_key f) = true) →
  forEach (count_group t) fs s = Ok (foldl (count_group_pure t) s fs).
Proof.
  revert s. induction fs as [|f fs IH]; intros s Hok; simpl; [done|].
  rewrite count_group_returns.
  2:{ destruct (not_nullish (get t f)) eqn:Hn; [right|by left].
      apply Hok; [apply list_elem_of_here|done]. }
  cbn. apply IH. intros g Hg Hn.
  rewrite count_group_pure_lookup, (proj1 (group_entry_kind _ _ _ _)).
  apply Hok; [by apply list_elem_of_further|done].
Qed.

Lemma forEach_count_group_throws t fs s :
  (∃ f, f ∈ fs ∧ not_nullish (get t f) = true ∧
        is_count_map (s !! by_key f) = false) →
  ∃ e, forEach (count_group t) fs s = Throw e.
Proof.
  revert s. induction fs as [|f fs IH]; intros s (g & Hg & Hn & Hm).
  { by apply elem_of_nil in Hg. }
  simpl.
  destruct (decide (not_nullish (get t f) = true
                    ∧ is_count_map (s !! by_key f) = false)) as [[Hnf Hmf]|Hgood].
  - destruct (count_group_throws t s f Hnf Hmf) as [e ->]. cbn. eauto.
  - rewrite count_group_returns.
    2:{ destruct (not_nullish (get t f)); [|by left].
        destruct (is_count_map (s !! by_key f)); [by right|].
        by destruct Hgood. }
    cbn. apply IH. exists g.
    apply elem_of_cons in Hg as [->|Hg]; [by destruct Hgood|].
    split; [done|]. split; [done|].
    by rewrite count_group_pure_lookup, (proj1 (group_entry_kind _ _ _ _)).
Qed.

Lemma throwing_item_true config item :
  throwing_item config item = true ↔
  ∃ f, f ∈ groupByFields config ∧
       not_nullish (get (itemTransform config item) f) = true ∧
       by_key f ∈ sum_keys config.
Proof.
  unfold throwing_item. rewrite existsb_exists. split.
  - intros (f & Hin & Hb). apply andb_prop in Hb as [Hn Hk].
    apply bool_decide_eq_true in Hk. exists f. by rewrite list_elem_of_In.
  - intros (f & Hin & Hn & Hk). exists f. rewrite <- list_elem_of_In.
    split; [done|]. rewrite Hn. by apply bool_decide_eq_true.
Qed.

Lemma processItem_returns config s item :
  loop_state config s → throwing_item config item = false →
  processItem config s item = Ok (processItem_pure config s item).
Proof.
  intros [Hnum Hmap] Hnt. unfold processItem, processItem_pure.
  rewrite forEach_count_group_returns; [done|].
  intros f Hf Hn. apply Hmap; [by apply list_elem_of_fmap_2|].
  intros Hs. apply not_true_iff_false in Hnt. apply Hnt.
  apply throwing_item_true. eauto.
Qed.

Lemma processItem_throws config s item :
  loop_state config s → throwing_item config item = true →
  ∃ e, processItem config s item = Throw e.
Proof.
  intros [Hnum Hmap] (f & Hf & Hn & Hk)%throwing_item_true. unfold processItem.
  destruct (forEach_count_group_throws (itemTransform config item)
              (groupByFields config) s) as [e ->]; [|cbn; eauto].
  exists f. split; [done|]. split; [done|].
  specialize (Hnum _ Hk). by destruct (s !! by_key f) as [[| |]|].
Qed.

Lemma loop_returns config items s :
  loop_state config s → existsb (throwing_item config) items = false →
  forEach (processItem config) items s
  = Ok (foldl (processItem_pure config) s items).
Proof.
  revert s. induction items as [|item items IH]; intros s Hs Hnt; simpl in *.
  { done. }
  apply orb_false_elim in Hnt as [H1 H2].
  rewrite processItem_returns by done. cbn.
  apply IH; [by apply processItem_pure_loop_state|done].
Qed.

Lemma loop_throws config items s :
  loop_state config s → existsb (throwing_item config) items = true →
  ∃ e, forEach (processItem config) items s = Throw e.
Proof.
  revert s. induction items as [|item items IH]; intros s Hs Ht; simpl in *.
  { discriminate. }
  destruct (throwing_item config item) eqn:Hi.
  - destruct (processItem_throws config s item Hs Hi) as [e ->]. cbn. eauto.
  - rewrite processItem_returns by done. cbn.
    apply IH; [by apply processItem_pure_loop_state|done].
Qed.

(** [calculateSummary] returns exactly when no item has a value to count
    under a key that holds the number of a sum field. *)
Lemma calculateSummary_returns items config :
  existsb (throwing_item config) items = false →
  calculateSummary items config
  = Ok (averaged (length items) config (loop_result items config)).
Proof.
  intros Hnt. unfold calculateSummary.
  change (init_sums _ _) with (initial_summary (length items) config).
  rewrite loop_returns; [done|apply initial_summary_loop_state|done].
Qed.

Lemma calculateSummary_throws items config :
  existsb (throwing_item config) items = true →
  ∃ e, calculateSummary items config = Throw e.
Proof.
  intros Ht. unfold calculateSummary.
  change (init_sums _ _) with (initial_summary (length items) config).
  destruct (loop_throws config items (initial_summary (length items) config))
    as [e ->]; [apply initial_summary_loop_state|done|].
  cbn. eauto.
Qed.

Lemma calculateSummary_Ok items config s :
  calculateSummary items config = Ok s →
  existsb (throwing_item config) items = false ∧
  s = averaged (length items) config (loop_result items config).
Proof.
  intros Hs. destruct (existsb (throwing_item config) items) eqn:Ht.
  - destruct (calculateSummary_throws _ _ Ht) as [e He]. congruence.
  - rewrite calculateSummary_returns in Hs by done. split; congruence.
Qed.

(** *** The averaging pass *)

Lemma average_step_lookup n s sf k :
  average_step n s sf !! k
  = if writes_companion k sf
    then Some (SNum (Math_round (num_div (sval_to_number (s !! key sf))
                                         (num_of_nat n))))
    else s !! k.
Proof.
  unfold average_step, writes_companion, has_companion, companion.
  destruct (String.eqb _ (key sf)); simpl; [done|].
  rewrite lookup_insert. case_decide.
  - by rewrite bool_decide_eq_true_2.
  - by rewrite bool_decide_eq_false_2.
Qed.

Lemma averaging_other n sfs s k :
  (∀ sf, sf ∈ sfs → writes_companion k sf = false) →
  foldl (average_step n) s sfs !! k = s !! k.
Proof.
  revert s. induction sfs as [|sf sfs IH]; intros s Hno; simpl; [done|].
  rewrite IH by (intros; apply Hno; by apply list_elem_of_further).
  rewrite average_step_lookup, Hno; [done|apply list_elem_of_here].
Qed.

Lemma averaging_count_map n sfs s k m :
  foldl (average_step n) s sfs !! k = Some (SMap m) →
  s !! k = Some (SMap m) ∧ ∀ sf, sf ∈ sfs → writes_companion k sf = false.
Proof.
  revert s. induction sfs as [|sf sfs IH]; intros s Hm; simpl in *.
  { split; [done|]. intros sf Hsf. by apply elem_of_nil in Hsf. }
  apply IH in Hm as [Hstep Hrest]. rewrite average_step_lookup in Hstep.
  destruct (writes_companion k sf) eqn:Hw; [discriminate|].
  split; [done|]. intros sf' [->|Hin]%elem_of_cons; [done|by apply Hrest].
Qed.

Lemma averaged_count_map n config s k m :
  averaged n config s !! k = Some (SMap m) →
  s !! k = Some (SMap m) ∧
  ((0 <? n)%nat = true → ∀ sf, sf ∈ sumFields config → writes_companion k sf = false).
Proof.
  unfold averaged. destruct (0 <? n)%nat.
  - intros Hm. apply averaging_count_map in Hm as [? ?]. done.
  - done.
Qed.

(** *** Counting does not depend on the order *)

Lemma incrementCounter_comm (m : gmap string num) (k1 k2 : string) :
  (incrementCounter (incrementCounter m k1 num_one).1 k2 num_one).1
  = (incrementCounter (incrementCounter m k2 num_one).1 k1 num_one).1.
Proof.
  destruct (decide (k1 = k2)) as [->|Hne]; [done|].
  unfold incrementCounter; simpl.
  rewrite !lookup_insert_ne by done.
  by apply insert_insert_ne.
Qed.

Lemma bump_comm (k1 k2 : string) (o : option sval) :
  bump k2 <$> (bump k1 <$> o) = bump k1 <$> (bump k2 <$> o).
Proof.
  destruct o as [[x|str|m]|]; cbn -[incrementCounter]; try done.
  by rewrite incrementCounter_comm.
Qed.

Lemma bumps_Permutation (ks ks' : list string) (o : option sval) :
  ks ≡ₚ ks' → bumps ks o = bumps ks' o.
Proof.
  intros Hp. revert o. unfold bumps.
  induction Hp as [|k ks ks' _ IH|k1 k2 ks|ks1 ks2 ks3 _ IH1 _ IH2];
    intros o; simpl.
  - done.
  - apply IH.
  - by rewrite bump_comm.
  - by rewrite IH1.
Qed.


Lemma existsb_Permutation {A : Type} (p : A → bool) (l l' : list A) :
  l ≡ₚ l' → existsb p l = existsb p l'.
Proof.
  intros Hp. apply eq_true_iff_eq. rewrite !existsb_exists.
  split; intros (x & Hin & Hx); exists x; split; try done.
  - by apply (Permutation_in _ Hp).
  - by apply (Permutation_in _ (Permutation_sym Hp)).
Qed.

(** The entry under a key that is not a sum key, at the end of the
    loop: the initial entry with the counts of all the items. *)
Lemma loop_result_counts config items k :
  k ∉ sum_keys config →
  loop_result items config !! k
  = bumps (flat_map (counted_keys config k) items)
          (initial_summary (length items) config !! k).
Proof.
  intros Hk. unfold loop_result. by rewrite loop_lookup, loop_entry_counts.
Qed.

(** The entry under a sum key is a number, at the end of the loop and
    after the averaging pass. *)
Lemma loop_result_number config items k :
  k ∈ sum_keys config → is_number (loop_result items config !! k) = true.
Proof.
  intros Hk. unfold loop_result. rewrite loop_lookup.
  apply loop_entry_number. rewrite initial_summary_lookup.
  by rewrite decide_True.
Qed.

Lemma count_map_Permutation config items items' k m :
  items ≡ₚ items' →
  averaged (length items) config (loop_result items config) !! k = Some (SMap m) →
  averaged (length items') config (loop_result items' config) !! k = Some (SMap m).
Proof.
  intros Hp Hm. rewrite <- (Permutation_length Hp).
  apply averaged_count_map in Hm as [Hloop Hnw].
  assert (Hk : k ∉ sum_keys config).
  { intros Hk. apply (loop_result_number config items) in Hk.
    by rewrite Hloop in Hk. }
  assert (Hloop' : loop_result items' config !! k = Some (SMap m)).
  { rewrite loop_result_counts in Hloop |- * by done.
    rewrite <- (Permutation_length Hp).
    rewrite <- (bumps_Permutation _ _ _ (Permutation_flat_map _ Hp)). done. }
  unfold averaged. destruct (0 <? length items)%nat; [|done].
  rewrite averaging_other; [done|by apply Hnw].
Qed.
End Aggregator.

(** C6. The count maps produced by the aggregator do not depend on the
    order of the records: for a permutation of the input, the aggregator
    returns in both cases or throws in both cases, and the count map
    stored under each [by_<field>] key is the same. *)
Theorem group_counts_order_independent (host : Builtins)
    (config : Config) (items items' : list (gmap string jsval)) :
  items ≡ₚ items' →
  returns (calculateSummary items config) = returns (calculateSummary items' config) ∧
  ∀ f, count_map_at (calculateSummary items config) (by_key f)
       = count_map_at (calculateSummary items' config) (by_key f).
Proof.
  intros Hp.
  pose proof (existsb_Permutation (throwing_item config) _ _ Hp) as Hex.
  destruct (existsb (throwing_item config) items) eqn:Ht; symmetry in Hex.
  - destruct (calculateSummary_throws _ _ Ht) as [e ->].
    destruct (calculateSummary_throws _ _ Hex) as [e' ->]. done.
  - rewrite !calculateSummary_returns by done. split; [done|]. intros f. simpl.
    pose proof (count_map_Permutation config items items' (by_key f)) as H1.
    pose proof (count_map_Permutation config items' items (by_key f)) as H2.
    destruct (averaged (length items) config (loop_result items config) !! by_key f)
      as [[x|str|m]|] eqn:E1;
      destruct (averaged (length items') config (loop_result items' config) !! by_key f)
      as [[x'|str'|m']|] eqn:E2; try done;
      try (specialize (H1 _ Hp eq_refl); congruence);
      try (specialize (H2 _ (Permutation_sym Hp) eq_refl); congruence).
Qed.

Lemma group_counts_order_independent_witness :
  returns (calculateSummary (H:=example_host) testData testConfig)
  = returns (calculateSummary (H:=example_host) (rev testData) testConfig) ∧
  ∀ f, count_map_at (calculateSummary (H:=example_host) testData testConfig) (by_key f)
       = count_map_at (calculateSummary (H:=example_host) (rev testData) testConfig)
                      (by_key f).
Proof.
  apply (group_counts_order_independent example_host testConfig testData (rev testData)).
  apply Permutation_rev.
Defined.

(** The first test of [describe('calculateSummary')]. *)
Example calculateSummary_basic_summary :
  let r := calculateSummary (H:=example_host) testData testConfig in
  entry_at r "total_vehicles" = Some (SNum (num_of_Z 4)) ∧
  count_map_at r "by_make"
    = Some {[ "Honda" := num_of_Z 2; "Toyota" := num_of_Z 2 ]} ∧
  count_map_at r "by_type"
    = Some {[ "sedan" := num_of_Z 2; "suv" := num_of_Z 2 ]} ∧
  entry_at r "total_price" = Some (SNum (num_of_Z 128000)) ∧
  entry_at r "total_quantity" = Some (SNum (num_of_Z 26)) ∧
  entry_at r "average_price" = Some (SNum (num_of_Z 32000)) ∧
  entry_at r "average_quantity" = Some (SNum (num_of_Z 7)).
Proof. repeat split; vm_compute; reflexivity. Qed.

(** *** Keys *)













Lemma writes_companion_true (k : string) (sf : SumField) :
  writes_companion k sf = true ↔ has_companion (key sf) = true ∧ companion (key sf) = k.
Proof.
  unfold writes_companion. rewrite andb_true_iff, bool_decide_eq_true. done.
Qed.



Lemma writes_companion_key (config : Config) (k : string) (sf : SumField) :
  sf ∈ sumFields config → writes_companion k sf = true → k ∈ companion_keys config.
Proof.
  intros Hsf [Hh <-]%writes_companion_true. unfold companion_keys.
  apply list_elem_of_fmap_2, list_elem_of_In, filter_In. split; [|done].
  apply list_elem_of_In. unfold sum_keys. by apply list_elem_of_fmap_2.
Qed.


Section AggregatorResults.
Context `{Builtins}.


(** On an empty sequence the aggregator returns the initial object. *)
Lemma calculateSummary_empty config :
  calculateSummary [] config = Ok (initial_summary 0 config).
Proof. by rewrite calculateSummary_returns. Qed.

(** *** The companion averages *)

End AggregatorResults.

(** C7, as the code has it. On an empty record sequence the aggregator
    returns without throwing, for every configuration, and
    - every declared sum key other than [__proto__] is 0 (an assignment
      to [__proto__] creates no property);
    - the total-count key is 0 when no [by_<field>] key is the
      total-count key;
    - the map of a [by_<field>] key is empty when that key is not also a
      sum key. *)
Theorem empty_sequence_summary (host : Builtins) (config : Config) :
  ∃ s, calculateSummary [] config = Ok s ∧
       (∀ sf, sf ∈ sumFields config → key sf ≠ "__proto__" →
              s !! key sf = Some (SNum num_zero)) ∧
       ((∀ f, f ∈ groupByFields config → by_key f ≠ totalKey config) →
        s !! totalKey config = Some (SNum num_zero)) ∧
       (∀ f, f ∈ groupByFields config → by_key f ∉ sum_keys config →
             s !! by_key f = Some (SMap ∅)).
Proof.
  exists (initial_summary 0 config).
  split; [apply calculateSummary_empty|]. split; [|split].
  - intros sf Hsf _. rewrite initial_summary_lookup.
    rewrite decide_True; [done|]. by apply list_elem_of_fmap_2.
  - intros Hkeys. rewrite initial_summary_lookup.
    destruct (decide (totalKey config ∈ sum_keys config)); [done|].
    destruct (decide (totalKey config ∈ group_keys config)) as [Hg|_].
    + apply list_elem_of_fmap in Hg as (f & Heq & Hf).
      specialize (Hkeys f Hf). congruence.
    + by rewrite decide_True.
  - intros f Hf Hs. rewrite initial_summary_lookup.
    rewrite decide_False by done.
    rewrite decide_True; [done|]. by apply list_elem_of_fmap_2.
Qed.

Lemma empty_sequence_summary_witness :
  ∃ s, calculateSummary (H:=example_host) [] testConfig = Ok s ∧
       s !! "total_vehicles" = Some (SNum num_zero) ∧
       s !! "by_make" = Some (SMap ∅) ∧ s !! "by_type" = Some (SMap ∅) ∧
       s !! "total_price" = Some (SNum num_zero) ∧
       s !! "total_quantity" = Some (SNum num_zero).
Proof.
  destruct (empty_sequence_summary example_host testConfig)
    as (s & Hs & Hsums & Htotal & Hmaps).
  exists s. split; [exact Hs|]. split.
  { apply Htotal. intros f Hf. simpl in Hf.
    repeat (apply elem_of_cons in Hf as [->|Hf]; [compute_done|]).
    by apply elem_of_nil in Hf. }
  split; [apply (Hmaps "make"); compute_done|].
  split; [apply (Hmaps "type"); compute_done|].
  split.
  - apply (Hsums {| field := "price"; key := "total_price" |});
      [apply list_elem_of_here|discriminate].
  - apply (Hsums {| field := "quantity"; key := "total_quantity" |});
      [apply list_elem_of_further, list_elem_of_here|discriminate].
Defined.

(** C7, as stated, fails when the total-count key is also the key of a
    group map, [{totalKey: 'by_category', groupByFields: ['category']}]:
    the key holds the empty map, not 0. *)
Lemma empty_sequence_total_key_collision :
  calculateSummary (H:=example_host) [] total_is_group_key
  = Ok {[ "by_category" := SMap ∅ ]} ∧
  entry_at (calculateSummary (H:=example_host) [] total_is_group_key)
           (totalKey total_is_group_key)
  ≠ Some (SNum num_zero).
Proof. split; [reflexivity|discriminate]. Qed.



(** When a sum key is also the key of a group map, the key holds the
    number 0 when the loop starts, and counting the first record under it
    throws: nothing is returned. *)
Example calculateSummary_throws_on_shared_key :
  calculateSummary (H:=example_host) testData group_key_is_sum_key
  = Throw (TypeError "Cannot create property 'Honda' on number '0'").
Proof. reflexivity. Qed.


(** *** Records whose grouped value is missing *)



Section MissingValues.
Context `{Builtins}.







End MissingValues.

(** *** The values of a count map *)

Lemma Qred_inject_Z (z : Z) : Qred (inject_Z z) = inject_Z z.
Proof.
  unfold Qred, inject_Z.
  generalize (Z.ggcd_gcd z 1) (Z.ggcd_correct_divisors z 1).
  destruct (Z.ggcd z 1) as [g [aa bb]]. simpl. intros Hg [Ha Hb].
  rewrite Z.gcd_1_r in Hg. subst g.
  rewrite Z.mul_1_l in Ha, Hb. by subst.
Qed.

Lemma num_add_of_nat (a b : nat) :
  num_add (num_of_nat a) (num_of_nat b) = num_of_nat (a + b).
Proof.
  unfold num_of_nat, num_of_Z. simpl. f_equal.
  by rewrite Nat2Z.inj_add, <- inject_Z_plus, Qred_inject_Z.
Qed.

Lemma num_add_swap (y z1 z2 : num) :
  num_add (num_add y z2) z1 = num_add (num_add y z1) z2.
Proof.
  destruct y as [| | |q], z1 as [| | |q1], z2 as [| | |q2]; try reflexivity.
  simpl. f_equal. apply Qred_complete.
  rewrite !Qred_correct. ring.
Qed.

Lemma num_or_positive (c : nat) :
  num_or (num_of_nat (S c)) num_zero = num_of_nat (S c).
Proof. reflexivity. Qed.

Lemma count_total_insert (m : gmap string num) (k : string) (x : num) :
  m !! k = None → count_total (<[k:=x]> m) = num_add (count_total m) x.
Proof.
  intros Hk. unfold count_total.
  apply (map_fold_insert_L (λ _ x acc, num_add acc x)); [|done].
  intros. apply num_add_swap.
Qed.

Lemma count_total_natural (m : gmap string num) :
  natural_counts m → ∃ c, count_total m = num_of_nat c.
Proof.
  induction m as [|k x m Hk IH] using map_ind; intros Hnat.
  - by exists 0%nat.
  - destruct IH as [c Hc].
    { intros j y Hj. apply (Hnat j y).
      rewrite lookup_insert_ne; [done|]. intros ->. congruence. }
    destruct (Hnat k x) as [cx ->]; [by rewrite lookup_insert_eq|].
    exists (c + S cx)%nat.
    by rewrite count_total_insert, Hc, num_add_of_nat.
Qed.

Lemma natural_counts_delete (m : gmap string num) (k : string) :
  natural_counts m → natural_counts (delete k m).
Proof.
  intros Hnat j y Hj. apply (Hnat j y).
  by apply lookup_delete_Some in Hj as [_ Hj].
Qed.

(** One more count keeps the values positive integers and adds one to
    their sum. *)
Lemma incrementCounter_total (m : gmap string num) (k : string) :
  natural_counts m →
  natural_counts (incrementCounter m k num_one).1 ∧
  count_total (incrementCounter m k num_one).1 = num_add (count_total m) num_one.
Proof.
  intros Hnat. unfold incrementCounter. cbn [fst].
  destruct (m !! k) as [x|] eqn:Hk.
  - destruct (Hnat k x Hk) as [c ->]. rewrite num_or_positive.
    change num_one with (num_of_nat 1). rewrite num_add_of_nat. split.
    + intros j y. rewrite lookup_insert_Some.
      intros [[_ <-]|[_ Hj]]; [|by apply (Hnat j y)].
      exists (c + 1)%nat. f_equal.
    + destruct (count_total_natural (delete k m)) as [d Hd].
      { by apply natural_counts_delete. }
      rewrite <- (insert_delete_id m k _ Hk) at 2.
      rewrite <- insert_delete_eq.
      rewrite !count_total_insert by apply lookup_delete_eq.
      rewrite Hd, !num_add_of_nat. f_equal. lia.
  - split.
    + intros j y. rewrite lookup_insert_Some.
      intros [[_ <-]|[_ Hj]]; [|by apply (Hnat j y)].
      by exists 0%nat.
    + by rewrite count_total_insert.
Qed.

Section CountTotals.
Context `{Builtins}.



End CountTotals.



(* ===================================================================== *)
(** ** The incentive fetch: what the response holds *)
(* ===================================================================== *)

Lemma filter_filter_andb {A : Type} (p q : A → bool) (l : list A) :
  List.filter q (List.filter p l) = List.filter (λ x, p x && q x) l.
Proof.
  induction l as [|x l IH]; [done|]. simpl.
  destruct (p x); simpl; [|done]. destruct (q x); by rewrite IH.
Qed.

Lemma filter_true {A : Type} (l : list A) : List.filter (λ _, true) l = l.
Proof. induction l as [|x l IH]; [done|]. simpl. by rewrite IH. Qed.

Lemma filter_ext_bool {A : Type} (p q : A → bool) (l : list A) :
  (∀ x, p x = q x) → List.filter p l = List.filter q l.
Proof.
  intros Hpq. induction l as [|x l IH]; [done|]. simpl. by rewrite Hpq, IH.
Qed.

Section FetchResults.
Context `{Builtins}.

(** The [try] block, step by step. *)
Lemma fetch_body_Ok env path fa ie r :
  fetch_body env path fa ie = Ok r ↔
  ∃ raw elems processed,
    pathExists env path = true ∧ readJson env path = Ok raw ∧
    select_incentives raw = Ok elems ∧
    map_result (processIncentive (currentDate env)) elems = Ok processed ∧
    r = createResponse (IncentiveFetcher.timestamp env) true
          (<["fetch_date" := RData (PString (fetch_date env))]>
           (<["total_incentives" :=
                RData (PNumber (num_of_nat
                  (length (List.filter (passes_filters fa ie) processed))))]>
            (<["summary" :=
                 RData (PSummary (calculateIncentiveSummary
                   (List.filter (passes_filters fa ie) processed)))]>
             (<["data" :=
                  RData (PIncentives (List.filter (passes_filters fa ie) processed))]>
              ∅))))
          None.
Proof.
  assert (Hf : ∀ processed,
    (if negb ie
     then List.filter (λ inc, negb (String.eqb (status inc) "Expired"))
            (if fa then List.filter (λ inc, String.eqb (status inc) "Active") processed
             else processed)
     else if fa then List.filter (λ inc, String.eqb (status inc) "Active") processed
          else processed)
    = List.filter (passes_filters fa ie) processed).
  { intros processed. unfold passes_filters.
    destruct fa, ie; simpl.
    - apply filter_ext_bool. intros x. by rewrite andb_true_r.
    - by rewrite filter_filter_andb.
    - by rewrite filter_true.
    - done. }
  unfold fetch_body, checkFileExists. split.
  - destruct (pathExists env path); [|discriminate]. cbn.
    destruct (readJson env path) as [raw|?]; [|discriminate]. cbn.
    destruct (select_incentives raw) as [elems|?] eqn:Hsel; [|discriminate]. cbn.
    destruct (map_result _ elems) as [processed|?] eqn:Hmap; [|discriminate]. cbn.
    rewrite Hf. intros [= <-]. by exists raw, elems, processed.
  - intros (raw & elems & processed & -> & -> & Hsel & Hmap & ->). cbn.
    rewrite Hsel. cbn. rewrite Hmap. cbn. by rewrite Hf.
Qed.

(** The response says [success: true] exactly when the [try] block
    returned it. *)
Lemma fetch_success env path fa ie :
  fetch_incentive_data env path fa ie !! "success" = Some (RBool true) ↔
  fetch_body env path fa ie = Ok (fetch_incentive_data env path fa ie).
Proof.
  unfold fetch_incentive_data.
  destruct (fetch_body env path fa ie) as [r|e] eqn:Hbody.
  - split; [done|]. intros _.
    apply fetch_body_returns in Hbody as [l ->].
    match goal with
    | |- context [createResponse ?ts true ?d None] =>
        destruct (createResponse_success ts d) as (_ & (Hs & _) & _);
          [literal_payload|]
    end.
    done.
  - split; [|discriminate].
    destruct (createResponse_failure (P:=Payload)
                (IncentiveFetcher.timestamp env) e) as (_ & (Hf & _) & _).
    unfold handleError. rewrite Hf. discriminate.
Qed.

Lemma summary_step_total (s : IncentiveSummary) (l : list Incentive) :
  total_incentives (foldl IncentiveFetcher.summary_step s l) = total_incentives s.
Proof. revert s. induction l as [|inc l IH]; intros s; [done|]. simpl. by rewrite IH. Qed.

Lemma calculateIncentiveSummary_total (l : list Incentive) :
  total_incentives (calculateIncentiveSummary l) = num_of_nat (length l).
Proof. unfold calculateIncentiveSummary. simpl. by rewrite summary_step_total. Qed.

Lemma fetched_payload ts fd (l : list Incentive) :
  let r := createResponse ts true
          (<["fetch_date" := RData (PString fd)]>
           (<["total_incentives" := RData (PNumber (num_of_nat (length l)))]>
            (<["summary" := RData (PSummary (calculateIncentiveSummary l))]>
             (<["data" := RData (PIncentives l)]> ∅))))
          None in
  fetched_data r = Some l ∧
  fetched_summary r = Some (calculateIncentiveSummary l) ∧
  fetched_total r = Some (num_of_nat (length l)).
Proof.
  intros r. subst r.
  match goal with
  | |- context [createResponse ?ts true ?d None] =>
      destruct (createResponse_success ts d) as (_ & _ & Hpay);
        [literal_payload|]
  end.
  unfold fetched_data, fetched_summary, fetched_total.
  rewrite (Hpay "data" (RData (PIncentives l))) by reflexivity.
  rewrite (Hpay "summary" (RData (PSummary (calculateIncentiveSummary l))))
    by reflexivity.
  rewrite (Hpay "total_incentives" (RData (PNumber (num_of_nat (length l)))))
    by reflexivity.
  done.
Qed.

Lemma map_result_Ok {A B : Type} (f : A → result B) (xs : list A) (ys : list B) :
  map_result f xs = Ok ys ↔ Forall2 (λ x y, f x = Ok y) xs ys.
Proof.
  split.
  - revert ys. induction xs as [|x xs IH]; intros ys; simpl.
    + intros [= <-]. constructor.
    + destruct (f x) as [y|e] eqn:Hx; cbn; [|discriminate].
      destruct (map_result f xs) as [ys'|e]; cbn; [|discriminate].
      intros [= <-]. constructor; [done|]. by apply IH.
  - induction 1 as [|x y xs ys Hx _ IH]; simpl; [done|].
    by rewrite Hx, IH.
Qed.

Lemma processIncentive_returns now v :
  returns (processIncentive now v) = not_nullish v.
Proof. by destruct v. Qed.

Lemma map_result_processIncentive now elems :
  returns (map_result (processIncentive now) elems) = forallb not_nullish elems.
Proof.
  induction elems as [|v elems IH]; [done|]. simpl.
  pose proof (processIncentive_returns now v) as Hv.
  destruct (processIncentive now v) as [inc|e]; cbn in *; rewrite <- Hv; [|done].
  simpl. rewrite <- IH. by destruct (map_result _ elems).
Qed.

Lemma select_incentives_Ok raw elems :
  select_incentives raw = Ok elems ↔
  accepted_container raw = true ∧ elems = container_elements raw.
Proof.
  destruct raw as [| | | | |l|props]; simpl; try (split; [discriminate|intros [? _]; discriminate]).
  - split; [by intros [= <-]|by intros [_ ->]].
  - destruct (assoc "incentives" props); simpl;
      try (split; [discriminate|intros [? _]; discriminate]).
    split; [by intros [= <-]|by intros [_ ->]].
Qed.
End FetchResults.

(** X1. A successful fetch returns, in the order of the payload, the
    processed incentives that pass the two status filters and no others:
    with [filter_active_only] every returned incentive is Active, without
    [include_expired] none is Expired, and with the first filter off and
    the second option on every processed incentive is returned. *)
Theorem fetch_data_is_filtered (host : Builtins) env path fa ie :
  fetch_incentive_data env path fa ie !! "success" = Some (RBool true) →
  ∃ raw processed data,
    readJson env path = Ok raw ∧
    Forall2 (λ v inc, processIncentive (currentDate env) v = Ok inc)
            (container_elements raw) processed ∧
    fetched_data (fetch_incentive_data env path fa ie) = Some data ∧
    data = List.filter (passes_filters fa ie) processed ∧
    (fa = true → Forall (λ inc, status inc = "Active") data) ∧
    (ie = false → Forall (λ inc, status inc ≠ "Expired") data) ∧
    (fa = false → ie = true → data = processed).
Proof.
  intros Hs. apply fetch_success in Hs.
  apply fetch_body_Ok in Hs as (raw & elems & processed & _ & Hread & Hsel & Hmap & Hr).
  apply select_incentives_Ok in Hsel as [_ ->].
  apply map_result_Ok in Hmap.
  exists raw, processed, (List.filter (passes_filters fa ie) processed).
  split; [done|]. split; [done|]. split.
  { rewrite Hr. apply fetched_payload. }
  split; [done|]. split.
  - intros ->. apply Forall_forall. intros inc Hin.
    apply list_elem_of_In, filter_In in Hin as [_ Hp].
    unfold passes_filters in Hp. simpl in Hp.
    apply andb_true_iff in Hp as [Hp _]. by apply String.eqb_eq.
  - split.
    + intros ->. apply Forall_forall. intros inc Hin.
      apply list_elem_of_In, filter_In in Hin as [_ Hp].
      unfold passes_filters in Hp. simpl in Hp.
      apply andb_true_iff in Hp as [_ Hp].
      apply negb_true_iff, String.eqb_neq in Hp. done.
    + intros -> ->. rewrite <- (filter_true processed) at 2.
      by apply filter_ext_bool.
Qed.

Lemma fetch_data_is_filtered_witness :
  ∃ raw processed data,
    readJson (file_env (VArr [VObj []]) (num_of_Z 0) "2024-01-15T10:30:45.123Z") "incentives.json" = Ok raw ∧
    Forall2 (λ v inc, processIncentive (H:=example_host)
               (currentDate (file_env (VArr [VObj []]) (num_of_Z 0) "2024-01-15T10:30:45.123Z")) v = Ok inc)
            (container_elements raw) processed ∧
    fetched_data (fetch_incentive_data (H:=example_host)
                    (file_env (VArr [VObj []]) (num_of_Z 0) "2024-01-15T10:30:45.123Z")
                    "incentives.json" true false) = Some data ∧
    data = List.filter (passes_filters true false) processed ∧
    (true = true → Forall (λ inc, status inc = "Active") data) ∧
    (false = false → Forall (λ inc, status inc ≠ "Expired") data) ∧
    (true = false → false = true → data = processed).
Proof.
  apply (fetch_data_is_filtered example_host
           (file_env (VArr [VObj []]) (num_of_Z 0) "2024-01-15T10:30:45.123Z")
           "incentives.json" true false).
  vm_compute. reflexivity.
Defined.

(** X2. In a successful response the three counts agree:
    [total_incentives], the length of [data], and the [total_incentives]
    of the summary, which is the summary of exactly the returned
    incentives. *)
Theorem fetch_counts_agree (host : Builtins) env path fa ie :
  fetch_incentive_data env path fa ie !! "success" = Some (RBool true) →
  ∃ data summary,
    fetched_data (fetch_incentive_data env path fa ie) = Some data ∧
    fetched_summary (fetch_incentive_data env path fa ie) = Some summary ∧
    fetched_total (fetch_incentive_data env path fa ie)
    = Some (num_of_nat (length data)) ∧
    summary = calculateIncentiveSummary data ∧
    total_incentives summary = num_of_nat (length data).
Proof.
  intros Hs. apply fetch_success in Hs.
  apply fetch_body_returns in Hs as [l Hr].
  exists l, (calculateIncentiveSummary l). rewrite Hr.
  destruct (fetched_payload (IncentiveFetcher.timestamp env) (fetch_date env) l)
    as (Hd & Hsum & Ht).
  repeat (split; [done|]). apply calculateIncentiveSummary_total.
Qed.

Lemma fetch_counts_agree_witness :
  ∃ data summary,
    fetched_data (fetch_incentive_data (H:=example_host)
                    (file_env (VArr [VObj []]) (num_of_Z 0) "2024-01-15T10:30:45.123Z")
                    "incentives.json" true false) = Some data ∧
    fetched_summary (fetch_incentive_data (H:=example_host)
                    (file_env (VArr [VObj []]) (num_of_Z 0) "2024-01-15T10:30:45.123Z")
                    "incentives.json" true false) = Some summary ∧
    fetched_total (fetch_incentive_data (H:=example_host)
                    (file_env (VArr [VObj []]) (num_of_Z 0) "2024-01-15T10:30:45.123Z")
                    "incentives.json" true false)
    = Some (num_of_nat (length data)) ∧
    summary = calculateIncentiveSummary (H:=example_host) data ∧
    total_incentives summary = num_of_nat (length data).
Proof.
  apply (fetch_counts_agree example_host
           (file_env (VArr [VObj []]) (num_of_Z 0) "2024-01-15T10:30:45.123Z")
           "incentives.json" true false).
  vm_compute. reflexivity.
Defined.

(** X3. With [filter_active_only] set, as it is by default,
    [include_expired] changes nothing: the response is the same with and
    without it, and an expired incentive is never returned. *)
Theorem include_expired_is_ignored (host : Builtins) env path :
  fetch_incentive_data env path true true
  = fetch_incentive_data env path true false.
Proof.
  assert (Hf : ∀ l, List.filter (passes_filters true true) l
                    = List.filter (passes_filters true false) l).
  { intros l. apply filter_ext_bool. intros inc. unfold passes_filters. simpl.
    destruct (String.eqb_spec (status inc) "Active") as [->|]; done. }
  assert (Hb : fetch_body env path true true = fetch_body env path true false).
  { destruct (fetch_body env path true true) as [r|e] eqn:H1.
    - symmetry. apply fetch_body_Ok.
      apply fetch_body_Ok in H1 as (raw & elems & processed & ? & ? & ? & ? & ->).
      exists raw, elems, processed. by rewrite <- Hf.
    - destruct (fetch_body env path true false) as [r|e'] eqn:H2.
      + apply fetch_body_Ok in H2 as (raw & elems & processed & ? & ? & ? & ? & ->).
        assert (fetch_body env path true true = Ok
                  (createResponse (IncentiveFetcher.timestamp env) true
          (<["fetch_date" := RData (PString (fetch_date env))]>
           (<["total_incentives" :=
                RData (PNumber (num_of_nat
                  (length (List.filter (passes_filters true true) processed))))]>
            (<["summary" :=
                 RData (PSummary (calculateIncentiveSummary
                   (List.filter (passes_filters true true) processed)))]>
             (<["data" :=
                  RData (PIncentives (List.filter (passes_filters true true) processed))]>
              ∅))))
          None)) as Hok.
        { apply fetch_body_Ok. by exists raw, elems, processed. }
        congruence.
      + revert H1 H2. unfold fetch_body.
        destruct (checkFileExists _ _ _) as [[]|?]; cbn; [|congruence].
        destruct (readJson env path) as [raw|?]; cbn; [|congruence].
        destruct (select_incentives raw) as [elems|?]; cbn; [|congruence].
        destruct (map_result _ elems) as [processed|?]; cbn; [|congruence].
        discriminate. }
  unfold fetch_incentive_data. by rewrite Hb.
Qed.

Section FetchFailures.
Context `{Builtins}.

Lemma processIncentive_throws now v e :
  processIncentive now v = Throw e → app e = None.
Proof. destruct v; simpl; try discriminate; by intros [= <-]. Qed.

Lemma map_result_processIncentive_throws now elems e :
  map_result (processIncentive now) elems = Throw e → app e = None.
Proof.
  induction elems as [|v elems IH]; [discriminate|]. simpl.
  destruct (processIncentive now v) as [inc|e'] eqn:Hv; cbn.
  - destruct (map_result _ elems) as [ys|e'']; cbn; [discriminate|].
    intros [= <-]. by apply IH.
  - intros [= <-]. by apply processIncentive_throws in Hv.
Qed.
End FetchFailures.

(** X4. The fetch is all or nothing.  It reports success only if the
    file exists, parses to an array or to an object whose [incentives] is
    an array, and no element of that array is [null] or [undefined].  A
    single such element fails the whole batch, whatever the other
    elements are: the response is a failure, and it has no [errorType]
    (the error is a [TypeError]). *)
Theorem fetch_is_all_or_nothing (host : Builtins) env path fa ie :
  let r := fetch_incentive_data env path fa ie in
  (r !! "success" = Some (RBool true) →
   pathExists env path = true ∧
   ∃ raw, readJson env path = Ok raw ∧
          accepted_container raw = true ∧
          forallb not_nullish (container_elements raw) = true) ∧
  (∀ raw, pathExists env path = true →
          readJson env path = Ok raw →
          accepted_container raw = true →
          forallb not_nullish (container_elements raw) = false →
          failure_branch r ∧ r !! "errorType" = None).
Proof.
  intros r. subst r. split.
  - rewrite fetch_success. intros Hb.
    apply fetch_body_Ok in Hb as (raw & elems & processed & Hex & Hread & Hsel & Hmap & _).
    apply select_incentives_Ok in Hsel as [Hacc ->].
    split; [done|]. exists raw. split; [done|]. split; [done|].
    rewrite <- (map_result_processIncentive (currentDate env)). by rewrite Hmap.
  - intros raw Hex Hread Hacc Hall.
    rewrite <- (map_result_processIncentive (currentDate env)) in Hall.
    destruct (map_result (processIncentive (currentDate env)) (container_elements raw))
      as [processed|e] eqn:Hmap; [discriminate|].
    assert (Hsel : select_incentives raw = Ok (container_elements raw))
      by by apply select_incentives_Ok.
    assert (Hb : fetch_body env path fa ie = Throw e).
    { unfold fetch_body, checkFileExists. rewrite Hex. cbn. rewrite Hread. cbn.
      rewrite Hsel. cbn. by rewrite Hmap. }
    unfold fetch_incentive_data. rewrite Hb.
    destruct (createResponse_failure (P:=Payload)
                (IncentiveFetcher.timestamp env) e) as (_ & Hf & Htag).
    split; [exact Hf|]. unfold handleError. rewrite Htag.
    unfold error_tag. by rewrite (map_result_processIncentive_throws _ _ _ Hmap).
Qed.

(* ===================================================================== *)
(** ** One incentive: status and days remaining *)
(* ===================================================================== *)

Lemma Qis_zero_day : Qis_zero (inject_Z (1000 * 60 * 60 * 24)) = false.
Proof. reflexivity. Qed.

(** Whole days between two finite time values, rounded up and rounded
    down. *)
Lemma ceil_days_Fin (e n : Q) :
  Math_ceil (num_div (num_sub (Fin e) (Fin n)) (num_of_Z (1000 * 60 * 60 * 24)))
  = num_of_Z (Qceiling ((e - n) / inject_Z 86400000)).
Proof.
  unfold num_sub, num_of_Z. cbn [num_neg num_add num_div].
  rewrite Qis_zero_day. cbn [Math_ceil]. unfold num_of_Z. do 2 f_equal.
  apply Qceiling_comp. rewrite !Qred_correct. reflexivity.
Qed.

Lemma floor_days_Fin (e n : Q) :
  Math_floor (num_div (num_sub (Fin e) (Fin n)) (num_of_Z (1000 * 60 * 60 * 24)))
  = num_of_Z (Qfloor ((e - n) / inject_Z 86400000)).
Proof.
  unfold num_sub, num_of_Z. cbn [num_neg num_add num_div].
  rewrite Qis_zero_day. cbn [Math_floor]. unfold num_of_Z. do 2 f_equal.
  apply Qfloor_comp. rewrite !Qred_correct. reflexivity.
Qed.

Lemma Qdiv_day_le (x y : Q) :
  (x <= y)%Q → (x / inject_Z 86400000 <= y / inject_Z 86400000)%Q.
Proof.
  intros Hxy. unfold Qdiv. apply Qmult_le_compat_r; [done|]. by vm_compute.
Qed.

Lemma Qdiv_day_0 : (0 / inject_Z 86400000 == 0)%Q.
Proof. reflexivity. Qed.

Section OneIncentive.
Context `{Builtins}.

Lemma processIncentive_Ok now v inc :
  processIncentive now v = Ok inc →
  status inc = getIncentiveStatus (start_date inc) (end_date inc) now ∧
  days_remaining inc
  = Math_ceil (num_div (num_sub (end_date inc) now) (num_of_Z (1000 * 60 * 60 * 24))).
Proof. destruct v; simpl; intros [= <-]; done. Qed.

Lemma getIncentiveStatus_known s e n : known_status (getIncentiveStatus s e n).
Proof.
  unfold getIncentiveStatus, known_status.
  destruct (num_lt n s); [auto|]. destruct (num_gt n e); auto.
Qed.

Lemma getIncentiveStatus_Active s e n :
  getIncentiveStatus s e n = "Active" → num_gt n e = false.
Proof.
  unfold getIncentiveStatus.
  destruct (num_lt n s); [discriminate|]. by destruct (num_gt n e).
Qed.

Lemma getIncentiveStatus_Expired s e n :
  getIncentiveStatus s e n = "Expired" → num_gt n e = true.
Proof.
  unfold getIncentiveStatus.
  destruct (num_lt n s); [discriminate|]. by destruct (num_gt n e).
Qed.

Lemma days_not_negative (e n : num) :
  num_gt n e = false →
  num_lt (Math_ceil (num_div (num_sub e n) (num_of_Z (1000 * 60 * 60 * 24))))
         num_zero = false.
Proof.
  destruct e as [| | |e], n as [| | |n]; try reflexivity; try discriminate.
  intros Hgt. rewrite ceil_days_Fin. change num_zero with (num_of_Z 0).
  apply not_true_iff_false. rewrite num_lt_of_Z.
  unfold num_gt in Hgt. apply not_true_iff_false in Hgt. rewrite num_lt_Fin in Hgt.
  apply Qnot_lt_le in Hgt.
  assert (0 <= Qceiling ((e - n) / inject_Z 86400000))%Z; [|lia].
  change 0%Z with (Qceiling 0). apply Qceiling_resp_le.
  rewrite <- Qdiv_day_0. apply Qdiv_day_le.
  rewrite <- (Qplus_opp_r n). unfold Qminus. by apply Qplus_le_compat; [|apply Qle_refl].
Qed.

Lemma days_not_positive (e n : num) :
  num_gt n e = true →
  num_le (Math_ceil (num_div (num_sub e n) (num_of_Z (1000 * 60 * 60 * 24))))
         num_zero = true.
Proof.
  destruct e as [| | |e], n as [| | |n]; try reflexivity; try discriminate.
  intros Hgt. rewrite ceil_days_Fin. change num_zero with (num_of_Z 0).
  rewrite num_le_of_Z.
  unfold num_gt in Hgt. rewrite num_lt_Fin in Hgt.
  change 0%Z with (Qceiling 0). apply Qceiling_resp_le.
  rewrite <- Qdiv_day_0. apply Qdiv_day_le.
  rewrite <- (Qplus_opp_r n). unfold Qminus.
  apply Qplus_le_compat; [by apply Qlt_le_weak|apply Qle_refl].
Qed.
End OneIncentive.

(** X5. The two derived fields of a processed incentive agree: its
    status is one of Active, Upcoming and Expired; an Active incentive
    never has a negative [days_remaining], and an Expired one has zero days
    or fewer ([Math.ceil] of a fraction of a day gives zero). *)
Theorem status_agrees_with_days_remaining (host : Builtins) now v inc :
  processIncentive now v = Ok inc →
  known_status (status inc) ∧
  (status inc = "Active" → num_lt (days_remaining inc) num_zero = false) ∧
  (status inc = "Expired" → num_le (days_remaining inc) num_zero = true).
Proof.
  intros Hp. apply processIncentive_Ok in Hp as [Hst Hdays].
  rewrite Hst, Hdays. split; [apply getIncentiveStatus_known|]. split.
  - intros Ha. by apply days_not_negative, (getIncentiveStatus_Active (start_date inc)).
  - intros He. by apply days_not_positive, (getIncentiveStatus_Expired (start_date inc)).
Qed.

Lemma status_agrees_with_days_remaining_witness :
  ∃ inc,
    processIncentive (H:=example_host) (num_of_Z 0) (VObj []) = Ok inc ∧
    known_status (status inc) ∧
    (status inc = "Active" → num_lt (days_remaining inc) num_zero = false) ∧
    (status inc = "Expired" → num_le (days_remaining inc) num_zero = true).
Proof.
  eexists. split; [reflexivity|].
  apply (status_agrees_with_days_remaining example_host (num_of_Z 0) (VObj [])).
  reflexivity.
Defined.



(* ===================================================================== *)
(** ** Counting with [incrementCounter] and [obj[key]++] *)
(* ===================================================================== *)

Lemma count_of_cons {A : Type} (p : A → bool) (x : A) (l : list A) :
  count_of p (x :: l) = ((if p x then 1 else 0) + count_of p l)%nat.
Proof. unfold count_of. simpl. by destruct (p x). Qed.

Lemma count_of_le {A : Type} (p : A → bool) (l : list A) :
  (count_of p l ≤ length l)%nat.
Proof.
  induction l as [|x l IH]; [done|]. rewrite count_of_cons. simpl.
  destruct (p x); lia.
Qed.

Lemma count_of_pos {A : Type} (p : A → bool) (l : list A) :
  (0 < count_of p l)%nat ↔ existsb p l = true.
Proof.
  induction l as [|x l IH]; simpl.
  - unfold count_of. simpl. split; [lia|discriminate].
  - rewrite count_of_cons. destruct (p x); simpl; [split; [done|lia]|done].
Qed.

Lemma counted_incrementCounter (m : gmap string num) (j k : string) (c : nat) :
  counted m k c →
  counted (incrementCounter m j num_one).1 k
          ((if String.eqb j k then 1 else 0) + c).
Proof.
  unfold counted, incrementCounter. cbn [fst]. intros Hk.
  destruct (String.eqb_spec j k) as [->|Hjk].
  - rewrite lookup_insert_eq, Hk.
    destruct c as [|c]; [reflexivity|].
    cbn [Nat.eqb Nat.add]. rewrite num_or_positive.
    change num_one with (num_of_nat 1).
    rewrite num_add_of_nat. do 2 f_equal. lia.
  - by rewrite lookup_insert_ne.
Qed.

Lemma counted_foldl {A : Type} (key_of : A → string) (l : list A)
    (m : gmap string num) (k : string) (c : nat) :
  counted m k c →
  counted (foldl (λ m x, (incrementCounter m (key_of x) num_one).1) m l) k
          (c + count_of (λ x, String.eqb (key_of x) k) l).
Proof.
  revert m c. induction l as [|x l IH]; intros m c Hk; simpl.
  - unfold count_of. simpl. by rewrite Nat.add_0_r.
  - apply (counted_incrementCounter _ (key_of x)) in Hk.
    apply IH in Hk. rewrite count_of_cons.
    by rewrite Nat.add_assoc, (Nat.add_comm c).
Qed.

Lemma natural_foldl {A : Type} (key_of : A → string) (l : list A)
    (m : gmap string num) (c : nat) :
  natural_counts m → count_total m = num_of_nat c →
  natural_counts (foldl (λ m x, (incrementCounter m (key_of x) num_one).1) m l) ∧
  count_total (foldl (λ m x, (incrementCounter m (key_of x) num_one).1) m l)
  = num_of_nat (c + length l).
Proof.
  revert m c. induction l as [|x l IH]; intros m c Hnat Hc; cbn [foldl length].
  - by rewrite Nat.add_0_r.
  - destruct (incrementCounter_total m (key_of x) Hnat) as [Hnat1 Hc1].
    rewrite Hc in Hc1. change num_one with (num_of_nat 1) in Hc1.
    rewrite num_add_of_nat in Hc1.
    destruct (IH _ _ Hnat1 Hc1) as [Hn Ht]. split; [done|].
    rewrite Ht. f_equal. lia.
Qed.

Lemma natural_counts_empty : natural_counts ∅.
Proof. intros k x Hk. by rewrite lookup_empty in Hk. Qed.

(** [obj[key]++] entry by entry: a count that was initialised goes up by
    one; a key that was never initialised holds [NaN] from its first
    increment on. *)
Lemma post_increment_lookup (m : gmap string num) (j k : string) :
  post_increment m j !! k
  = if String.eqb j k then Some (num_add (default NaN (m !! k)) num_one)
    else m !! k.
Proof.
  unfold post_increment. destruct (String.eqb_spec j k) as [->|Hjk].
  - by rewrite lookup_insert_eq.
  - by rewrite lookup_insert_ne.
Qed.

Lemma post_increment_counts {A : Type} (key_of : A → string) (l : list A)
    (m : gmap string num) (k : string) (c : nat) :
  m !! k = Some (num_of_nat c) →
  foldl (λ m x, post_increment m (key_of x)) m l !! k
  = Some (num_of_nat (c + count_of (λ x, String.eqb (key_of x) k) l)).
Proof.
  revert m c. induction l as [|x l IH]; intros m c Hk; simpl.
  - unfold count_of. simpl. by rewrite Nat.add_0_r.
  - rewrite count_of_cons.
    rewrite (IH _ (c + if String.eqb (key_of x) k then 1 else 0)%nat).
    + do 2 f_equal. lia.
    + rewrite post_increment_lookup, Hk.
      change (default NaN (Some (num_of_nat c))) with (num_of_nat c).
      destruct (String.eqb (key_of x) k).
      * change num_one with (num_of_nat 1). by rewrite num_add_of_nat.
      * by rewrite Nat.add_0_r.
Qed.

Lemma post_increment_uncounted {A : Type} (key_of : A → string) (l : list A)
    (m : gmap string num) (k : string) :
  m !! k = None ∨ m !! k = Some NaN →
  foldl (λ m x, post_increment m (key_of x)) m l !! k
  = if existsb (λ x, String.eqb (key_of x) k) l then Some NaN else m !! k.
Proof.
  revert m. induction l as [|x l IH]; intros m Hk; simpl; [done|].
  rewrite IH.
  - rewrite post_increment_lookup.
    destruct (key_of x =? k); simpl; [|done].
    destruct Hk as [->| ->]; simpl; by destruct (existsb _ l).
  - rewrite post_increment_lookup.
    destruct (key_of x =? k); [|done]. right.
    by destruct Hk as [->| ->].
Qed.

(* ===================================================================== *)
(** ** The incentive summary, field by field *)
(* ===================================================================== *)

Section IncentiveSummaryFields.
Context `{Builtins}.

Lemma incentive_fold_by_make s l :
  IncentiveFetcher.by_make (foldl IncentiveFetcher.summary_step s l)
  = foldl (λ m i, (incrementCounter m (make_key i) num_one).1)
          (IncentiveFetcher.by_make s) l.
Proof. revert s. induction l as [|i l IH]; intros s; [done|]. cbn [foldl]. by rewrite IH. Qed.

Lemma incentive_fold_by_type s l :
  by_type (foldl IncentiveFetcher.summary_step s l)
  = foldl (λ m i, (incrementCounter m (type_key i) num_one).1) (by_type s) l.
Proof. revert s. induction l as [|i l IH]; intros s; [done|]. cbn [foldl]. by rewrite IH. Qed.

Lemma incentive_fold_by_status s l :
  by_status (foldl IncentiveFetcher.summary_step s l)
  = foldl (λ m i, post_increment m (status i)) (by_status s) l.
Proof. revert s. induction l as [|i l IH]; intros s; [done|]. cbn [foldl]. by rewrite IH. Qed.

Lemma incentive_fold_high_value s l :
  high_value_incentives (foldl IncentiveFetcher.summary_step s l)
  = (high_value_incentives s ++ map high_value_entry (List.filter is_high_value l))%list.
Proof.
  revert s. induction l as [|i l IH]; intros s; cbn [foldl List.filter map].
  - by rewrite app_nil_r.
  - rewrite IH. unfold is_high_value at 2. cbn [IncentiveFetcher.summary_step high_value_incentives].
    destruct (num_gt (value i) (num_of_Z 2000)); [|done].
    by rewrite <- app_assoc.
Qed.

Lemma incentive_fold_expiring s l :
  expiring_soon (foldl IncentiveFetcher.summary_step s l)
  = (expiring_soon s ++ map expiring_entry (List.filter is_expiring_soon l))%list.
Proof.
  revert s. induction l as [|i l IH]; intros s; cbn [foldl List.filter map].
  - by rewrite app_nil_r.
  - rewrite IH. unfold is_expiring_soon at 2. cbn [IncentiveFetcher.summary_step expiring_soon].
    destruct (String.eqb (status i) "Active" && num_le (days_remaining i) (num_of_Z 30));
      [|done].
    by rewrite <- app_assoc.
Qed.
End IncentiveSummaryFields.

(** X7. The two lists of the incentive summary hold, in the order of the
    input, exactly the incentives whose value is above 2000 (2000 itself
    and [NaN] are not) and exactly the Active incentives with at most 30
    days remaining. *)
Theorem incentive_summary_lists (host : Builtins) (l : list Incentive) :
  high_value_incentives (calculateIncentiveSummary l)
  = map high_value_entry (List.filter is_high_value l) ∧
  expiring_soon (calculateIncentiveSummary l)
  = map expiring_entry (List.filter is_expiring_soon l) ∧
  is_high_value (rebate 2000 10) = false ∧
  is_high_value (rebate 2001 10) = true ∧
  is_expiring_soon (rebate 500 30) = true ∧
  is_expiring_soon (rebate 500 31) = false.
Proof.
  unfold calculateIncentiveSummary. cbn [high_value_incentives expiring_soon].
  rewrite incentive_fold_high_value, incentive_fold_expiring.
  repeat split; reflexivity.
Qed.

Lemma count_total_three (a u e : num) :
  count_total ({[ "Active" := a; "Upcoming" := u; "Expired" := e ]} : gmap string num)
  = num_add (num_add (num_add num_zero e) u) a.
Proof.
  rewrite <- (insert_empty (M:=gmap string) "Expired" e).
  rewrite !count_total_insert by done.
  unfold count_total. by rewrite map_fold_empty.
Qed.

Lemma known_status_cases (st : string) :
  known_status st ∨ (st ≠ "Active" ∧ st ≠ "Upcoming" ∧ st ≠ "Expired").
Proof.
  unfold known_status.
  destruct (decide (st = "Active")); [auto|].
  destruct (decide (st = "Upcoming")); [auto|].
  destruct (decide (st = "Expired")); auto.
Qed.

Lemma status_partition (l : list Incentive) :
  Forall (λ i, known_status (status i)) l →
  (count_of (has_status "Expired") l + count_of (has_status "Upcoming") l
   + count_of (has_status "Active") l = length l)%nat.
Proof.
  induction 1 as [|i l Hi _ IH]; [done|].
  rewrite !count_of_cons. cbn [length]. unfold has_status at 1 3 5.
  destruct Hi as [-> | [-> | ->]]; cbn; lia.
Qed.

Lemma by_status_lookup `{Builtins} (l : list Incentive) (st : string) :
  by_status (calculateIncentiveSummary l) !! st
  = if bool_decide (known_status st)
    then Some (num_of_nat (count_of (has_status st) l))
    else if existsb (has_status st) l then Some NaN else None.
Proof.
  unfold calculateIncentiveSummary. cbn [by_status].
  rewrite incentive_fold_by_status. cbn [by_status].
  case_bool_decide as Hst.
  - rewrite (post_increment_counts status l _ st 0); [done|].
    destruct Hst as [-> | [-> | ->]]; reflexivity.
  - assert (Hnone : ({[ "Active" := num_zero; "Upcoming" := num_zero;
                        "Expired" := num_zero ]} : gmap string num) !! st = None).
    { destruct (known_status_cases st) as [?|(? & ? & ?)]; [done|].
      rewrite !lookup_insert_ne by done. by apply lookup_singleton_ne. }
    rewrite (post_increment_uncounted status l _ st) by auto.
    by rewrite Hnone.
Qed.

Lemma by_status_known `{Builtins} (l : list Incentive) :
  Forall (λ i, known_status (status i)) l →
  by_status (calculateIncentiveSummary l)
  = {[ "Active" := num_of_nat (count_of (has_status "Active") l);
       "Upcoming" := num_of_nat (count_of (has_status "Upcoming") l);
       "Expired" := num_of_nat (count_of (has_status "Expired") l) ]}.
Proof.
  intros Hall. apply map_eq. intros st. rewrite by_status_lookup.
  case_bool_decide as Hst.
  - destruct Hst as [-> | [-> | ->]]; reflexivity.
  - assert (Hne : st ≠ "Active" ∧ st ≠ "Upcoming" ∧ st ≠ "Expired").
    { destruct (known_status_cases st) as [?|?]; done. }
    destruct Hne as (? & ? & ?).
    rewrite !lookup_insert_ne by done. rewrite lookup_singleton_ne by done.
    destruct (existsb (has_status st) l) eqn:Hex; [|done].
    apply existsb_exists in Hex as (i & Hi & Hsti).
    apply String.eqb_eq in Hsti.
    rewrite Forall_forall in Hall. apply list_elem_of_In, Hall in Hi.
    rewrite Hsti in Hi. done.
Qed.

(** X8. The status counts of the incentive summary.  Each of the three
    initialised statuses holds the number of incentives with that status.
    Any other status string is counted with [obj[key]++] on a missing
    property and holds [NaN].  When every status is one of the three, as
    for the incentives that the fetch processes, the counts add up to the
    number of incentives. *)
Theorem incentive_status_counts (host : Builtins) (l : list Incentive) :
  let counts := by_status (calculateIncentiveSummary l) in
  (∀ st, known_status st →
         counts !! st = Some (num_of_nat (count_of (has_status st) l))) ∧
  (∀ st, ¬ known_status st →
         counts !! st = if existsb (has_status st) l then Some NaN else None) ∧
  (Forall (λ i, known_status (status i)) l →
   count_total counts = num_of_nat (length l)).
Proof.
  intros counts. subst counts. split; [|split].
  - intros st Hst. by rewrite by_status_lookup, bool_decide_true.
  - intros st Hst. by rewrite by_status_lookup, bool_decide_false.
  - intros Hall. rewrite by_status_known, count_total_three by done.
    change num_zero with (num_of_nat 0). rewrite !num_add_of_nat.
    f_equal. rewrite <- (status_partition l Hall). lia.
Qed.

(** X9. Every incentive is counted once under its make and once under
    its type, a missing make or type under the key that it prints as
    (["undefined"]): each entry is the number of incentives with that key,
    no entry is zero, and the entries of each map add up to the number of
    incentives.  This is for incentives whose make and type print as a
    [plain_key]: under the name of a member of [Object.prototype] the
    counter of the code finds the inherited member instead of a count. *)
Theorem incentive_group_counts (host : Builtins) (l : list Incentive) :
  Forall (λ i, plain_key (make_key i) ∧ plain_key (type_key i)) l →
  let summary := calculateIncentiveSummary l in
  (∀ k, counted (IncentiveFetcher.by_make summary) k
                (count_of (λ i, String.eqb (make_key i) k) l)) ∧
  (∀ k, counted (by_type summary) k
                (count_of (λ i, String.eqb (type_key i) k) l)) ∧
  count_total (IncentiveFetcher.by_make summary) = num_of_nat (length l) ∧
  count_total (by_type summary) = num_of_nat (length l).
Proof.
  intros _ summary. subst summary. unfold calculateIncentiveSummary.
  cbn [IncentiveFetcher.by_make by_type].
  rewrite incentive_fold_by_make, incentive_fold_by_type.
  cbn [IncentiveFetcher.by_make by_type].
  split; [|split; [|split]].
  - intros k. by apply (counted_foldl make_key l ∅ k 0).
  - intros k. by apply (counted_foldl type_key l ∅ k 0).
  - by apply (natural_foldl make_key l ∅ 0 natural_counts_empty).
  - by apply (natural_foldl type_key l ∅ 0 natural_counts_empty).
Qed.

Lemma incentive_group_counts_witness :
  Forall (λ i, plain_key (make_key (H:=example_host) i)
               ∧ plain_key (type_key (H:=example_host) i))
         [rebate 2500 10; rebate 500 40] ∧
  counted (IncentiveFetcher.by_make
             (calculateIncentiveSummary (H:=example_host)
                [rebate 2500 10; rebate 500 40])) "Honda" 2 ∧
  counted (by_type
             (calculateIncentiveSummary (H:=example_host)
                [rebate 2500 10; rebate 500 40])) "rebate" 2.
Proof.
  assert (Hplain : Forall (λ i, plain_key (make_key (H:=example_host) i)
                                ∧ plain_key (type_key (H:=example_host) i))
                          [rebate 2500 10; rebate 500 40])
    by (repeat constructor; compute_done).
  split; [exact Hplain|].
  destruct (incentive_group_counts example_host _ Hplain) as (Hmake & Htype & _).
  split; [exact (Hmake "Honda")|exact (Htype "rebate")].
Defined.

(* ===================================================================== *)
(** ** Statistics by vehicle line *)
(* ===================================================================== *)

Lemma same_value_zero_sym (a b : jsval) :
  same_value_zero a b = same_value_zero b a.
Proof.
  destruct a as [| |x|x|s|?|?], b as [| |y|y|t|?|?]; try reflexivity;
    try (by destruct x); try (by destruct y).
  - destruct x as [| | |x], y as [| | |y]; try reflexivity.
    simpl. apply andb_comm.
  - simpl. apply String.eqb_sym.
Qed.

Lemma no_repeats_snoc (l : list jsval) (v : jsval) :
  no_repeats l = true → existsb (same_value_zero v) l = false →
  no_repeats (l ++ [v]) = true.
Proof.
  induction l as [|x l IH]; [done|]. cbn [no_repeats existsb app].
  intros [Hx Hl]%andb_true_iff [Hvx Hv]%orb_false_iff.
  apply negb_true_iff in Hx. rewrite <- app_comm_cons. cbn [no_repeats].
  rewrite IH by done.
  rewrite existsb_app, Hx. cbn [existsb].
  by rewrite same_value_zero_sym, Hvx.
Qed.

Lemma Set_add_no_repeats (v : jsval) (set : list jsval) :
  no_repeats set = true → no_repeats (Set_add v set) = true.
Proof.
  intros Hset. unfold Set_add.
  destruct (existsb (same_value_zero v) set) eqn:Hv; [done|].
  by apply no_repeats_snoc.
Qed.

Lemma Set_has_add (v : jsval) (set : list jsval) : Set_has v (Set_add v set).
Proof.
  unfold Set_has, Set_add.
  destruct (existsb (same_value_zero v) set) eqn:Hv; [by right|].
  left. apply elem_of_app. right. apply list_elem_of_here.
Qed.

Lemma Set_has_keep (v w : jsval) (set : list jsval) :
  Set_has v set → Set_has v (Set_add w set).
Proof.
  unfold Set_has, Set_add. intros Hv.
  destruct (existsb (same_value_zero w) set); [done|].
  destruct Hv as [Hv|Hv].
  - left. apply elem_of_app. by left.
  - right. by rewrite existsb_app, Hv.
Qed.

Section IncentiveLines.
Context `{Builtins}.

Lemma incentive_line_step (s : IncentiveSummary) (i : Incentive) (line : string)
    (c : nat) (seen : list jsval) :
  incentive_line_state (IncentiveFetcher.vehicle_lines s !! line) c seen →
  incentive_line_state
    (IncentiveFetcher.vehicle_lines (IncentiveFetcher.summary_step s i) !! line)
    ((if on_line line i then 1 else 0) + c)
    ((if on_line line i then [incentive_type i] else []) ++ seen).
Proof.
  unfold on_line. cbn [IncentiveFetcher.summary_step IncentiveFetcher.vehicle_lines].
  destruct (String.eqb_spec (IncentiveFetcher.vehicle_line i) line) as [->|Hne].
  - rewrite lookup_insert_eq.
    destruct (IncentiveFetcher.vehicle_lines s !! line)
      as [ls|]; cbn [default from_option id incentive_line_state
                     IncentiveFetcher.count types].
    + intros (Hc & Hcount & Hnr & Hseen). split; [lia|]. split.
      { rewrite Hcount. change num_one with (num_of_nat 1).
        rewrite num_add_of_nat. f_equal. lia. }
      split; [by apply Set_add_no_repeats|].
      intros v [->|Hv]%elem_of_cons; [apply Set_has_add|].
      by apply Set_has_keep, Hseen.
    + intros [-> ->]. split; [lia|]. split; [reflexivity|]. split; [reflexivity|].
      intros v [->|Hv]%elem_of_cons; [apply Set_has_add|].
      by apply elem_of_nil in Hv.
  - by rewrite lookup_insert_ne.
Qed.

Lemma incentive_line_foldl (l : list Incentive) (s : IncentiveSummary)
    (line : string) (c : nat) (seen : list jsval) :
  incentive_line_state (IncentiveFetcher.vehicle_lines s !! line) c seen →
  ∃ seen',
    incentive_line_state
      (IncentiveFetcher.vehicle_lines (foldl IncentiveFetcher.summary_step s l) !! line)
      (c + count_of (on_line line) l) seen' ∧
    (∀ v, v ∈ seen → v ∈ seen') ∧
    (∀ i, i ∈ l → on_line line i = true → incentive_type i ∈ seen').
Proof.
  revert s c seen. induction l as [|i l IH]; intros s c seen Hs.
  - exists seen. cbn [foldl]. unfold count_of. cbn. rewrite Nat.add_0_r.
    split; [done|]. split; [done|]. intros i Hi. by apply elem_of_nil in Hi.
  - apply (incentive_line_step s i line) in Hs.
    destruct (IH _ _ _ Hs) as (seen' & Hst & Hkeep & Hnew).
    exists seen'. cbn [foldl]. rewrite count_of_cons.
    rewrite Nat.add_assoc, (Nat.add_comm c). split; [done|]. split.
    + intros v Hv. apply Hkeep, elem_of_app. by right.
    + intros j [->|Hj]%elem_of_cons Hline; [|by apply Hnew].
      apply Hkeep. rewrite Hline. apply list_elem_of_here.
Qed.
End IncentiveLines.

(** X10. The statistics of a vehicle line in the incentive summary.  A
    line has an entry exactly when some incentive is on it; its count is
    the number of those incentives, hence never zero; its [types] lists
    every type of those incentives and no value twice.  This is for
    incentives whose vehicle line is a [plain_key]: for a line named as a
    member of [Object.prototype] the code creates no entry and throws. *)
Theorem incentive_line_statistics (host : Builtins) (l : list Incentive)
    (line : string) :
  Forall (λ i, plain_key (IncentiveFetcher.vehicle_line i)) l →
  let lines := IncentiveFetcher.vehicle_lines (calculateIncentiveSummary l) in
  (lines !! line = None ↔ count_of (on_line line) l = 0%nat) ∧
  ∀ ls, lines !! line = Some ls →
        (0 < count_of (on_line line) l)%nat ∧
        IncentiveFetcher.count ls = num_of_nat (count_of (on_line line) l) ∧
        no_repeats (types ls) = true ∧
        ∀ i, i ∈ l → on_line line i = true → Set_has (incentive_type i) (types ls).
Proof.
  intros _ lines.
  destruct (incentive_line_foldl l
              {| total_incentives := num_of_nat (length l);
                 IncentiveFetcher.by_make := ∅; by_type := ∅;
                 by_status := {[ "Active" := num_zero; "Upcoming" := num_zero;
                                 "Expired" := num_zero ]};
                 IncentiveFetcher.total_value := num_zero;
                 average_value := num_zero;
                 IncentiveFetcher.vehicle_lines := ∅;
                 high_value_incentives := []; expiring_soon := [] |}
              line 0 []) as (seen & Hst & _ & Hnew).
  { cbn [IncentiveFetcher.vehicle_lines]. by rewrite lookup_empty. }
  change (IncentiveFetcher.vehicle_lines (foldl _ _ l)) with lines in Hst.
  cbn [Nat.add] in Hst.
  destruct (lines !! line) as [ls|]; cbn [incentive_line_state] in Hst.
  - destruct Hst as (Hc & Hcount & Hnr & Hseen). split.
    + split; [discriminate|lia].
    + intros ? [= <-]. repeat (split; [done|]).
      intros i Hi Hline. by apply Hseen, Hnew.
  - destruct Hst as [Hc _]. split; [done|]. discriminate.
Qed.

Lemma incentive_line_statistics_witness :
  Forall (λ i, plain_key (IncentiveFetcher.vehicle_line i))
         [rebate 2500 10; rebate 500 40] ∧
  ∃ ls, IncentiveFetcher.vehicle_lines
          (calculateIncentiveSummary (H:=example_host)
             [rebate 2500 10; rebate 500 40]) !! "2024 Honda Civic" = Some ls ∧
        IncentiveFetcher.count ls = num_of_nat 2 ∧
        no_repeats (types ls) = true.
Proof.
  assert (Hplain : Forall (λ i, plain_key (IncentiveFetcher.vehicle_line i))
                          [rebate 2500 10; rebate 500 40])
    by (repeat constructor; compute_done).
  split; [exact Hplain|].
  destruct (incentive_line_statistics example_host _ "2024 Honda Civic" Hplain)
    as [_ Hentry].
  eexists. split; [vm_compute; reflexivity|].
  match goal with
  | |- IncentiveFetcher.count ?ls = _ ∧ _ =>
      destruct (Hentry ls) as (_ & Hcount & Hnr & _); [vm_compute; reflexivity|]
  end.
  split; [exact Hcount|exact Hnr].
Defined.

(* ===================================================================== *)
(** ** The inventory summary, field by field *)
(* ===================================================================== *)

Lemma inventory_fold_by_make st l :
  InventoryIngestor.by_make (foldl InventoryIngestor.summary_step st l).1
  = foldl (λ m v, (incrementCounter m (vehicle_make_key v) num_one).1)
          (InventoryIngestor.by_make st.1) l.
Proof.
  revert st. induction l as [|v l IH]; intros [s t]; [done|].
  cbn [foldl]. by rewrite IH.
Qed.

Lemma inventory_fold_by_aging st l :
  by_aging (foldl InventoryIngestor.summary_step st l).1
  = foldl (λ m v, post_increment m (vehicle_aging_key v)) (by_aging st.1) l.
Proof.
  revert st. induction l as [|v l IH]; intros [s t]; [done|].
  cbn [foldl]. by rewrite IH.
Qed.

Lemma inventory_fold_totalDays st l :
  (foldl InventoryIngestor.summary_step st l).2
  = foldl (λ t v, num_add t (default NaN (days_on_lot v))) st.2 l.
Proof.
  revert st. induction l as [|v l IH]; intros [s t]; [done|].
  cbn [foldl]. by rewrite IH.
Qed.

Lemma calculateInventorySummary_unfold (l : list Vehicle) :
  calculateInventorySummary l
  = let st := foldl InventoryIngestor.summary_step
                (initial_inventory_summary (length l), num_zero) l in
    {| total_vehicles := total_vehicles st.1;
       InventoryIngestor.by_make := InventoryIngestor.by_make st.1;
       by_aging := by_aging st.1;
       average_days_on_lot :=
         Math_round (num_div st.2 (num_of_nat (length l)));
       total_msrp_value := total_msrp_value st.1;
       InventoryIngestor.vehicle_lines :=
         line_average <$> InventoryIngestor.vehicle_lines st.1 |}.
Proof.
  unfold calculateInventorySummary, initial_inventory_summary.
  by destruct (foldl InventoryIngestor.summary_step _ l).
Qed.

Lemma count_total_four (a b c d : num) :
  count_total ({[ "Fresh" := a; "Aging" := b; "Stale" := c; "Critical" := d ]}
                 : gmap string num)
  = num_add (num_add (num_add (num_add num_zero d) c) b) a.
Proof.
  rewrite <- (insert_empty (M:=gmap string) "Critical" d).
  rewrite !count_total_insert by done.
  unfold count_total. by rewrite map_fold_empty.
Qed.

Lemma known_aging_key_cases (c : string) :
  known_aging_key c ∨ (c ≠ "Fresh" ∧ c ≠ "Aging" ∧ c ≠ "Stale" ∧ c ≠ "Critical").
Proof.
  unfold known_aging_key.
  destruct (decide (c = "Fresh")); [auto|].
  destruct (decide (c = "Aging")); [auto|].
  destruct (decide (c = "Stale")); [auto|].
  destruct (decide (c = "Critical")); auto.
Qed.

Lemma aging_partition (l : list Vehicle) :
  Forall (λ v, known_aging_key (vehicle_aging_key v)) l →
  (count_of (λ v, String.eqb (vehicle_aging_key v) "Critical") l
   + count_of (λ v, String.eqb (vehicle_aging_key v) "Stale") l
   + count_of (λ v, String.eqb (vehicle_aging_key v) "Aging") l
   + count_of (λ v, String.eqb (vehicle_aging_key v) "Fresh") l = length l)%nat.
Proof.
  induction 1 as [|v l Hv _ IH]; [done|].
  rewrite !count_of_cons. cbn [length].
  destruct Hv as [-> | [-> | [-> | ->]]]; cbn; lia.
Qed.

Lemma by_aging_lookup (l : list Vehicle) (c : string) :
  by_aging (calculateInventorySummary l) !! c
  = if bool_decide (known_aging_key c)
    then Some (num_of_nat (count_of (λ v, String.eqb (vehicle_aging_key v) c) l))
    else if existsb (λ v, String.eqb (vehicle_aging_key v) c) l
         then Some NaN else None.
Proof.
  rewrite calculateInventorySummary_unfold. cbn zeta. cbn [by_aging].
  rewrite inventory_fold_by_aging.
  cbn [fst initial_inventory_summary by_aging].
  case_bool_decide as Hc.
  - rewrite (post_increment_counts vehicle_aging_key l _ c 0); [done|].
    destruct Hc as [-> | [-> | [-> | ->]]]; reflexivity.
  - assert (Hnone : ({[ "Fresh" := num_zero; "Aging" := num_zero;
                        "Stale" := num_zero; "Critical" := num_zero ]}
                       : gmap string num) !! c = None).
    { destruct (known_aging_key_cases c) as [?|(? & ? & ? & ?)]; [done|].
      rewrite !lookup_insert_ne by done. by apply lookup_singleton_ne. }
    rewrite (post_increment_uncounted vehicle_aging_key l _ c) by auto.
    by rewrite Hnone.
Qed.

(** X11. The counts of the inventory summary, for vehicles whose make
    is a [plain_key] (under the name of a member of [Object.prototype]
    the code finds the inherited member instead of a count).  Every
    vehicle is counted once under its make (a missing make under
    ["undefined"]), so the entries of [by_make] are positive and add up
    to the number of vehicles.  Each of the four aging categories holds
    the number of vehicles in it; any other category but [__proto__],
    such as the missing one of a vehicle without metrics, holds [NaN].
    When every vehicle has one of the four categories, the aging counts
    add up to the number of vehicles. *)
Theorem inventory_counts (l : list Vehicle) :
  Forall (λ v, plain_key (vehicle_make_key v)) l →
  let summary := calculateInventorySummary l in
  (∀ k, counted (InventoryIngestor.by_make summary) k
                (count_of (λ v, String.eqb (vehicle_make_key v) k) l)) ∧
  count_total (InventoryIngestor.by_make summary) = num_of_nat (length l) ∧
  (∀ c, known_aging_key c →
        by_aging summary !! c
        = Some (num_of_nat (count_of (λ v, String.eqb (vehicle_aging_key v) c) l))) ∧
  (∀ c, ¬ known_aging_key c → c ≠ "__proto__" →
        by_aging summary !! c
        = if existsb (λ v, String.eqb (vehicle_aging_key v) c) l
          then Some NaN else None) ∧
  (Forall (λ v, known_aging_key (vehicle_aging_key v)) l →
   count_total (by_aging summary) = num_of_nat (length l)).
Proof.
  intros _ summary.
  assert (Hknown : ∀ c, known_aging_key c →
            by_aging summary !! c
            = Some (num_of_nat (count_of (λ v, String.eqb (vehicle_aging_key v) c) l))).
  { intros c Hc. subst summary. by rewrite by_aging_lookup, bool_decide_true. }
  assert (Hother : ∀ c, ¬ known_aging_key c →
            by_aging summary !! c
            = if existsb (λ v, String.eqb (vehicle_aging_key v) c) l
              then Some NaN else None).
  { intros c Hc. subst summary. by rewrite by_aging_lookup, bool_decide_false. }
  split; [|split; [|split; [done|split; [by intros c Hc _; apply Hother|]]]].
  - intros k. subst summary. rewrite calculateInventorySummary_unfold.
    cbn zeta. cbn [InventoryIngestor.by_make]. rewrite inventory_fold_by_make.
    by apply (counted_foldl vehicle_make_key l ∅ k 0).
  - subst summary. rewrite calculateInventorySummary_unfold.
    cbn zeta. cbn [InventoryIngestor.by_make]. rewrite inventory_fold_by_make.
    by apply (natural_foldl vehicle_make_key l ∅ 0 natural_counts_empty).
  - intros Hall.
    assert (Hmap : by_aging summary
              = {[ "Fresh" := num_of_nat (count_of (λ v, String.eqb (vehicle_aging_key v) "Fresh") l);
                   "Aging" := num_of_nat (count_of (λ v, String.eqb (vehicle_aging_key v) "Aging") l);
                   "Stale" := num_of_nat (count_of (λ v, String.eqb (vehicle_aging_key v) "Stale") l);
                   "Critical" := num_of_nat (count_of (λ v, String.eqb (vehicle_aging_key v) "Critical") l) ]}).
    { apply map_eq. intros c.
      destruct (known_aging_key_cases c) as [Hc|(Hf & Ha & Hs & Hcr)].
      - rewrite Hknown by done.
        destruct Hc as [-> | [-> | [-> | ->]]]; reflexivity.
      - rewrite Hother by (intros [?|[?|[?|?]]]; done).
        rewrite !lookup_insert_ne by done. rewrite lookup_singleton_ne by done.
        destruct (existsb _ l) eqn:Hex; [|done].
        apply existsb_exists in Hex as (v & Hv & Hc).
        apply String.eqb_eq in Hc.
        rewrite Forall_forall in Hall. apply list_elem_of_In, Hall in Hv.
        rewrite Hc in Hv. destruct Hv as [?|[?|[?|?]]]; done. }
    rewrite Hmap, count_total_four.
    change num_zero with (num_of_nat 0). rewrite !num_add_of_nat.
    f_equal. rewrite <- (aging_partition l Hall). lia.
Qed.

Lemma inventory_counts_witness :
  Forall (λ v, plain_key (vehicle_make_key v)) [civic 25000 10; civic 27000 45] ∧
  counted (InventoryIngestor.by_make
             (calculateInventorySummary [civic 25000 10; civic 27000 45]))
          "Honda" 2 ∧
  by_aging (calculateInventorySummary [civic 25000 10; civic 27000 45]) !! "Aging"
  = Some (num_of_nat 1).
Proof.
  assert (Hplain : Forall (λ v, plain_key (vehicle_make_key v))
                          [civic 25000 10; civic 27000 45])
    by (repeat constructor; compute_done).
  split; [exact Hplain|].
  destruct (inventory_counts _ Hplain) as (Hmake & _ & Haging & _).
  split; [exact (Hmake "Honda")|].
  apply (Haging "Aging"). right. by left.
Defined.

Lemma num_add_NaN_r (x : num) : num_add x NaN = NaN.
Proof. by destruct x. Qed.

Lemma foldl_days_NaN (l : list Vehicle) (t : num) :
  t = NaN ∨ Exists (λ v, days_on_lot v = None) l →
  foldl (λ t v, num_add t (default NaN (days_on_lot v))) t l = NaN.
Proof.
  revert t. induction l as [|v l IH]; intros t [Ht|Hex]; cbn [foldl].
  - done.
  - by apply Exists_nil in Hex.
  - apply IH. left. by rewrite Ht.
  - apply IH. apply Exists_cons in Hex as [Hv|Hex]; [|by right].
    left. rewrite Hv. apply num_add_NaN_r.
Qed.

Lemma average_without_days (l : list Vehicle) :
  Exists (λ v, days_on_lot v = None) l →
  average_days_on_lot (calculateInventorySummary l) = NaN.
Proof.
  intros Hex. rewrite calculateInventorySummary_unfold.
  cbn zeta. cbn [average_days_on_lot].
  rewrite inventory_fold_totalDays, foldl_days_NaN by auto. done.
Qed.

Lemma by_aging_without_category (l : list Vehicle) :
  Exists (λ v, aging_category v = None) l →
  by_aging (calculateInventorySummary l) !! "undefined" = Some NaN.
Proof.
  intros Hex.
  rewrite by_aging_lookup, bool_decide_false by (intros [?|[?|[?|?]]]; done).
  assert (existsb (λ v, String.eqb (vehicle_aging_key v) "undefined") l = true) as ->;
    [|done].
  apply existsb_exists. apply Exists_exists in Hex as (v & Hv & Hnone).
  exists v. split; [by apply list_elem_of_In|].
  unfold vehicle_aging_key. by rewrite Hnone.
Qed.

(** X12. When a vehicle comes without its metrics (they are computed
    per row only if [calculate_metrics] is set), the summary is poisoned:
    [average_days_on_lot] is [NaN] and [by_aging] gains the key
    ["undefined"] holding [NaN], while the four aging categories still
    hold the numbers of the vehicles that have them. *)
Theorem inventory_without_metrics (l : list Vehicle) :
  (Exists (λ v, days_on_lot v = None) l →
   average_days_on_lot (calculateInventorySummary l) = NaN) ∧
  (Exists (λ v, aging_category v = None) l →
   by_aging (calculateInventorySummary l) !! "undefined" = Some NaN ∧
   ∀ c, known_aging_key c →
        by_aging (calculateInventorySummary l) !! c
        = Some (num_of_nat (count_of (λ v, String.eqb (vehicle_aging_key v) c) l))).
Proof.
  split; [apply average_without_days|].
  intros Hex. split; [by apply by_aging_without_category|].
  intros c Hc. by rewrite by_aging_lookup, bool_decide_true.
Qed.

Lemma foldl_filter {A B : Type} (f : B → A → B) (p : A → bool) (l : list A) (b : B) :
  foldl (λ acc x, if p x then f acc x else acc) b l = foldl f b (List.filter p l).
Proof.
  revert b. induction l as [|x l IH]; intros b; [done|]. cbn [foldl List.filter].
  destruct (p x); by rewrite IH.
Qed.

Lemma inventory_line_step (st : InventorySummary * num) (v : Vehicle)
    (line : string) (c : nat) (days value : num) :
  (c = 0%nat → days = num_zero ∧ value = num_zero) →
  inventory_line_state (InventoryIngestor.vehicle_lines st.1 !! line) c days value →
  inventory_line_state
    (InventoryIngestor.vehicle_lines (InventoryIngestor.summary_step st v).1 !! line)
    ((if in_line line v then 1 else 0) + c)
    (if in_line line v then num_add days (vehicle_days v) else days)
    (if in_line line v then num_add value (msrp v) else value).
Proof.
  destruct st as [s t]. unfold in_line.
  cbn [InventoryIngestor.summary_step InventoryIngestor.vehicle_lines fst].
  destruct (String.eqb_spec (prop_key (InventoryIngestor.vehicle_line v)) line)
    as [->|Hne].
  - rewrite lookup_insert_eq.
    destruct (InventoryIngestor.vehicle_lines s !! line) as [ls|];
      cbn [default from_option id inventory_line_state InventoryIngestor.count
           total_days InventoryIngestor.total_value avg_days].
    + intros _ (Hc & Hcount & Hdays & Hvalue & Havg).
      split; [lia|]. rewrite Hcount, Hdays, Hvalue.
      change num_one with (num_of_nat 1). rewrite num_add_of_nat.
      repeat split; [f_equal; lia|done].
    + intros Hzero ->. destruct (Hzero eq_refl) as [-> ->].
      split; [lia|]. repeat split.
  - rewrite lookup_insert_ne by done. done.
Qed.

Lemma inventory_line_foldl (l : list Vehicle) (st : InventorySummary * num)
    (line : string) (c : nat) (days value : num) :
  (c = 0%nat → days = num_zero ∧ value = num_zero) →
  inventory_line_state (InventoryIngestor.vehicle_lines st.1 !! line) c days value →
  inventory_line_state
    (InventoryIngestor.vehicle_lines (foldl InventoryIngestor.summary_step st l).1 !! line)
    (c + count_of (in_line line) l)
    (foldl (λ t v, num_add t (vehicle_days v)) days (List.filter (in_line line) l))
    (foldl (λ t v, num_add t (msrp v)) value (List.filter (in_line line) l)).
Proof.
  revert st c days value. induction l as [|v l IH]; intros st c days value Hz Hst.
  - cbn [foldl List.filter]. unfold count_of. cbn. by rewrite Nat.add_0_r.
  - apply (inventory_line_step st v line) in Hst; [|done].
    apply IH in Hst.
    + cbn [foldl]. rewrite count_of_cons, Nat.add_assoc, (Nat.add_comm c).
      cbn [List.filter]. by destruct (in_line line v).
    + destruct (in_line line v); [lia|done].
Qed.

(** X13. The statistics of a vehicle line in the inventory summary
    depend on the vehicles of that line only.  A line has an entry
    exactly when some vehicle is on it; its count is the number of those
    vehicles, its totals are their days and MSRP added in input order, and
    its [avg_days] is the rounded quotient of the two.  The count is never
    zero, so a line average never divides by zero. *)
Theorem inventory_line_statistics (l : list Vehicle) (line : string) :
  let lines := InventoryIngestor.vehicle_lines (calculateInventorySummary l) in
  let on_line := List.filter (in_line line) l in
  (lines !! line = None ↔ on_line = []) ∧
  ∀ ls, lines !! line = Some ls →
        (0 < length on_line)%nat ∧
        InventoryIngestor.count ls = num_of_nat (length on_line) ∧
        total_days ls = foldl (λ t v, num_add t (vehicle_days v)) num_zero on_line ∧
        InventoryIngestor.total_value ls
        = foldl (λ t v, num_add t (msrp v)) num_zero on_line ∧
        avg_days ls
        = Math_round (num_div (total_days ls) (num_of_nat (length on_line))).
Proof.
  intros lines on_line.
  pose proof (inventory_line_foldl l (initial_inventory_summary (length l), num_zero)
                line 0 num_zero num_zero (λ _, conj eq_refl eq_refl)) as Hst.
  cbn [fst initial_inventory_summary InventoryIngestor.vehicle_lines] in Hst.
  rewrite lookup_empty in Hst. specialize (Hst eq_refl).
  cbn [Nat.add] in Hst. fold on_line in Hst.
  change (count_of (in_line line) l) with (length on_line) in Hst.
  subst lines. rewrite calculateInventorySummary_unfold.
  cbn zeta. cbn [InventoryIngestor.vehicle_lines]. rewrite lookup_fmap.
  destruct (InventoryIngestor.vehicle_lines
              (foldl InventoryIngestor.summary_step _ l).1 !! line) as [ls|];
    cbn [inventory_line_state fmap option_fmap option_map] in *.
  - destruct Hst as (Hc & Hcount & Hdays & Hvalue & _). split.
    + split; [discriminate|]. intros Hnil. rewrite Hnil in Hc. cbn in Hc. lia.
    + intros ? [= <-]. cbn [line_average InventoryIngestor.count total_days
                            InventoryIngestor.total_value avg_days].
      by rewrite Hcount, Hdays, Hvalue.
  - split; [|discriminate]. split; [|done]. intros _.
    by apply length_zero_iff_nil.
Qed.

(* ===================================================================== *)
(** ** The generic aggregator: errors, keys, transform *)
(* ===================================================================== *)

Section AggregatorErrors.
Context `{Builtins}.

Lemma count_group_TypeError t s f e :
  count_group t s f = Throw e → app e = None.
Proof.
  unfold count_group. destruct (not_nullish (get t f)); [|discriminate].
  destruct (s !! by_key f) as [[| |]|]; intros [= <-]; done.
Qed.

Lemma forEach_TypeError {A S : Type} (body : S → A → result S) (xs : list A)
    (s : S) (e : JsError) :
  (∀ s x e, body s x = Throw e → app e = None) →
  forEach body xs s = Throw e → app e = None.
Proof.
  intros Hbody. revert s. induction xs as [|x xs IH]; intros s; cbn [forEach].
  - discriminate.
  - destruct (body s x) as [s'|e'] eqn:Hx; cbn.
    + apply IH.
    + intros [= <-]. by apply (Hbody s x).
Qed.

Lemma processItem_TypeError config s item e :
  processItem config s item = Throw e → app e = None.
Proof.
  unfold processItem.
  destruct (forEach _ (groupByFields config) s) as [s'|e'] eqn:Hg; cbn;
    [discriminate|].
  intros [= <-]. apply (forEach_TypeError _ _ _ _ (count_group_TypeError _) Hg).
Qed.

Lemma calculateSummary_TypeError items config e :
  calculateSummary items config = Throw e → app e = None.
Proof.
  unfold calculateSummary.
  destruct (forEach _ items _) as [s'|e'] eqn:Hl; cbn; [discriminate|].
  intros [= <-]. apply (forEach_TypeError _ _ _ _ (processItem_TypeError config) Hl).
Qed.

(** The transform is applied to each item before anything is read. *)
Lemma processItem_transform config s item :
  processItem config s item
  = processItem (without_transform config) s (itemTransform config item).
Proof. reflexivity. Qed.

Lemma forEach_map {A B S : Type} (body : S → B → result S) (g : A → B)
    (xs : list A) (s : S) :
  forEach body (map g xs) s = forEach (λ s x, body s (g x)) xs s.
Proof.
  revert s. induction xs as [|x xs IH]; intros s; [done|]. cbn [map forEach].
  destruct (body s (g x)); cbn; [apply IH|done].
Qed.
End AggregatorErrors.

(** X14. A shared key makes the aggregator throw.  When the
    [by_<field>] key of a group field is also the key of a sum field,
    the key holds a number, and one record with a value to count for
    that field (any value but one that prints as [__proto__]) makes the
    whole aggregation throw; what is thrown is not an [AppError].  (The
    records are objects and the transform is total.) *)
Theorem calculateSummary_throws_on_collision (host : Builtins)
    (items : list (gmap string jsval)) (config : Config)
    (item : gmap string jsval) (f : string) :
  item ∈ items →
  f ∈ groupByFields config →
  by_key f ∈ sum_keys config →
  not_nullish (get (itemTransform config item) f) = true →
  ToString (get (itemTransform config item) f) ≠ "__proto__" →
  ∃ e, calculateSummary items config = Throw e ∧ app e = None.
Proof.
  intros Hitem Hf Hkey Hvalue _.
  destruct (calculateSummary_throws items config) as [e He].
  - apply existsb_exists. exists item. split; [by apply list_elem_of_In|].
    unfold throwing_item. apply existsb_exists. exists f.
    split; [by apply list_elem_of_In|].
    by rewrite Hvalue, bool_decide_true.
  - exists e. split; [done|]. by apply (calculateSummary_TypeError items config).
Qed.

Lemma calculateSummary_throws_on_collision_witness :
  ∃ e, calculateSummary (H:=example_host) testData group_key_is_sum_key = Throw e
       ∧ app e = None.
Proof.
  apply (calculateSummary_throws_on_collision example_host testData
           group_key_is_sum_key
           (record_of [("make", VStr "Honda"); ("type", VStr "sedan");
                       ("price", VNum (num_of_Z 25000));
                       ("quantity", VNum (num_of_Z 10))])
           "make").
  - apply list_elem_of_here.
  - apply list_elem_of_here.
  - compute_done.
  - reflexivity.
  - discriminate.
Defined.

(** X15. The transform composes with the aggregation: aggregating with
    an [itemTransform] is aggregating the transformed records without
    one. *)
Theorem calculateSummary_transform (host : Builtins)
    (items : list (gmap string jsval)) (config : Config) :
  calculateSummary items config
  = calculateSummary (map (itemTransform config) items) (without_transform config).
Proof.
  unfold calculateSummary. rewrite length_map, forEach_map. reflexivity.
Qed.

Section AggregatorKeys.
Context `{Builtins}.

Lemma foldl_group_entry_is_Some t k fs o :
  is_Some (foldl (group_entry t k) o fs) ↔ is_Some o.
Proof.
  revert o. induction fs as [|f fs IH]; intros o; cbn [foldl]; [done|].
  rewrite IH. unfold group_entry. case_decide; [|done].
  destruct (not_nullish (get t f)); [|done]. apply fmap_is_Some.
Qed.

Lemma foldl_sum_entry_is_Some t k sfs o :
  is_Some (foldl (sum_entry t k) o sfs) ↔ is_Some o ∨ k ∈ map key sfs.
Proof.
  revert o. induction sfs as [|sf sfs IH]; intros o; cbn [foldl map].
  - split; [auto|]. intros [?|Hk]; [done|]. by apply elem_of_nil in Hk.
  - rewrite IH, elem_of_cons. unfold sum_entry. case_decide as Hk.
    + split; [auto|]. intros _. left. eauto.
    + split; [intros [?|?]; auto|].
      intros [?|[?|?]]; auto. by subst.
Qed.

Lemma item_entry_is_Some config k o item :
  is_Some (item_entry config k o item) ↔ is_Some o ∨ k ∈ sum_keys config.
Proof.
  unfold item_entry. by rewrite foldl_sum_entry_is_Some, foldl_group_entry_is_Some.
Qed.

Lemma loop_entry_is_Some config k o items :
  is_Some o ∨ k ∈ sum_keys config → is_Some o →
  is_Some (foldl (item_entry config k) o items).
Proof.
  revert o. induction items as [|item items IH]; intros o Hk Ho; cbn [foldl]; [done|].
  apply IH; [by left; apply item_entry_is_Some; left|].
  apply item_entry_is_Some. by left.
Qed.

Lemma loop_entry_None config k items :
  k ∉ sum_keys config → foldl (item_entry config k) None items = None.
Proof.
  intros Hk. induction items as [|item items IH]; cbn [foldl]; [done|].
  destruct (item_entry config k None item) as [x|] eqn:Hx; [|done].
  assert (is_Some (item_entry config k None item)) as Hs by (rewrite Hx; eauto).
  apply item_entry_is_Some in Hs as [[? [=]]|?]. done.
Qed.

Lemma loop_result_is_Some config items k :
  is_Some (loop_result items config !! k)
  ↔ k = totalKey config ∨ k ∈ group_keys config ∨ k ∈ sum_keys config.
Proof.
  unfold loop_result. rewrite loop_lookup, initial_summary_lookup.
  destruct (decide (k ∈ sum_keys config)) as [Hs|Hs].
  { split; [auto|]. intros _. apply loop_entry_is_Some; eauto. }
  destruct (decide (k ∈ group_keys config)) as [Hg|Hg].
  { split; [auto|]. intros _. apply loop_entry_is_Some; eauto. }
  destruct (decide (k = totalKey config)) as [Ht|Ht].
  { split; [auto|]. intros _. apply loop_entry_is_Some; eauto. }
  rewrite loop_entry_None by done. split.
  - by intros [? [=]].
  - intros [?|[?|?]]; done.
Qed.

Lemma averaging_is_Some n sfs s k :
  is_Some (foldl (average_step n) s sfs !! k)
  ↔ is_Some (s !! k) ∨ ∃ sf, sf ∈ sfs ∧ writes_companion k sf = true.
Proof.
  revert s. induction sfs as [|sf sfs IH]; intros s; cbn [foldl].
  - split; [auto|]. intros [?|(sf & Hsf & _)]; [done|]. by apply elem_of_nil in Hsf.
  - rewrite IH, average_step_lookup.
    destruct (writes_companion k sf) eqn:Hw.
    + split; [|intros _; left; eauto].
      intros _. right. exists sf. split; [apply list_elem_of_here|done].
    + split.
      * intros [?|(sf' & Hsf' & Hw')]; [auto|].
        right. exists sf'. split; [by apply list_elem_of_further|done].
      * intros [?|(sf' & Hsf' & Hw')]; [auto|].
        apply elem_of_cons in Hsf' as [->|Hsf']; [congruence|].
        right. by exists sf'.
Qed.

Lemma companion_key_written (config : Config) (k : string) :
  k ∈ companion_keys config
  ↔ ∃ sf, sf ∈ sumFields config ∧ writes_companion k sf = true.
Proof.
  split.
  - unfold companion_keys, sum_keys.
    intros (k0 & -> & Hk0)%list_elem_of_fmap.
    apply list_elem_of_In, filter_In in Hk0 as [Hk0 Hh].
    apply list_elem_of_In, list_elem_of_fmap in Hk0 as (sf & -> & Hsf).
    exists sf. split; [done|]. by apply writes_companion_true.
  - intros (sf & Hsf & Hw). by apply (writes_companion_key config k sf).
Qed.

Lemma averaged_is_Some n config s k :
  is_Some (averaged n config s !! k)
  ↔ is_Some (s !! k) ∨ ((0 <? n)%nat = true ∧ k ∈ companion_keys config).
Proof.
  unfold averaged. destruct (0 <? n)%nat.
  - rewrite averaging_is_Some, companion_key_written. tauto.
  - split; [auto|]. intros [?|[? _]]; [done|discriminate].
Qed.
End AggregatorKeys.

(** X16. When the aggregator returns, the object has the total-count
    key, one [by_<field>] key per group field, one key per sum field and,
    for a non-empty sequence, one [average_] companion per sum key that
    contains [total_]; it has no other key.  This is for a configuration
    without the sum key [__proto__], the one key that an assignment does
    not create. *)
Theorem calculateSummary_keys (host : Builtins)
    (items : list (gmap string jsval)) (config : Config) (s : gmap string sval) :
  "__proto__" ∉ sum_keys config →
  calculateSummary items config = Ok s →
  ∀ k, is_Some (s !! k) ↔ k ∈ output_keys (length items) config.
Proof.
  intros _ [_ ->]%calculateSummary_Ok k.
  rewrite averaged_is_Some, loop_result_is_Some. unfold output_keys.
  rewrite elem_of_cons, !elem_of_app.
  destruct (0 <? length items)%nat.
  - split.
    + intros [[?|[?|?]]|[_ ?]]; auto.
    + intros [?|[?|[?|?]]]; auto.
  - split.
    + intros [[?|[?|?]]|[? _]]; auto. discriminate.
    + intros [?|[?|[?|Hk]]]; auto. by apply elem_of_nil in Hk.
Qed.

Lemma calculateSummary_keys_witness :
  ("__proto__" ∉ sum_keys testConfig) ∧
  (∃ s, calculateSummary (H:=example_host) testData testConfig = Ok s ∧
        ∀ k, is_Some (s !! k) ↔ k ∈ output_keys (length testData) testConfig).
Proof.
  assert (Hkeys : "__proto__" ∉ sum_keys testConfig) by compute_done.
  split; [exact Hkeys|].
  eexists. split; [vm_compute; reflexivity|].
  apply (calculateSummary_keys example_host testData testConfig _ Hkeys).
  vm_compute. reflexivity.
Defined.

(* ===================================================================== *)
(** ** The generic aggregator: a record without the summed field *)
(* ===================================================================== *)



Section MissingNumbers.
Context `{Builtins}.



End MissingNumbers.



(* ===================================================================== *)
(** ** Dates and numbers of [common-utils] *)
(* ===================================================================== *)

Lemma String_before_app (sep : ascii) (d t : string) :
  contains_char sep d = false →
  String_before sep (d ++ String sep t) = d.
Proof.
  induction d as [|c d IH].
  - intros _. change ("" ++ String sep t) with (String sep t).
    cbn [String_before]. by rewrite Ascii.eqb_refl.
  - change (String c d ++ String sep t) with (String c (d ++ String sep t)).
    cbn [contains_char String_before]. intros [Hc Hd]%orb_false_iff.
    by rewrite Hc, IH.
Qed.

Lemma String_before_clean (sep : ascii) (s : string) :
  contains_char sep (String_before sep s) = false.
Proof.
  induction s as [|c s IH]; [done|]. cbn [String_before].
  destruct (Ascii.eqb c sep) eqn:Hc; [done|]. cbn [contains_char].
  by rewrite Hc, IH.
Qed.

Lemma String_before_prefix (sep : ascii) (s : string) :
  String.prefix (String_before sep s) s = true.
Proof.
  induction s as [|c s IH]; [done|]. cbn [String_before].
  destruct (Ascii.eqb c sep); [done|]. cbn [String.prefix].
  destruct (ascii_dec c c); [done|congruence].
Qed.

(** X18. The date-only form of [getISODate] is the part of the ISO
    string before its first [T]: it is a prefix of the full form,
    contains no [T], and for a string [<date>T<time>] it is [<date>]. *)
Theorem getISODate_date_only (isoString : string) :
  String.prefix (getISODate isoString true) (getISODate isoString false) = true ∧
  contains_char "T" (getISODate isoString true) = false ∧
  (∀ date time, isoString = date ++ String "T" time →
                contains_char "T" date = false →
                getISODate isoString true = date) ∧
  (contains_char "T" isoString = false → getISODate isoString true = isoString).
Proof.
  unfold getISODate. split; [apply String_before_prefix|].
  split; [apply String_before_clean|]. split.
  - intros date time -> Hd. by apply String_before_app.
  - induction isoString as [|c s IH]; [done|].
    cbn [contains_char String_before]. intros [Hc Hs]%orb_false_iff.
    by rewrite Hc, IH.
Qed.

(** X19. [parseNumberSafe] gives [NaN] only if the fallback is [NaN].
    It gives [Number(value)], or the fallback when that is [NaN], as for
    [undefined] and for a [NaN] number.  [null], [false] and [true] are
    numbers for [Number] and give 0, 0 and 1 whatever the fallback; a
    number that is not [NaN] is returned as it is. *)
Theorem parseNumberSafe_fallback (host : Builtins) (value : jsval) (fallback : num) :
  (isNaN (parseNumberSafe value fallback) = true → isNaN fallback = true) ∧
  (parseNumberSafe value fallback = ToNumber value ∨
   (isNaN (ToNumber value) = true ∧ parseNumberSafe value fallback = fallback)) ∧
  parseNumberSafe VUndefined fallback = fallback ∧
  parseNumberSafe (VNum NaN) fallback = fallback ∧
  parseNumberSafe VNull fallback = num_zero ∧
  parseNumberSafe (VBool false) fallback = num_zero ∧
  parseNumberSafe (VBool true) fallback = num_one ∧
  (∀ x, isNaN x = false → parseNumberSafe (VNum x) fallback = x).
Proof.
  split; [|split].
  - unfold parseNumberSafe. destruct (isNaN (ToNumber value)) eqn:Hv; [done|].
    congruence.
  - unfold parseNumberSafe. destruct (isNaN (ToNumber value)); auto.
  - repeat split; try reflexivity.
    intros x Hx. unfold parseNumberSafe. cbn. by rewrite Hx.
Qed.

(* ===================================================================== *)
(** ** One row of the inventory file *)
(* ===================================================================== *)

Lemma getAgingCategory_known (d : num) :
  known_aging_key (getAgingCategory d).
Proof.
  unfold getAgingCategory, known_aging_key.
  destruct (num_le d (num_of_Z 30)); [auto|].
  destruct (num_le d (num_of_Z 60)); [auto|].
  destruct (num_le d (num_of_Z 90)); auto.
Qed.

(** X20. The metrics of a vehicle row.  With [calculate_metrics] set,
    the aging category is the category of the days on the lot and one of
    the four known ones; a row without a received date has [NaN] days on
    the lot and falls in "Critical".  Without [calculate_metrics] the
    vehicle carries no metric at all. *)
Theorem row_metrics (host : Builtins) (parseInt : jsval → num)
    (calculate_metrics : jsval) (currentDate : num) (row : gmap string jsval) :
  let vehicle := on_data parseInt calculate_metrics currentDate row in
  (truthy calculate_metrics = true →
   ∃ days, days_on_lot vehicle = Some days ∧
           aging_category vehicle = Some (getAgingCategory days) ∧
           known_aging_key (vehicle_aging_key vehicle) ∧
           (get row "DateReceived" = VUndefined →
            get row "date_received" = VUndefined →
            days = NaN ∧ aging_category vehicle = Some "Critical")) ∧
  (truthy calculate_metrics = false →
   days_on_lot vehicle = None ∧ aging_category vehicle = None ∧
   InventoryIngestor.vehicle_line vehicle = None).
Proof.
  intros vehicle. subst vehicle. unfold on_data. split; intros ->.
  - eexists. split; [reflexivity|]. split; [reflexivity|]. split.
    + apply getAgingCategory_known.
    + intros -> ->. cbn [js_or truthy new_Date]. by destruct currentDate.
  - done.
Qed.

Lemma num_le_of_Z_bool (a b : Z) : num_le (num_of_Z a) (num_of_Z b) = (a <=? b)%Z.
Proof.
  destruct (Z.leb_spec a b) as [Hab|Hab].
  - by apply num_le_of_Z.
  - apply not_true_iff_false. rewrite num_le_of_Z. lia.
Qed.

Lemma getAgingCategory_of_Z (d : Z) :
  getAgingCategory (num_of_Z d)
  = if (d <=? 30)%Z then "Fresh"
    else if (d <=? 60)%Z then "Aging"
    else if (d <=? 90)%Z then "Stale" else "Critical".
Proof. unfold getAgingCategory. by rewrite !num_le_of_Z_bool. Qed.

Lemma aging_rank_mono (d1 d2 : Z) :
  (d1 ≤ d2)%Z →
  (aging_rank (getAgingCategory (num_of_Z d1))
   ≤ aging_rank (getAgingCategory (num_of_Z d2)))%nat.
Proof.
  intros Hd. rewrite !getAgingCategory_of_Z.
  destruct (Z.leb_spec d1 30), (Z.leb_spec d1 60), (Z.leb_spec d1 90),
           (Z.leb_spec d2 30), (Z.leb_spec d2 60), (Z.leb_spec d2 90);
    cbn; lia.
Qed.

(** X21. A vehicle never gets fresher.  For a received date and two
    readings of the clock, the later reading gives at least as many days
    on the lot and an aging category that is the same or a later one in
    the order Fresh, Aging, Stale, Critical. *)
Theorem aging_never_gets_fresher (now1 now2 : Q) (date_received : num) :
  (now1 <= now2)%Q →
  let days1 := daysOnLot (Fin now1) date_received in
  let days2 := daysOnLot (Fin now2) date_received in
  (aging_rank (getAgingCategory days1) ≤ aging_rank (getAgingCategory days2))%nat ∧
  (∀ r, date_received = Fin r → num_le days1 days2 = true).
Proof.
  intros Hnow days1 days2. subst days1 days2. unfold daysOnLot.
  destruct date_received as [| | |r]; [split; [done|discriminate]..|].
  rewrite !floor_days_Fin.
  assert (Hd : (Qfloor ((now1 - r) / inject_Z 86400000)
                ≤ Qfloor ((now2 - r) / inject_Z 86400000))%Z).
  { apply Qfloor_resp_le, Qdiv_day_le. unfold Qminus.
    by apply Qplus_le_compat; [|apply Qle_refl]. }
  split; [by apply aging_rank_mono|].
  intros _ _. by apply num_le_of_Z.
Qed.

Lemma aging_never_gets_fresher_witness :
  let days1 := daysOnLot (Fin (inject_Z 2592000000)) (num_of_Z 0) in
  let days2 := daysOnLot (Fin (inject_Z 2678400000)) (num_of_Z 0) in
  (aging_rank (getAgingCategory days1) ≤ aging_rank (getAgingCategory days2))%nat ∧
  (∀ r, num_of_Z 0 = Fin r → num_le days1 days2 = true).
Proof.
  apply (aging_never_gets_fresher (inject_Z 2592000000) (inject_Z 2678400000)
           (num_of_Z 0)).
  by vm_compute.
Defined.

(* ===================================================================== *)
(** ** The report formatter *)
(* ===================================================================== *)

Section ReportResults.
Context `{Builtins}.

Import ReportFormatter.

Lemma report_body_Ok env recommendations inv inc fmt r :
  report_body env recommendations inv inc fmt = Ok r ↔
  ∃ recs,
    recommendations = VArr recs ∧
    ensureDir env "./output" = Ok tt ∧
    writeFile env
      (path_join env "./output"
         ("promotional_report_" ++ getISODate (file_date_iso env) true ++ ".json"))
      (stringify env (report_data env recs inv inc)) = Ok tt ∧
    r = createResponse (ReportFormatter.timestamp env) true
          (<["recommendations_count" := RData (PNumber (num_of_nat (length recs)))]>
           (<["format" := RData (PValue fmt)]>
            (<["file_path" :=
                 RData (PString
                   (path_join env "./output"
                      ("promotional_report_"
                         ++ getISODate (file_date_iso env) true ++ ".json")))]>
             (<["formatted_report" :=
                  RData (PString (stringify env (report_data env recs inv inc)))]>
              (<["report_data" := RData (PReport (report_data env recs inv inc))]> ∅)))))
          None.
Proof.
  unfold report_body. split.
  - destruct recommendations as [| | | | |recs|]; try discriminate.
    cbn [recommendations_list mbind result_bind].
    destruct (ensureDir env "./output") as [[]|] eqn:Hdir; [|discriminate].
    destruct (writeFile env _ _) as [[]|] eqn:Hw; [|discriminate].
    intros [= <-]. by exists recs.
  - intros (recs & -> & Hdir & Hw & ->).
    cbn [recommendations_list mbind result_bind]. by rewrite Hdir, Hw.
Qed.

Lemma report_success_iff env recommendations inv inc fmt :
  generate_promotional_report env recommendations inv inc fmt !! "success"
  = Some (RBool true) ↔
  report_body env recommendations inv inc fmt
  = Ok (generate_promotional_report env recommendations inv inc fmt).
Proof.
  unfold generate_promotional_report.
  destruct (report_body env recommendations inv inc fmt) as [r|e] eqn:Hbody.
  - split; [done|]. intros _.
    apply report_body_Ok in Hbody as (recs & _ & _ & _ & ->).
    match goal with
    | |- context [createResponse ?ts true ?d None] =>
        destruct (createResponse_success ts d) as (_ & (Hs & _) & _);
          [literal_payload|]
    end.
    done.
  - split; [|discriminate].
    destruct (createResponse_failure (P:=Payload)
                (ReportFormatter.timestamp env) e) as (_ & (Hf & _) & _).
    unfold handleError. rewrite Hf. discriminate.
Qed.

Lemma report_payload ts (count format path formatted data : rfield Payload) name :
  name ∈ ["recommendations_count"; "format"; "file_path"; "formatted_report";
          "report_data"] →
  createResponse ts true
    (<["recommendations_count" := count]>
     (<["format" := format]>
      (<["file_path" := path]>
       (<["formatted_report" := formatted]>
        (<["report_data" := data]> ∅))))) None !! name
  = (<["recommendations_count" := count]>
     (<["format" := format]>
      (<["file_path" := path]>
       (<["formatted_report" := formatted]>
        (<["report_data" := data]> (∅ : gmap string (rfield Payload))))))) !! name.
Proof.
  intros Hname.
  match goal with
  | |- context [createResponse ?ts true ?d None] =>
      destruct (createResponse_success ts d) as (_ & _ & Hpay);
        [literal_payload|]
  end.
  match goal with
  | |- _ = ?m !! name => destruct (m !! name) as [v|] eqn:Hv
  end.
  - by apply Hpay.
  - exfalso. repeat (apply elem_of_cons in Hname as [->|Hname]; [discriminate|]).
    by apply elem_of_nil in Hname.
Qed.

Lemma rank_recommendation_lookup (i : nat) (rec : jsval) :
  rank_recommendation i rec !! "rank" = Some (VNum (num_of_nat (i + 1))) ∧
  rank_recommendation i rec !! "priority"
  = Some (VStr (if (i =? 0)%nat then "HIGH" else "MEDIUM")) ∧
  ∀ k, k ≠ "rank" → k ≠ "priority" →
       rank_recommendation i rec !! k = spread rec !! k.
Proof.
  unfold rank_recommendation. split; [|split].
  - by rewrite lookup_insert_ne, lookup_insert_eq.
  - by rewrite lookup_insert_eq.
  - intros k Hr Hp. by rewrite !lookup_insert_ne.
Qed.
End ReportResults.

(** X22. The ranking of a report.  A successful report holds one ranked
    recommendation per input recommendation, in the same order: the one
    at position [i] has rank [i + 1], priority HIGH for the first and
    MEDIUM for every other, and otherwise the properties of its input (a
    [rank] or [priority] given in the input is overwritten).  Its count
    is the number of recommendations, and the urgency is HIGH exactly
    from three recommendations on. *)
Theorem report_ranking (host : Builtins) (env : ReportFormatter.Env)
    (recommendations inv inc fmt : jsval) :
  let r := ReportFormatter.generate_promotional_report env recommendations inv inc fmt in
  r !! "success" = Some (RBool true) →
  ∃ recs d,
    recommendations = VArr recs ∧
    r !! "report_data" = Some (RData (ReportFormatter.PReport d)) ∧
    r !! "recommendations_count"
    = Some (RData (ReportFormatter.PNumber (num_of_nat (length recs)))) ∧
    length (ReportFormatter.recommendations d) = length recs ∧
    (∀ i rec, recs !! i = Some rec →
       ∃ ranked,
         ReportFormatter.recommendations d !! i = Some ranked ∧
         ranked !! "rank" = Some (VNum (num_of_nat (i + 1))) ∧
         ranked !! "priority" = Some (VStr (if (i =? 0)%nat then "HIGH" else "MEDIUM")) ∧
         ∀ k, k ≠ "rank" → k ≠ "priority" →
              ranked !! k = ReportFormatter.spread rec !! k) ∧
    (ReportFormatter.urgency_level (ReportFormatter.executive_summary d) = "HIGH"
     ↔ (3 ≤ length recs)%nat).
Proof.
  intros r Hs. subst r. apply report_success_iff in Hs.
  apply report_body_Ok in Hs as (recs & -> & _ & _ & Hr).
  exists recs, (ReportFormatter.report_data env recs inv inc).
  split; [done|]. rewrite Hr.
  rewrite !report_payload by compute_done.
  split; [reflexivity|]. split; [reflexivity|].
  cbn [ReportFormatter.report_data ReportFormatter.recommendations
       ReportFormatter.executive_summary ReportFormatter.urgency_level].
  split; [apply length_imap|]. split.
  - intros i rec Hi. exists (ReportFormatter.rank_recommendation i rec).
    split; [by rewrite list_lookup_imap, Hi|].
    apply rank_recommendation_lookup.
  - destruct (Nat.leb_spec 3 (length recs)); split; try done; lia.
Qed.

Lemma report_ranking_witness :
  let env := {| ReportFormatter.generated_at_iso := "2024-01-15T10:30:45.123Z";
                ReportFormatter.file_date_iso := "2024-01-15T10:30:45.123Z";
                ReportFormatter.timestamp := "2024-01-15T10:30:45.123Z";
                ReportFormatter.stringify := λ _, "{}";
                ReportFormatter.path_join := λ dir file, dir ++ "/" ++ file;
                ReportFormatter.ensureDir := λ _, Ok tt;
                ReportFormatter.writeFile := λ _ _, Ok tt |} in
  let recommendations := VArr [VObj [("vehicle_line", VStr "2024 Honda Civic")]] in
  let r := ReportFormatter.generate_promotional_report (H:=example_host) env
             recommendations VNull VNull (VStr "json") in
  ∃ recs d,
    recommendations = VArr recs ∧
    r !! "report_data" = Some (RData (ReportFormatter.PReport d)) ∧
    r !! "recommendations_count"
    = Some (RData (ReportFormatter.PNumber (num_of_nat (length recs)))) ∧
    length (ReportFormatter.recommendations d) = length recs ∧
    (∀ i rec, recs !! i = Some rec →
       ∃ ranked,
         ReportFormatter.recommendations d !! i = Some ranked ∧
         ranked !! "rank" = Some (VNum (num_of_nat (i + 1))) ∧
         ranked !! "priority" = Some (VStr (if (i =? 0)%nat then "HIGH" else "MEDIUM")) ∧
         ∀ k, k ≠ "rank" → k ≠ "priority" →
              ranked !! k = ReportFormatter.spread rec !! k) ∧
    (ReportFormatter.urgency_level (ReportFormatter.executive_summary d) = "HIGH"
     ↔ (3 ≤ length recs)%nat).
Proof.
  intros env recommendations r.
  apply (report_ranking example_host env recommendations VNull VNull (VStr "json")).
  vm_compute. reflexivity.
Defined.




(* ===================================================================== *)
(** ** Input validation *)
(* ===================================================================== *)

Section InputValidation.
Context `{Builtins}.

Import SchemaValidator.

(** A field is written to [validated] only when the input has it. *)
Lemma validateInput_field_keys input st entry k :
  is_Some ((validateInput_field input st entry).1 !! k) →
  is_Some (st.1 !! k) ∨ (k = entry.1 ∧ has_property k input = true).
Proof.
  destruct st as [validated errors], entry as [field rules].
  unfold validateInput_field. cbn [fst].
  destruct (has_property field input) eqn:Hin; cbn [negb andb].
  - rewrite andb_false_r. cbn [andb].
    destruct (match type rules with
              | Some ty => _
              | None => None
              end); [auto|].
    destruct (validator rules) as [check|].
    + destruct (check _); cbn [fst]; [|auto].
      rewrite lookup_insert_is_Some'. intros [<-|?]; auto.
    + cbn [fst]. rewrite lookup_insert_is_Some'. intros [<-|?]; auto.
  - rewrite andb_true_r. destruct (required rules); cbn [negb fst]; auto.
Qed.

Lemma validateInput_fold_keys input schema st k :
  is_Some ((foldl (validateInput_field input) st schema).1 !! k) →
  is_Some (st.1 !! k) ∨ (k ∈ schema.*1 ∧ has_property k input = true).
Proof.
  revert st. induction schema as [|entry schema IH]; intros st; cbn [foldl].
  - auto.
  - intros [Hk|[Hk Hin]]%IH.
    + apply validateInput_field_keys in Hk as [?|[-> ?]]; [auto|].
      right. split; [|done]. rewrite fmap_cons. apply list_elem_of_here.
    + right. split; [|done]. rewrite fmap_cons. by apply list_elem_of_further.
Qed.

Lemma validateInput_Ok schemaName input validated :
  validateInput schemaName input = Ok validated →
  ∃ schema, InputSchemas schemaName = Some schema ∧
            foldl (validateInput_field input) (∅, []) schema = (validated, []).
Proof.
  unfold validateInput.
  destruct (InputSchemas schemaName) as [schema|]; [|discriminate].
  destruct (foldl _ _ schema) as [v errors] eqn:Hfold.
  destruct errors as [|e errors]; cbn; [|discriminate].
  intros [= <-]. by exists schema.
Qed.
End InputValidation.

(** X25. [validateInput] never fills in a default.  The validated
    object holds only fields of the schema that the input has itself: a
    field declared with a [default] and left out by the caller is absent
    from the result, and a field that the schema does not declare is
    dropped. *)
Theorem validateInput_applies_no_default (host : Builtins) (schemaName : string)
    (input : list (string * jsval)) (validated : gmap string jsval) :
  SchemaValidator.validateInput schemaName input = Ok validated →
  ∃ schema,
    SchemaValidator.InputSchemas schemaName = Some schema ∧
    ∀ field, is_Some (validated !! field) →
             field ∈ schema.*1 ∧ SchemaValidator.has_property field input = true.
Proof.
  intros (schema & Hschema & Hfold)%validateInput_Ok.
  exists schema. split; [done|]. intros field Hfield.
  destruct (validateInput_fold_keys input schema (∅, []) field) as [Hk|Hk].
  - by rewrite Hfold.
  - cbn in Hk. rewrite lookup_empty in Hk. by destruct Hk.
  - done.
Qed.

Lemma validateInput_applies_no_default_witness :
  ∃ validated schema,
    SchemaValidator.validateInput (H:=example_host) "inventoryIngestor"
      [("file_path", VStr "inventory.csv"); ("limit", VNum (num_of_Z 5))]
    = Ok validated ∧
    validated !! "calculate_metrics" = None ∧
    SchemaValidator.InputSchemas (H:=example_host) "inventoryIngestor" = Some schema ∧
    ∀ field, is_Some (validated !! field) →
             field ∈ schema.*1 ∧
             SchemaValidator.has_property field
               [("file_path", VStr "inventory.csv"); ("limit", VNum (num_of_Z 5))]
             = true.
Proof.
  destruct (validateInput_applies_no_default example_host "inventoryIngestor"
              [("file_path", VStr "inventory.csv"); ("limit", VNum (num_of_Z 5))]
              {[ "file_path" := VStr "inventory.csv" ]} eq_refl)
    as (schema & Hschema & Hkeys).
  exists {[ "file_path" := VStr "inventory.csv" ]}, schema.
  split; [reflexivity|]. split; [reflexivity|]. split; [exact Hschema|exact Hkeys].
Defined.

Section IngestorInput.
Context `{Builtins}.

Import SchemaValidator.

Lemma inventoryIngestor_schema :
  InputSchemas "inventoryIngestor"
  = Some [ ("file_path",
            {| required := true; type := None;
               validator := Some filePath; default_value := None |});
           ("calculate_metrics",
            {| required := false; type := Some "boolean";
               validator := None; default_value := Some (VBool true) |}) ].
Proof. reflexivity. Qed.

Lemma typeof_boolean (v : jsval) :
  String.eqb (typeof v) "boolean" = true ↔ ∃ b, v = VBool b.
Proof.
  destruct v; cbn; split; try discriminate; try (by intros [? [=]]); eauto.
Qed.
Lemma filePath_Ok (v w : jsval) :
  filePath v = Ok w →
  ∃ path, v = VStr path ∧ String.length (String_trim path) ≠ 0%nat ∧
          w = VStr (String_trim path).
Proof.
  destruct v as [| | | |path| |]; try discriminate. cbn [filePath].
  destruct (Nat.eqb_spec (String.length (String_trim path)) 0); [discriminate|].
  intros [= <-]. by exists path.
Qed.

Lemma filePath_Throw (v : jsval) (e : JsError) :
  filePath v = Throw e →
  ∀ path, v = VStr path → String.length (String_trim path) = 0%nat.
Proof.
  intros He path ->. cbn [filePath] in He.
  by destruct (Nat.eqb_spec (String.length (String_trim path)) 0).
Qed.
End IngestorInput.

(** X26. The input of the inventory ingestor.  It is accepted exactly
    when it has a [file_path] that is a string with something left after
    trimming, and its [calculate_metrics], if it has one, is a boolean.
    The validated object then holds the trimmed path, and
    [calculate_metrics] as the caller gave it: when the caller gave none
    it is absent, although the schema declares the default [true].  Every
    rejection is an [AppError] of type VALIDATION. *)
Theorem validateInput_inventoryIngestor (host : Builtins)
    (input : list (string * jsval)) :
  match SchemaValidator.validateInput "inventoryIngestor" input with
  | Ok validated =>
      ∃ path,
        SchemaValidator.has_property "file_path" input = true ∧
        assoc "file_path" input = VStr path ∧
        String.length (String_trim path) ≠ 0%nat ∧
        validated !! "file_path" = Some (VStr (String_trim path)) ∧
        validated !! "calculate_metrics"
        = (if SchemaValidator.has_property "calculate_metrics" input
           then Some (assoc "calculate_metrics" input) else None) ∧
        (SchemaValidator.has_property "calculate_metrics" input = true →
         ∃ b, assoc "calculate_metrics" input = VBool b)
  | Throw e =>
      message e = "Input validation failed" ∧
      type <$> app e = Some ErrorTypes.VALIDATION ∧
      (SchemaValidator.has_property "file_path" input = false ∨
       (∀ path, assoc "file_path" input = VStr path →
                String.length (String_trim path) = 0%nat) ∨
       (SchemaValidator.has_property "calculate_metrics" input = true ∧
        ∀ b, assoc "calculate_metrics" input ≠ VBool b))
  end.
Proof.
  unfold SchemaValidator.validateInput. rewrite inventoryIngestor_schema.
  cbn [foldl SchemaValidator.validateInput_field SchemaValidator.required
       SchemaValidator.type SchemaValidator.validator
       SchemaValidator.default_value andb negb].
  destruct (SchemaValidator.has_property "file_path" input) eqn:Hfp;
    cbn [negb andb];
    [destruct (SchemaValidator.filePath (assoc "file_path" input))
       as [w|e] eqn:Hpath|];
    cbn [SchemaValidator.validateInput_field SchemaValidator.required
         SchemaValidator.type SchemaValidator.validator
         SchemaValidator.default_value andb negb];
    (destruct (SchemaValidator.has_property "calculate_metrics" input) eqn:Hcm;
     cbn [negb andb];
     [destruct (String.eqb (SchemaValidator.typeof
                  (assoc "calculate_metrics" input)) "boolean") eqn:Hty;
      cbn [negb]|]);
    cbn [app length Nat.ltb Nat.leb].
  all: try (split; [done|split; [done|]]).
  - apply filePath_Ok in Hpath as (path & Hp & Hlen & ->).
    apply typeof_boolean in Hty as [b Hb]. exists path.
    split; [done|]. split; [done|]. split; [done|].
    split; [by rewrite lookup_insert_ne|].
    split; [by rewrite lookup_insert_eq|]. intros _. by exists b.
  - right. right. split; [done|]. intros b Hb.
    assert (String.eqb (SchemaValidator.typeof
              (assoc "calculate_metrics" input)) "boolean" = true); [|congruence].
    apply typeof_boolean. by exists b.
  - apply filePath_Ok in Hpath as (path & Hp & Hlen & ->). exists path.
    split; [done|]. split; [done|]. split; [done|].
    split; [by rewrite lookup_insert_eq|]. done.
  - right. left. by apply (filePath_Throw _ e).
  - right. left. by apply (filePath_Throw _ e).
  - right. left. by apply (filePath_Throw _ e).
  - by left.
  - by left.
  - by left.
Qed.

(** X27. The default of [calculate_metrics] is lost on the way.  When
    the caller of the inventory ingestor leaves [calculate_metrics] out,
    the validated parameter is [undefined], not the declared default
    [true]; every row is then ingested without its metrics, and the
    summary of a non-empty file has [NaN] for [average_days_on_lot] and
    under the key ["undefined"] of [by_aging]. *)
Theorem metrics_default_is_lost (host : Builtins) (parseInt : jsval → num)
    (input : list (string * jsval)) (validated : gmap string jsval)
    (currentDate : num) (rows : list (gmap string jsval)) :
  SchemaValidator.validateInput "inventoryIngestor" input = Ok validated →
  SchemaValidator.has_property "calculate_metrics" input = false →
  let calculate_metrics := get validated "calculate_metrics" in
  let inventory := on_data parseInt calculate_metrics currentDate <$> rows in
  calculate_metrics = VUndefined ∧
  Forall (λ v, days_on_lot v = None ∧ aging_category v = None) inventory ∧
  (rows ≠ [] →
   average_days_on_lot (calculateInventorySummary inventory) = NaN ∧
   by_aging (calculateInventorySummary inventory) !! "undefined" = Some NaN).
Proof.
  intros Hv Hcm calculate_metrics inventory.
  assert (Hundef : calculate_metrics = VUndefined).
  { subst calculate_metrics. unfold get.
    destruct (validated !! "calculate_metrics") as [x|] eqn:Hx; [|done].
    apply validateInput_Ok in Hv as (schema & _ & Hfold).
    destruct (validateInput_fold_keys input schema (∅, []) "calculate_metrics")
      as [Hk|[_ Hk]].
    - rewrite Hfold. cbn. rewrite Hx. eauto.
    - cbn in Hk. rewrite lookup_empty in Hk. by destruct Hk.
    - congruence. }
  assert (Hall : Forall (λ v, days_on_lot v = None ∧ aging_category v = None) inventory).
  { subst inventory. apply Forall_fmap, Forall_forall. intros row _.
    cbn. by rewrite Hundef. }
  split; [done|]. split; [done|]. intros Hrows.
  assert (Hex : Exists (λ v, days_on_lot v = None ∧ aging_category v = None) inventory).
  { subst inventory. destruct rows as [|row rows]; [done|].
    rewrite fmap_cons in *. apply Exists_cons_hd. by apply Forall_cons in Hall as [? _]. }
  split.
  - apply average_without_days. eapply Exists_impl; [exact Hex|]. by intros v [? _].
  - apply by_aging_without_category. eapply Exists_impl; [exact Hex|]. by intros v [_ ?].
Qed.

Lemma metrics_default_is_lost_witness :
  let validated : gmap string jsval := {[ "file_path" := VStr "inventory.csv" ]} in
  let calculate_metrics := get validated "calculate_metrics" in
  let inventory :=
    on_data (H:=example_host) (λ _, num_of_Z 2024) calculate_metrics
      (num_of_Z 1700000000000)
      <$> [record_of [("Make", VStr "Honda"); ("Model", VStr "Civic")]] in
  calculate_metrics = VUndefined ∧
  Forall (λ v, days_on_lot v = None ∧ aging_category v = None) inventory ∧
  ([record_of [("Make", VStr "Honda"); ("Model", VStr "Civic")]] ≠ [] →
   average_days_on_lot (calculateInventorySummary inventory) = NaN ∧
   by_aging (calculateInventorySummary inventory) !! "undefined" = Some NaN).
Proof.
  apply (metrics_default_is_lost example_host (λ _, num_of_Z 2024)
           [("file_path", VStr "inventory.csv")]
           {[ "file_path" := VStr "inventory.csv" ]}
           (num_of_Z 1700000000000)
           [record_of [("Make", VStr "Honda"); ("Model", VStr "Civic")]]);
    reflexivity.
Defined.

(* ===================================================================== *)
(** ** Output validation *)
(* ===================================================================== *)

Section OutputValidation.
Context `{Builtins}.

Import SchemaValidator.

Lemma validateOutput_field_errors output errors entry :
  (length errors ≤ length (validateOutput_field output errors entry))%nat ∧
  (conforms output entry = true → validateOutput_field output errors entry = errors) ∧
  (conforms output entry = false →
   (length errors < length (validateOutput_field output errors entry))%nat).
Proof.
  destruct entry as [field rules]. unfold validateOutput_field, conforms. cbn [fst snd].
  destruct (has_property field output); cbn [negb andb].
  - rewrite andb_false_r. cbn [andb].
    destruct (type rules) as [ty|]; [|done].
    destruct (String.eqb _ ty); cbn [negb]; [done|].
    rewrite length_app. cbn. split; [lia|]. split; [done|]. lia.
  - rewrite andb_true_r. destruct (required rules); cbn [negb]; [|done].
    rewrite length_app. cbn. split; [lia|]. split; [done|]. lia.
Qed.

Lemma validateOutput_fold output schema errors :
  (length errors ≤ length (foldl (validateOutput_field output) errors schema))%nat ∧
  (forallb (conforms output) schema = true →
   foldl (validateOutput_field output) errors schema = errors) ∧
  (forallb (conforms output) schema = false →
   (length errors < length (foldl (validateOutput_field output) errors schema))%nat).
Proof.
  revert errors. induction schema as [|entry schema IH]; intros errors;
    cbn [foldl forallb].
  - split; [done|]. split; [done|]. discriminate.
  - destruct (validateOutput_field_errors output errors entry) as (Hle & Hok & Hbad).
    destruct (IH (validateOutput_field output errors entry)) as (IHle & IHok & IHbad).
    split; [lia|]. destruct (conforms output entry); cbn [andb].
    + rewrite Hok by done. split; [apply IH|apply IH].
    + split; [discriminate|]. intros _. specialize (Hbad eq_refl). lia.
Qed.

Lemma validateOutput_returns schemaName output :
  returns (validateOutput schemaName output)
  = match OutputSchemas schemaName with
    | Some schema => forallb (conforms output) schema
    | None => false
    end.
Proof.
  unfold validateOutput. destruct (OutputSchemas schemaName) as [schema|]; [|done].
  destruct (validateOutput_fold output schema []) as (_ & Hok & Hbad).
  destruct (forallb (conforms output) schema).
  - by rewrite Hok.
  - specialize (Hbad eq_refl).
    destruct (foldl _ [] schema); [cbn in Hbad; lia|done].
Qed.

(** The own properties of a response object. *)
Lemma response_has_property (r : gmap string (rfield jsval)) (k : string) :
  has_property k (response_object r) = bool_decide (is_Some (r !! k)).
Proof.
  unfold has_property, response_object. case_bool_decide as Hk.
  - destruct Hk as [f Hf]. apply existsb_exists. exists (k, rfield_value f).
    split; [|apply String.eqb_refl].
    apply list_elem_of_In, elem_of_map_to_list. by rewrite lookup_fmap, Hf.
  - apply not_true_iff_false. intros ([k' v] & Hin & Hk')%existsb_exists.
    apply String.eqb_eq in Hk'. cbn in Hk'. subst k'.
    apply list_elem_of_In, elem_of_map_to_list in Hin.
    rewrite lookup_fmap in Hin. destruct (r !! k); [|done]. apply Hk. eauto.
Qed.

Lemma assoc_NoDup (props : list (string * jsval)) (k : string) (v : jsval) :
  NoDup props.*1 → (k, v) ∈ props → assoc k props = v.
Proof.
  induction props as [|[k' v'] props IH]; intros Hnd Hin; [by apply elem_of_nil in Hin|].
  cbn [assoc]. rewrite fmap_cons in Hnd. apply NoDup_cons in Hnd as [Hfresh Hnd].
  apply elem_of_cons in Hin as [[= <- <-]|Hin].
  - by rewrite String.eqb_refl.
  - destruct (String.eqb_spec k' k) as [->|_]; [|by apply IH].
    destruct Hfresh. cbn. apply list_elem_of_fmap. by exists (k, v).
Qed.

Lemma response_assoc (r : gmap string (rfield jsval)) (k : string) (f : rfield jsval) :
  r !! k = Some f → assoc k (response_object r) = rfield_value f.
Proof.
  intros Hf. apply assoc_NoDup; [apply NoDup_fst_map_to_list|].
  apply elem_of_map_to_list. by rewrite lookup_fmap, Hf.
Qed.
End OutputValidation.

(** X28. Output validation and the standard responses.
    [validateOutput] returns exactly when the schema is known and every
    field conforms (for a schema name that is a [plain_key]), and it then
    returns its argument unchanged.  A success response of
    [createStandardResponse] over the four typed fields of the
    [inventoryIngestor] schema passes that schema, and a failure response
    of [createStandardResponse] passes every declared schema. *)
Theorem validateOutput_accepts_responses (host : Builtins) :
  (∀ schemaName output,
     plain_key schemaName →
     returns (SchemaValidator.validateOutput schemaName output)
     = match SchemaValidator.OutputSchemas schemaName with
       | Some schema => forallb (conforms output) schema
       | None => false
       end) ∧
  (∀ schemaName output validated,
     SchemaValidator.validateOutput schemaName output = Ok validated →
     validated = output) ∧
  (∀ ts inventory summary total date,
     let r := createStandardResponse ts true
                (inventory_payload inventory summary total date) None in
     SchemaValidator.validateOutput "inventoryIngestor" (response_object r)
     = Ok (response_object r)) ∧
  (∀ schemaName ts data error,
     is_Some (SchemaValidator.OutputSchemas schemaName) →
     let r := createStandardResponse ts false data error in
     SchemaValidator.validateOutput schemaName (response_object r)
     = Ok (response_object r)).
Proof.
  assert (Hid : ∀ schemaName output validated,
            SchemaValidator.validateOutput schemaName output = Ok validated →
            validated = output).
  { intros schemaName output validated. unfold SchemaValidator.validateOutput.
    destruct (SchemaValidator.OutputSchemas schemaName); [|discriminate].
    destruct (0 <? _)%nat; [discriminate|]. by intros [= <-]. }
  assert (Hret : ∀ schemaName output,
            returns (SchemaValidator.validateOutput schemaName output) = true →
            SchemaValidator.validateOutput schemaName output = Ok output).
  { intros schemaName output Hr.
    destruct (SchemaValidator.validateOutput schemaName output) as [v|] eqn:Hv;
      [|discriminate].
    by rewrite (Hid _ _ _ Hv). }
  split; [intros schemaName output _; apply validateOutput_returns|].
  split; [exact Hid|]. split.
  - intros ts inventory summary total date r. subst r. apply Hret.
    rewrite validateOutput_returns.
    cbn [SchemaValidator.OutputSchemas String.eqb Ascii.eqb Bool.eqb forallb].
    unfold conforms. cbn [fst snd SchemaValidator.type SchemaValidator.required].
    rewrite !response_has_property.
    rewrite (response_assoc _ "success" (RBool true)) by reflexivity.
    rewrite (response_assoc _ "data" (RData (VArr inventory))) by reflexivity.
    rewrite (response_assoc _ "summary" (RData (VObj summary))) by reflexivity.
    rewrite (response_assoc _ "total_vehicles" (RData (VNum total))) by reflexivity.
    rewrite (response_assoc _ "ingestion_date" (RData (VStr date))) by reflexivity.
    reflexivity.
  - intros schemaName ts data error Hschema r. subst r. apply Hret.
    rewrite validateOutput_returns.
    assert (Hs : createStandardResponse ts false data error !! "success"
                 = Some (RBool false)) by (by destruct error as [[? [?|]]|]).
    assert (He : createStandardResponse ts false data error !! "error"
                 = Some (RStr (default "Unknown error"
                                 ((λ e, message_or e "Unknown error") <$> error))))
      by (by destruct error as [[? [?|]]|]).
    assert (Ht : createStandardResponse ts false data error !! "timestamp"
                 = Some (RStr ts)) by (by destruct error as [[? [?|]]|]).
    assert (Hn : ∀ k, k ∉ envelope_keys →
                      createStandardResponse ts false data error !! k = None).
    { intros k Hk. apply eq_None_not_Some. intros Hl. apply Hk. revert Hl.
      unfold createStandardResponse.
      destruct error as [[msg [a|]]|]; cbn;
        rewrite !lookup_insert_is_Some', lookup_empty;
        intros Hl; repeat (destruct Hl as [?|Hl]; [envelope_key|]);
        by destruct Hl. }
    revert Hschema. unfold SchemaValidator.OutputSchemas.
    destruct (String.eqb schemaName "inventoryIngestor");
      [|destruct (String.eqb schemaName "incentiveFetcher");
        [|destruct (String.eqb schemaName "reportGenerator")]];
      intros Hschema; [| | |by destruct Hschema];
      cbn [forallb]; unfold conforms;
      cbn [fst snd SchemaValidator.type SchemaValidator.required];
      rewrite !response_has_property;
      rewrite ?(response_assoc _ _ _ Hs), ?(response_assoc _ _ _ He),
              ?(response_assoc _ _ _ Ht), ?Hs, ?He, ?Ht;
      rewrite ?Hn by compute_done;
      reflexivity.
Qed.

(* ===================================================================== *)
(** ** The two builders of responses *)
(* ===================================================================== *)

(** X29. The two builders of responses differ on a failure.  Called
    without an error object, [createResponse] gives a failure response
    that has no [error] message at all, where [createStandardResponse]
    falls back on "Unknown error".  [createResponse] keeps the payload on
    a failure; [createStandardResponse] drops it, so that its failure
    responses hold nothing besides the envelope. *)
Theorem response_builders_differ {P : Type} (ts : string)
    (data : gmap string (rfield P)) (e : JsError) :
  createResponse ts false (∅ : gmap string (rfield P)) None !! "error" = None ∧
  ¬ failure_branch (createResponse ts false (∅ : gmap string (rfield P)) None) ∧
  createStandardResponse ts false data None !! "error" = Some (RStr "Unknown error") ∧
  (∀ k v, data !! k = Some v → createResponse ts false data (Some e) !! k = Some v
                               ∨ k ∈ envelope_keys) ∧
  (∀ k, is_Some (createStandardResponse ts false data (Some e) !! k) →
        k ∈ envelope_keys).
Proof.
  split; [reflexivity|]. split.
  { intros (_ & (msg & Hmsg & _) & _). discriminate Hmsg. }
  split; [reflexivity|]. split.
  - intros k v Hk.
    destruct (decide (k ∈ envelope_keys)) as [?|Hne]; [by right|left].
    assert (Hks : k ≠ "success" ∧ k ≠ "timestamp" ∧ k ≠ "error"
                  ∧ k ≠ "errorType" ∧ k ≠ "errorDetails").
    { unfold envelope_keys in Hne. rewrite !not_elem_of_cons in Hne. tauto. }
    destruct Hks as (? & ? & ? & ? & ?).
    unfold createResponse. destruct (app e).
    + rewrite !lookup_insert_ne by done. by apply lookup_union_Some_l.
    + rewrite !lookup_insert_ne by done. by apply lookup_union_Some_l.
  - intros k Hk.
    destruct (createStandardResponse_failure ts data e) as (_ & (_ & _ & Hkeys) & _).
    by apply Hkeys.
Qed.

(* ===================================================================== *)
(** ** The incentive fetch with its default filter *)
(* ===================================================================== *)

Lemma count_of_all {A : Type} (p : A → bool) (l : list A) :
  Forall (λ x, p x = true) l → count_of p l = length l.
Proof.
  induction 1 as [|x l Hx _ IH]; [done|]. rewrite count_of_cons, Hx, IH. done.
Qed.

Lemma count_of_none {A : Type} (p : A → bool) (l : list A) :
  Forall (λ x, p x = false) l → count_of p l = 0%nat.
Proof.
  induction 1 as [|x l Hx _ IH]; [done|]. rewrite count_of_cons, Hx, IH. done.
Qed.

(** X30. With [filter_active_only], the summary of a successful fetch
    counts every returned incentive as Active: [by_status] is exactly
    [{Active: n, Upcoming: 0, Expired: 0}] for the [n] of
    [total_incentives], whatever [include_expired] says. *)
Theorem fetch_default_status_counts (host : Builtins) env path ie :
  fetch_incentive_data env path true ie !! "success" = Some (RBool true) →
  ∃ summary n,
    fetched_summary (fetch_incentive_data env path true ie) = Some summary ∧
    fetched_total (fetch_incentive_data env path true ie) = Some (num_of_nat n) ∧
    total_incentives summary = num_of_nat n ∧
    by_status summary
    = {[ "Active" := num_of_nat n; "Upcoming" := num_zero; "Expired" := num_zero ]}.
Proof.
  intros Hs. apply fetch_success in Hs.
  apply fetch_body_Ok in Hs as (raw & elems & processed & _ & _ & _ & _ & Hr).
  set (data := List.filter (passes_filters true ie) processed) in Hr.
  destruct (fetched_payload (IncentiveFetcher.timestamp env) (fetch_date env) data)
    as (_ & Hsum & Htot).
  exists (calculateIncentiveSummary data), (length data). rewrite Hr.
  split; [done|]. split; [done|]. split; [apply calculateIncentiveSummary_total|].
  assert (Hactive : Forall (λ inc, status inc = "Active") data).
  { apply Forall_forall. intros inc Hin.
    apply list_elem_of_In, filter_In in Hin as [_ Hp].
    unfold passes_filters in Hp. cbn in Hp.
    apply andb_true_iff in Hp as [Hp _]. by apply String.eqb_eq. }
  rewrite by_status_known.
  - rewrite (count_of_all (has_status "Active")), !count_of_none; [done|..].
    + eapply Forall_impl; [exact Hactive|]. intros inc Hst.
      unfold has_status. by rewrite Hst.
    + eapply Forall_impl; [exact Hactive|]. intros inc Hst.
      unfold has_status. by rewrite Hst.
    + eapply Forall_impl; [exact Hactive|]. intros inc Hst.
      unfold has_status. by rewrite Hst.
  - eapply Forall_impl; [exact Hactive|]. intros inc Hst. left. done.
Qed.

Lemma fetch_default_status_counts_witness :
  ∃ summary n,
    fetched_summary (fetch_incentive_data (H:=example_host)
                       (file_env (VArr [VObj []]) (num_of_Z 0) "2024-01-15T10:30:45.123Z")
                       "incentives.json" true false) = Some summary ∧
    fetched_total (fetch_incentive_data (H:=example_host)
                     (file_env (VArr [VObj []]) (num_of_Z 0) "2024-01-15T10:30:45.123Z")
                     "incentives.json" true false) = Some (num_of_nat n) ∧
    total_incentives summary = num_of_nat n ∧
    by_status summary
    = {[ "Active" := num_of_nat n; "Upcoming" := num_zero; "Expired" := num_zero ]}.
Proof.
  apply (fetch_default_status_counts example_host
           (file_env (VArr [VObj []]) (num_of_Z 0) "2024-01-15T10:30:45.123Z")
           "incentives.json" false).
  vm_compute. reflexivity.
Defined.
